(** * Escape-aware terminal styling: a shallow embedding of [@puppuccino/style]

    The development follows the TypeScript sources module by module:
    - [JS]      the fragment of the JavaScript runtime the library relies on
                (UTF-16 strings, [split]/[join], [repeat], [RangeError]);
    - [Width]   [src/width.ts]: escape scanner, width model, measurement
                and transform primitives;
    - [Layout]  [src/layout.ts]: the block compositor;
    - [Border]  [src/border.ts]: border glyph records;
    - [Options] and [Style]  [src/style.ts]: the configuration record, its
                mutators and the rendering pipeline;
    - [Notions] the predicates the properties are stated with.

    Modelling choices:
    - a string is the list of its UTF-16 code units, each the integer
      [charCodeAt] returns; code points are rebuilt from surrogate pairs
      where the source iterates a string ([for ... of]);
    - sizes, counts and colour channels are integers ([Z]), as in the data
      model of the library; alignment positions are exact rationals;
    - the loops of [stripAnsi] and [truncate] are recursive functions on
      what is left to read, their mutable variables being arguments;
    - a negative count handed to [repeat] or to [new Array] raises
      [RangeError]: functions that can reach such a call return a
      [result], the others are plain functions; the limits an engine
      sets on the length of a string and of an array, and on the
      integers a number prints digit by digit, are not in the
      definitions: properties of sizes and colours a caller chooses are
      stated for results that fit ([fits]) and for safe integers;
    - the builtin [parseInt] is a parameter of the renderer.

    Definitions come first, the properties of the program follow. *)

From Stdlib Require Import String Ascii.
From Stdlib Require DecimalString.
From Stdlib Require Import ZArith List Bool Lia QArith Qround.
Import ListNotations.

#[local] Open Scope Z_scope.

(* ===================================================================== *)
(** * The JavaScript fragment                                             *)
(* ===================================================================== *)

Module JS.

(** A JavaScript string is a finite sequence of UTF-16 code units; a code
    unit is kept as the number [charCodeAt] returns for it. *)
Definition jsstring := list Z.

(** ASCII literals of the development, read as one code unit per byte. *)
Definition lit (s : string) : jsstring :=
  map (fun a => Z.of_nat (nat_of_ascii a)) (list_ascii_of_string s).

Definition LF : Z := 10.
Definition SPACE : jsstring := [32].
Definition NL : jsstring := [LF].

Fixpoint str_eqb (a b : jsstring) : bool :=
  match a, b with
  | [], [] => true
  | x :: a', y :: b' => (x =? y) && str_eqb a' b'
  | _, _ => false
  end.

(** [s.includes(c)] for a one-unit needle. *)
Definition includes (c : Z) (s : jsstring) : bool := existsb (Z.eqb c) s.

(** [s.split(sep)] for a one-unit separator: never the empty array. *)
Fixpoint split (sep : Z) (s : jsstring) : list jsstring :=
  match s with
  | [] => [[]]
  | c :: t =>
      if c =? sep then [] :: split sep t
      else match split sep t with
           | l :: ls => (c :: l) :: ls
           | [] => [[c]]
           end
  end.

(** [lines.join(sep)]. *)
Fixpoint join (sep : jsstring) (ls : list jsstring) : jsstring :=
  match ls with
  | [] => []
  | [l] => l
  | l :: rest => l ++ sep ++ join sep rest
  end.

(** [s.replace(/c/g, by)] for a one-unit pattern. *)
Definition replaceAll (c : Z) (by_ : jsstring) (s : jsstring) : jsstring :=
  flat_map (fun u => if u =? c then by_ else [u]) s.

(** [s.replace(/\r\n/g, '\n')]. *)
Fixpoint replaceCRLF (s : jsstring) : jsstring :=
  match s with
  | [] => []
  | c :: t =>
      match t with
      | d :: t' => if (c =? 13) && (d =? 10) then 10 :: replaceCRLF t'
                   else c :: replaceCRLF t
      | [] => [c]
      end
  end.

(** Surrogate code units. *)
Definition isHighSurrogate (u : Z) : bool := (0xD800 <=? u) && (u <=? 0xDBFF).
Definition isLowSurrogate (u : Z) : bool := (0xDC00 <=? u) && (u <=? 0xDFFF).

(** The string iterator ([for (const char of s)]): one string per code
    point, a surrogate pair staying together. *)
Fixpoint chars (s : jsstring) : list jsstring :=
  match s with
  | [] => []
  | h :: t =>
      match t with
      | l :: t' => if isHighSurrogate h && isLowSurrogate l
                   then [h; l] :: chars t'
                   else [h] :: chars t
      | [] => [[h]]
      end
  end.

(** [char.codePointAt(0)]; [None] is [undefined] (the empty string). *)
Definition codePointAt0 (char : jsstring) : option Z :=
  match char with
  | [] => None
  | [h] => Some h
  | h :: l :: _ =>
      if isHighSurrogate h && isLowSurrogate l
      then Some (0x10000 + (h - 0xD800) * 0x400 + (l - 0xDC00))
      else Some h
  end.

(** Copies of [s], for a count already known to be non-negative. *)
Definition copies (s : jsstring) (n : Z) : jsstring :=
  concat (repeat s (Z.to_nat n)).

(** Operations that throw: the exception the library meets is the
    [RangeError] of [repeat] and [new Array]. *)
Inductive result (A : Type) : Type :=
| Ok (a : A)
| RangeError.
Arguments Ok {A} a.
Arguments RangeError {A}.

Definition bind {A B} (m : result A) (k : A -> result B) : result B :=
  match m with
  | Ok a => k a
  | RangeError => RangeError
  end.

Fixpoint mapM {A B} (f : A -> result B) (l : list A) : result (list B) :=
  match l with
  | [] => Ok []
  | x :: t => bind (f x) (fun y => bind (mapM f t) (fun ys => Ok (y :: ys)))
  end.

(** [s.repeat(count)]: [RangeError] on a negative count.  An engine
    raises [RangeError] too when the result would be longer than its
    limit on strings; that limit is not part of this definition, which
    stands for [repeat] where the result is a string the engine can
    hold. *)
Definition str_repeat (s : jsstring) (count : Z) : result jsstring :=
  if count <? 0 then RangeError else Ok (copies s count).

(** [new Array(n).fill(x)]: [RangeError] on a negative length.  The
    engine raises it too from [2^32] on; this definition stands for
    [new Array] on the lengths below. *)
Definition array_fill {A} (n : Z) (x : A) : result (list A) :=
  if n <? 0 then RangeError else Ok (repeat x (Z.to_nat n)).

(** A length well inside the limits of every current engine: a string
    may have [2^28 - 16] code units or more ([2^29 - 24] in V8 on 64-bit
    platforms), an array [2^32 - 1] elements. *)
Definition safeLength : Z := 2 ^ 24.

(** A result the engine can hold: a string of at most [safeLength] code
    units, or the exception.  The strings and the arrays a function of
    the library builds on its way are parts of the string it returns, so
    where the result fits, no call of [repeat] or [new Array] on the
    way meets a limit of the engine; properties of sizes a caller
    chooses are stated for results that fit. *)
Definition fits (r : result jsstring) : Prop :=
  match r with
  | Ok s => Z.of_nat (length s) <= safeLength
  | RangeError => True
  end.

(** [Math.max(...xs)] over integers.  The library only calls it on the
    sizes of at least two blocks; the value for no argument stands for the
    [-Infinity] that is never met. *)
Definition max_list (xs : list Z) : Z :=
  match xs with
  | [] => 0
  | x :: t => fold_left Z.max t x
  end.

(** [xs.map((x, i) => f(x, i))] for a callback that may throw. *)
Definition mapMi {A B} (f : A -> nat -> result B) (l : list A)
  : result (list B) :=
  mapM (fun ix => f (snd ix) (fst ix)) (combine (seq 0 (length l)) l).

(** Numbers that are not integers only occur as alignment positions; they
    are kept as exact rationals. *)
Definition number := Q.
Definition num_le (a b : number) : bool := Qle_bool a b.
Definition num_eq (a b : number) : bool := Qeq_bool a b.

End JS.

Declare Scope js_scope.
Notation "x <- m ;; k" := (JS.bind m (fun x => k))
  (at level 61, m at next level, right associativity) : js_scope.

(* ===================================================================== *)
(** * [src/width.ts]                                                      *)
(* ===================================================================== *)

Module Width.
Import JS.

Definition ESC : Z := 0x1b.

(** Parser states. *)
Inductive State : Type :=
| Ground | Escape | CsiEntry | CsiParam | CsiIntermediate | OscString.

Definition isCsiParam (b : Z) : bool := (0x30 <=? b) && (b <=? 0x3f).
Definition isCsiIntermediate (b : Z) : bool := (0x20 <=? b) && (b <=? 0x2f).
Definition isCsiFinal (b : Z) : bool := (0x40 <=? b) && (b <=? 0x7e).

Definition between (lo hi cp : Z) : bool := (lo <=? cp) && (cp <=? hi).

(** Display width of a code point. *)
Definition codePointWidth (cp : Z) : Z :=
  if (cp <? 0x20) || ((0x7f <=? cp) && (cp <? 0xa0)) then 0
  else if (0x20 <=? cp) && (cp <=? 0x7e) then 1
  else if between 0x1100 0x115f cp
       || between 0x2e80 0x9fff cp
       || between 0xac00 0xd7a3 cp
       || between 0xf900 0xfaff cp
       || between 0xfe10 0xfe1f cp
       || between 0xfe30 0xfe6f cp
       || between 0xff00 0xff60 cp
       || between 0xffe0 0xffe6 cp
       || between 0x20000 0x2fffd cp
       || between 0x30000 0x3fffd cp then 2
  else if (cp =? 0x200d)
       || between 0xfe00 0xfe0f cp
       || between 0x1f3fb 0x1f3ff cp then 0
  else if between 0x1f300 0x1f9ff cp
       || between 0x1fa00 0x1faff cp
       || between 0x2600 0x26ff cp
       || between 0x2700 0x27bf cp then 2
  else 1.

(** The [while] loop of [stripAnsi]: [s] is what is left to read, [state]
    and [result] are the loop's variables; the value is the pair of them
    when the loop ends. *)
Fixpoint stripLoop (s : jsstring) (state : State) (result : jsstring)
  : State * jsstring :=
  match s with
  | [] => (state, result)
  | c :: rest =>
      match state with
      | Ground =>
          if c =? 0x1b then stripLoop rest Escape result
          else if c =? 0x9b then stripLoop rest CsiEntry result
          else if c =? 0x9d then stripLoop rest OscString result
          else stripLoop rest Ground (result ++ [c])
      | Escape =>
          if c =? 0x5b then stripLoop rest CsiEntry result
          else if c =? 0x5d then stripLoop rest OscString result
          else if (0x40 <=? c) && (c <=? 0x5f) then stripLoop rest Ground result
          else if (0x60 <=? c) && (c <=? 0x7e) then stripLoop rest Ground result
          else stripLoop rest Ground (result ++ [ESC; c])
      | CsiEntry =>
          if isCsiParam c then stripLoop rest CsiParam result
          else if isCsiIntermediate c then stripLoop rest CsiIntermediate result
          else if isCsiFinal c then stripLoop rest Ground result
          else stripLoop rest CsiEntry result
      | CsiParam =>
          if isCsiIntermediate c then stripLoop rest CsiIntermediate result
          else if isCsiFinal c then stripLoop rest Ground result
          else stripLoop rest CsiParam result
      | CsiIntermediate =>
          if isCsiFinal c then stripLoop rest Ground result
          else stripLoop rest CsiIntermediate result
      | OscString =>
          if (c =? 0x07) || (c =? 0x9c) then stripLoop rest Ground result
          else if c =? 0x1b then
            match rest with
            | c2 :: rest' =>
                if c2 =? 0x5c then stripLoop rest' Ground result
                else stripLoop rest OscString result
            | [] => stripLoop rest OscString result
            end
          else stripLoop rest OscString result
      end
  end.

(** Strip ANSI escape codes from a string. *)
Definition stripAnsi (s : jsstring) : jsstring :=
  if negb (includes ESC s) && negb (includes 0x9b s) then s
  else snd (stripLoop s Ground []).

(** Display width of a string, ignoring ANSI escape codes. *)
Definition stringWidth (s : jsstring) : Z :=
  match s with
  | [] => 0
  | _ =>
      fold_left
        (fun width char =>
           match codePointAt0 char with
           | Some cp => width + codePointWidth cp
           | None => width
           end)
        (chars (stripAnsi s)) 0
  end.

(** Maximum width of the lines of a string. *)
Definition maxLineWidth (s : jsstring) : Z :=
  fold_left (fun max line =>
               let w := stringWidth line in
               if w >? max then w else max)
            (split LF s) 0.

(** Height (number of lines) of a string. *)
Definition lineCount (s : jsstring) : Z :=
  match s with
  | [] => 0
  | _ => Z.of_nat (length (split LF s))
  end.

(** The [for] loop of [truncate]: [s] is what is left to read; [result],
    [currentWidth], [state] and [escapeBuffer] are the loop's variables.
    The value is [result] when the loop ends, by exhaustion or [break]. *)
Fixpoint truncLoop (targetWidth : Z) (s : jsstring) (state : State)
    (escapeBuffer result : jsstring) (currentWidth : Z) : jsstring :=
  match s with
  | [] => result
  | c :: rest =>
      match state with
      | Ground =>
          if c =? 0x1b then
            truncLoop targetWidth rest Escape [c] result currentWidth
          else if c =? 0x9b then
            truncLoop targetWidth rest CsiEntry [c] result currentWidth
          else
            let w := codePointWidth c in
            if currentWidth + w >? targetWidth then result
            else truncLoop targetWidth rest Ground escapeBuffer
                           (result ++ [c]) (currentWidth + w)
      | Escape =>
          let escapeBuffer := escapeBuffer ++ [c] in
          if c =? 0x5b then
            truncLoop targetWidth rest CsiEntry escapeBuffer result currentWidth
          else if c =? 0x5d then
            truncLoop targetWidth rest OscString escapeBuffer result currentWidth
          else
            truncLoop targetWidth rest Ground [] (result ++ escapeBuffer)
                      currentWidth
      | CsiEntry | CsiParam =>
          let escapeBuffer := escapeBuffer ++ [c] in
          if isCsiFinal c then
            truncLoop targetWidth rest Ground [] (result ++ escapeBuffer)
                      currentWidth
          else if isCsiParam c then
            truncLoop targetWidth rest CsiParam escapeBuffer result currentWidth
          else if isCsiIntermediate c then
            truncLoop targetWidth rest CsiIntermediate escapeBuffer result
                      currentWidth
          else
            truncLoop targetWidth rest state escapeBuffer result currentWidth
      | CsiIntermediate =>
          let escapeBuffer := escapeBuffer ++ [c] in
          if isCsiFinal c then
            truncLoop targetWidth rest Ground [] (result ++ escapeBuffer)
                      currentWidth
          else
            truncLoop targetWidth rest CsiIntermediate escapeBuffer result
                      currentWidth
      | OscString =>
          let escapeBuffer := escapeBuffer ++ [c] in
          if c =? 0x07 then
            truncLoop targetWidth rest Ground [] (result ++ escapeBuffer)
                      currentWidth
          else if c =? 0x1b then
            match rest with
            | c2 :: rest' =>
                if c2 =? 0x5c then
                  truncLoop targetWidth rest' Ground []
                            (result ++ (escapeBuffer ++ [c2])) currentWidth
                else
                  truncLoop targetWidth rest OscString escapeBuffer result
                            currentWidth
            | [] =>
                truncLoop targetWidth rest OscString escapeBuffer result
                          currentWidth
            end
          else
            truncLoop targetWidth rest OscString escapeBuffer result
                      currentWidth
      end
  end.

(** [tail.slice(0, n)] for a positive [n]. *)
Definition slice0 (s : jsstring) (n : Z) : jsstring := firstn (Z.to_nat n) s.

(** Truncate a string to a maximum display width. *)
Definition truncate (s : jsstring) (maxWidth : Z) (tail : jsstring)
  : jsstring :=
  if maxWidth <=? 0 then []
  else if stringWidth s <=? maxWidth then s
  else
    let tailWidth := stringWidth tail in
    let targetWidth := maxWidth - tailWidth in
    if targetWidth <=? 0 then slice0 tail maxWidth
    else truncLoop targetWidth s Ground [] [] 0 ++ tail.

(** Pad a string on the left to a minimum width.  The count handed to
    [repeat] is positive on the only path that reaches it. *)
Definition padLeft (s : jsstring) (width : Z) (char : jsstring) : jsstring :=
  let currentWidth := stringWidth s in
  if currentWidth >=? width then s
  else copies char (width - currentWidth) ++ s.

(** Pad a string on the right to a minimum width. *)
Definition padRight (s : jsstring) (width : Z) (char : jsstring) : jsstring :=
  let currentWidth := stringWidth s in
  if currentWidth >=? width then s
  else s ++ copies char (width - currentWidth).

(** Center a string within a given width. *)
Definition center (s : jsstring) (width : Z) (char : jsstring) : jsstring :=
  let currentWidth := stringWidth s in
  if currentWidth >=? width then s
  else
    let total := width - currentWidth in
    let left := total / 2 in
    let right := total - left in
    copies char left ++ s ++ copies char right.

End Width.


(* ===================================================================== *)
(** * [src/layout.ts]                                                     *)
(* ===================================================================== *)

Module Layout.
Import JS Width.
#[local] Open Scope js_scope.

(** The callback that aligns one block of [joinHorizontal] vertically:
    [lines] is the block, [i] its index. *)
Definition alignBlock (position : number) (maxHeight : Z) (widths : list Z)
    (lines : list jsstring) (i : nat) : result (list jsstring) :=
  let height := Z.of_nat (length lines) in
  let width := nth i widths 0 in
  if height =? maxHeight then Ok lines
  else
    let diff := maxHeight - height in
    emptyLine <- str_repeat SPACE width ;;
    if num_le position 0%Q then
      (* Top aligned *)
      below <- array_fill diff emptyLine ;;
      Ok (lines ++ below)
    else if num_le 1%Q position then
      (* Bottom aligned *)
      above <- array_fill diff emptyLine ;;
      Ok (above ++ lines)
    else
      (* Center aligned *)
      let top := diff / 2 in
      let bottom := diff - top in
      above <- array_fill top emptyLine ;;
      below <- array_fill bottom emptyLine ;;
      Ok (above ++ lines ++ below).

(** The callback that pads each line of a block to the block's width. *)
Definition padBlock (widths : list Z) (lines : list jsstring) (i : nat)
  : result (list jsstring) :=
  Ok (map (fun line => padRight line (nth i widths 0) SPACE) lines).

(** One output row: the [row]-th line of every block, concatenated; a
    missing line reads as [undefined], which [join] prints as the empty
    string. *)
Definition joinRow (paddedLines : list (list jsstring)) (row : nat)
  : jsstring :=
  concat (map (fun lines => nth row lines []) paddedLines).

(** Join multiple strings horizontally. *)
Definition joinHorizontal (position : number) (strs : list jsstring)
  : result jsstring :=
  match strs with
  | [] => Ok []
  | [s] => Ok s
  | _ =>
      (* Split each string into lines *)
      let allLines := map (split LF) strs in
      (* Find the maximum height *)
      let maxHeight :=
        max_list (map (fun lines => Z.of_nat (length lines)) allLines) in
      (* Find the width of each block *)
      let widths := map (fun lines => maxLineWidth (join NL lines)) allLines in
      (* Align each block vertically based on position *)
      alignedLines <- mapMi (alignBlock position maxHeight widths) allLines ;;
      (* Pad each line to its block width *)
      paddedLines <- mapMi (padBlock widths) alignedLines ;;
      (* Join horizontally *)
      let result := map (joinRow paddedLines) (seq 0 (Z.to_nat maxHeight)) in
      Ok (join NL result)
  end.

(** The callback that aligns one line of [joinVertical] horizontally. *)
Definition alignLine (position : number) (maxWidth : Z) (line : jsstring)
  : result jsstring :=
  let width := stringWidth line in
  if width =? maxWidth then Ok line
  else
    let diff := maxWidth - width in
    if num_le position 0%Q then
      (* Left aligned *)
      Ok (padRight line maxWidth SPACE)
    else if num_le 1%Q position then
      (* Right aligned *)
      sp <- str_repeat SPACE diff ;;
      Ok (sp ++ line)
    else
      (* Center aligned *)
      let left := diff / 2 in
      let right := diff - left in
      l <- str_repeat SPACE left ;;
      r <- str_repeat SPACE right ;;
      Ok (l ++ line ++ r).

(** The callback that aligns one block of [joinVertical]. *)
Definition alignLines (position : number) (maxWidth : Z) (s : jsstring)
  : result jsstring :=
  let lines := split LF s in
  ls <- mapM (alignLine position maxWidth) lines ;;
  Ok (join NL ls).

(** Join multiple strings vertically. *)
Definition joinVertical (position : number) (strs : list jsstring)
  : result jsstring :=
  match strs with
  | [] => Ok []
  | [s] => Ok s
  | _ =>
      (* Find the maximum width *)
      let maxWidth := max_list (map maxLineWidth strs) in
      (* Align each string horizontally based on position *)
      aligned <- mapM (alignLines position maxWidth) strs ;;
      Ok (join NL aligned)
  end.

(** [Math.floor(n * pos)] for an integer [n].  The product is taken
    exactly; the double-precision product of the source can differ from
    it by one rounding, on which nothing below depends. *)
Definition floor_scaled (n : Z) (pos : number) : Z :=
  Qfloor (inject_Z n * pos).

(** The start offset [place] derives from a position. *)
Definition startOffset (pos : number) (outer inner : Z) : Z :=
  if num_le pos 0%Q then 0
  else if num_le 1%Q pos then outer - inner
  else floor_scaled (outer - inner) pos.

(** The body of the row loop of [place]: the row pushed for [y]. *)
Definition placeRow (width : Z) (contentLines : list jsstring)
    (contentWidth contentHeight startX startY : Z) (background : jsstring)
    (y : Z) : result jsstring :=
  if (y >=? startY) && (y <? startY + contentHeight) then
    let contentLine := nth (Z.to_nat (y - startY)) contentLines [] in
    let padded := padRight contentLine contentWidth SPACE in
    left <- str_repeat background startX ;;
    right <- str_repeat background (Z.max 0 (width - startX - contentWidth)) ;;
    Ok (left ++ padded ++ right)
  else str_repeat background width.

(** Place one string on top of another at specified position: the rows
    pushed by the loop, before the final [join]. *)
Definition placeRows (width height : Z) (hPos vPos : number)
    (content background : jsstring) : result (list jsstring) :=
  let contentLines := split LF content in
  let contentWidth := maxLineWidth content in
  let contentHeight := Z.of_nat (length contentLines) in
  (* Calculate starting position *)
  let startX := startOffset hPos width contentWidth in
  let startY := startOffset vPos height contentHeight in
  (* Build result *)
  mapM (placeRow width contentLines contentWidth contentHeight startX startY
                 background)
       (map Z.of_nat (seq 0 (Z.to_nat height))).

Definition place (width height : Z) (hPos vPos : number)
    (content background : jsstring) : result jsstring :=
  result <- placeRows width height hPos vPos content background ;;
  Ok (join NL result).

(** Width and height of a string. *)
Definition getSize (s : jsstring) : Z * Z :=
  let lines := split LF s in
  (maxLineWidth s, Z.of_nat (length lines)).

Definition getWidth (s : jsstring) : Z := maxLineWidth s.

Definition getHeight (s : jsstring) : Z := Z.of_nat (length (split LF s)).

End Layout.


(* ===================================================================== *)
(** * [src/border.ts]                                                     *)
(* ===================================================================== *)

Module Border.
Import JS.

(** Border character set. *)
Record BorderChars : Type := mkBorder {
  top : jsstring;
  bottom : jsstring;
  left : jsstring;
  right : jsstring;
  topLeft : jsstring;
  topRight : jsstring;
  bottomLeft : jsstring;
  bottomRight : jsstring
}.

Definition NoBorder : BorderChars := mkBorder [] [] [] [] [] [] [] [].

Definition NormalBorder : BorderChars :=
  mkBorder [0x2500] [0x2500] [0x2502] [0x2502]
           [0x250C] [0x2510] [0x2514] [0x2518].

Definition RoundedBorder : BorderChars :=
  mkBorder [0x2500] [0x2500] [0x2502] [0x2502]
           [0x256D] [0x256E] [0x2570] [0x256F].

Definition ThickBorder : BorderChars :=
  mkBorder [0x2501] [0x2501] [0x2503] [0x2503]
           [0x250F] [0x2513] [0x2517] [0x251B].

Definition DoubleBorder : BorderChars :=
  mkBorder [0x2550] [0x2550] [0x2551] [0x2551]
           [0x2554] [0x2557] [0x255A] [0x255D].

Definition HiddenBorder : BorderChars :=
  mkBorder SPACE SPACE SPACE SPACE SPACE SPACE SPACE SPACE.

Definition AsciiBorder : BorderChars :=
  mkBorder (lit "-") (lit "-") (lit "|") (lit "|")
           (lit "+") (lit "+") (lit "+") (lit "+").

Definition StarBorder : BorderChars :=
  mkBorder (lit "*") (lit "*") (lit "*") (lit "*")
           (lit "*") (lit "*") (lit "*") (lit "*").

(** [Partial<BorderChars>]: any of the eight glyphs may be missing. *)
Module Partial.
Record BorderChars : Type := mkBorder {
  top : option jsstring;
  bottom : option jsstring;
  left : option jsstring;
  right : option jsstring;
  topLeft : option jsstring;
  topRight : option jsstring;
  bottomLeft : option jsstring;
  bottomRight : option jsstring
}.
End Partial.

(** The spread [{ ...base, ...chars }] on one field. *)
Definition orElse (given : option jsstring) (base : jsstring) : jsstring :=
  match given with
  | Some v => v
  | None => base
  end.

(** Create a custom border. *)
Definition customBorder (chars : Partial.BorderChars) : BorderChars :=
  {| top := orElse (Partial.top chars) (top NormalBorder);
     bottom := orElse (Partial.bottom chars) (bottom NormalBorder);
     left := orElse (Partial.left chars) (left NormalBorder);
     right := orElse (Partial.right chars) (right NormalBorder);
     topLeft := orElse (Partial.topLeft chars) (topLeft NormalBorder);
     topRight := orElse (Partial.topRight chars) (topRight NormalBorder);
     bottomLeft := orElse (Partial.bottomLeft chars) (bottomLeft NormalBorder);
     bottomRight :=
       orElse (Partial.bottomRight chars) (bottomRight NormalBorder) |}.

End Border.

(* ===================================================================== *)
(** * [src/style.ts]                                                      *)
(* ===================================================================== *)

(** The option record of a style, with one functional update per field
    (the object spread [{ ...options, field: v }]). *)
Module Options.
Import JS.
Import Border.

(** Color type - hex string, ANSI code, or RGB. *)
Inductive StyleColor : Type :=
| ColorHex (hex : jsstring)
| ColorCode (code : Z)
| ColorRGB (r g b : Z).

Record StyleOptions : Type := mkOptions {
  bold : bool;
  italic : bool;
  underline : bool;
  strikethrough : bool;
  blink : bool;
  faint : bool;
  reverse : bool;
  foreground : option StyleColor;
  background : option StyleColor;
  width : Z;
  height : Z;
  maxWidth : Z;
  maxHeight : Z;
  alignHorizontal : number;
  alignVertical : number;
  paddingTop : Z;
  paddingRight : Z;
  paddingBottom : Z;
  paddingLeft : Z;
  marginTop : Z;
  marginRight : Z;
  marginBottom : Z;
  marginLeft : Z;
  marginBackground : option StyleColor;
  border : BorderChars;
  borderTop : bool;
  borderRight : bool;
  borderBottom : bool;
  borderLeft : bool;
  borderForeground : option StyleColor;
  borderBackground : option StyleColor;
  inline : bool;
  colorWhitespace : bool;
  tabWidth : Z;
  transform : option (jsstring -> jsstring)
}.

Definition with_bold (v : bool) (o : StyleOptions) : StyleOptions :=
  {|
    bold := v; italic := italic o; underline := underline o;
    strikethrough := strikethrough o; blink := blink o; faint := faint o;
    reverse := reverse o; foreground := foreground o;
    background := background o; width := width o; height := height o;
    maxWidth := maxWidth o; maxHeight := maxHeight o;
    alignHorizontal := alignHorizontal o; alignVertical := alignVertical o;
    paddingTop := paddingTop o; paddingRight := paddingRight o;
    paddingBottom := paddingBottom o; paddingLeft := paddingLeft o;
    marginTop := marginTop o; marginRight := marginRight o;
    marginBottom := marginBottom o; marginLeft := marginLeft o;
    marginBackground := marginBackground o; border := border o;
    borderTop := borderTop o; borderRight := borderRight o;
    borderBottom := borderBottom o; borderLeft := borderLeft o;
    borderForeground := borderForeground o;
    borderBackground := borderBackground o; inline := inline o;
    colorWhitespace := colorWhitespace o; tabWidth := tabWidth o;
    transform := transform o
  |}.

Definition with_italic (v : bool) (o : StyleOptions) : StyleOptions :=
  {|
    bold := bold o; italic := v; underline := underline o;
    strikethrough := strikethrough o; blink := blink o; faint := faint o;
    reverse := reverse o; foreground := foreground o;
    background := background o; width := width o; height := height o;
    maxWidth := maxWidth o; maxHeight := maxHeight o;
    alignHorizontal := alignHorizontal o; alignVertical := alignVertical o;
    paddingTop := paddingTop o; paddingRight := paddingRight o;
    paddingBottom := paddingBottom o; paddingLeft := paddingLeft o;
    marginTop := marginTop o; marginRight := marginRight o;
    marginBottom := marginBottom o; marginLeft := marginLeft o;
    marginBackground := marginBackground o; border := border o;
    borderTop := borderTop o; borderRight := borderRight o;
    borderBottom := borderBottom o; borderLeft := borderLeft o;
    borderForeground := borderForeground o;
    borderBackground := borderBackground o; inline := inline o;
    colorWhitespace := colorWhitespace o; tabWidth := tabWidth o;
    transform := transform o
  |}.

Definition with_underline (v : bool) (o : StyleOptions) : StyleOptions :=
  {|
    bold := bold o; italic := italic o; underline := v;
    strikethrough := strikethrough o; blink := blink o; faint := faint o;
    reverse := reverse o; foreground := foreground o;
    background := background o; width := width o; height := height o;
    maxWidth := maxWidth o; maxHeight := maxHeight o;
    alignHorizontal := alignHorizontal o; alignVertical := alignVertical o;
    paddingTop := paddingTop o; paddingRight := paddingRight o;
    paddingBottom := paddingBottom o; paddingLeft := paddingLeft o;
    marginTop := marginTop o; marginRight := marginRight o;
    marginBottom := marginBottom o; marginLeft := marginLeft o;
    marginBackground := marginBackground o; border := border o;
    borderTop := borderTop o; borderRight := borderRight o;
    borderBottom := borderBottom o; borderLeft := borderLeft o;
    borderForeground := borderForeground o;
    borderBackground := borderBackground o; inline := inline o;
    colorWhitespace := colorWhitespace o; tabWidth := tabWidth o;
    transform := transform o
  |}.

Definition with_strikethrough (v : bool) (o : StyleOptions) : StyleOptions :=
  {|
    bold := bold o; italic := italic o; underline := underline o;
    strikethrough := v; blink := blink o; faint := faint o;
    reverse := reverse o; foreground := foreground o;
    background := background o; width := width o; height := height o;
    maxWidth := maxWidth o; maxHeight := maxHeight o;
    alignHorizontal := alignHorizontal o; alignVertical := alignVertical o;
    paddingTop := paddingTop o; paddingRight := paddingRight o;
    paddingBottom := paddingBottom o; paddingLeft := paddingLeft o;
    marginTop := marginTop o; marginRight := marginRight o;
    marginBottom := marginBottom o; marginLeft := marginLeft o;
    marginBackground := marginBackground o; border := border o;
    borderTop := borderTop o; borderRight := borderRight o;
    borderBottom := borderBottom o; borderLeft := borderLeft o;
    borderForeground := borderForeground o;
    borderBackground := borderBackground o; inline := inline o;
    colorWhitespace := colorWhitespace o; tabWidth := tabWidth o;
    transform := transform o
  |}.

Definition with_blink (v : bool) (o : StyleOptions) : StyleOptions :=
  {|
    bold := bold o; italic := italic o; underline := underline o;
    strikethrough := strikethrough o; blink := v; faint := faint o;
    reverse := reverse o; foreground := foreground o;
    background := background o; width := width o; height := height o;
    maxWidth := maxWidth o; maxHeight := maxHeight o;
    alignHorizontal := alignHorizontal o; alignVertical := alignVertical o;
    paddingTop := paddingTop o; paddingRight := paddingRight o;
    paddingBottom := paddingBottom o; paddingLeft := paddingLeft o;
    marginTop := marginTop o; marginRight := marginRight o;
    marginBottom := marginBottom o; marginLeft := marginLeft o;
    marginBackground := marginBackground o; border := border o;
    borderTop := borderTop o; borderRight := borderRight o;
    borderBottom := borderBottom o; borderLeft := borderLeft o;
    borderForeground := borderForeground o;
    borderBackground := borderBackground o; inline := inline o;
    colorWhitespace := colorWhitespace o; tabWidth := tabWidth o;
    transform := transform o
  |}.

Definition with_faint (v : bool) (o : StyleOptions) : StyleOptions :=
  {|
    bold := bold o; italic := italic o; underline := underline o;
    strikethrough := strikethrough o; blink := blink o; faint := v;
    reverse := reverse o; foreground := foreground o;
    background := background o; width := width o; height := height o;
    maxWidth := maxWidth o; maxHeight := maxHeight o;
    alignHorizontal := alignHorizontal o; alignVertical := alignVertical o;
    paddingTop := paddingTop o; paddingRight := paddingRight o;
    paddingBottom := paddingBottom o; paddingLeft := paddingLeft o;
    marginTop := marginTop o; marginRight := marginRight o;
    marginBottom := marginBottom o; marginLeft := marginLeft o;
    marginBackground := marginBackground o; border := border o;
    borderTop := borderTop o; borderRight := borderRight o;
    borderBottom := borderBottom o; borderLeft := borderLeft o;
    borderForeground := borderForeground o;
    borderBackground := borderBackground o; inline := inline o;
    colorWhitespace := colorWhitespace o; tabWidth := tabWidth o;
    transform := transform o
  |}.

Definition with_reverse (v : bool) (o : StyleOptions) : StyleOptions :=
  {|
    bold := bold o; italic := italic o; underline := underline o;
    strikethrough := strikethrough o; blink := blink o; faint := faint o;
    reverse := v; foreground := foreground o; background := background o;
    width := width o; height := height o; maxWidth := maxWidth o;
    maxHeight := maxHeight o; alignHorizontal := alignHorizontal o;
    alignVertical := alignVertical o; paddingTop := paddingTop o;
    paddingRight := paddingRight o; paddingBottom := paddingBottom o;
    paddingLeft := paddingLeft o; marginTop := marginTop o;
    marginRight := marginRight o; marginBottom := marginBottom o;
    marginLeft := marginLeft o; marginBackground := marginBackground o;
    border := border o; borderTop := borderTop o;
    borderRight := borderRight o; borderBottom := borderBottom o;
    borderLeft := borderLeft o; borderForeground := borderForeground o;
    borderBackground := borderBackground o; inline := inline o;
    colorWhitespace := colorWhitespace o; tabWidth := tabWidth o;
    transform := transform o
  |}.

Definition with_foreground (v : option StyleColor) (o : StyleOptions) : StyleOptions :=
  {|
    bold := bold o; italic := italic o; underline := underline o;
    strikethrough := strikethrough o; blink := blink o; faint := faint o;
    reverse := reverse o; foreground := v; background := background o;
    width := width o; height := height o; maxWidth := maxWidth o;
    maxHeight := maxHeight o; alignHorizontal := alignHorizontal o;
    alignVertical := alignVertical o; paddingTop := paddingTop o;
    paddingRight := paddingRight o; paddingBottom := paddingBottom o;
    paddingLeft := paddingLeft o; marginTop := marginTop o;
    marginRight := marginRight o; marginBottom := marginBottom o;
    marginLeft := marginLeft o; marginBackground := marginBackground o;
    border := border o; borderTop := borderTop o;
    borderRight := borderRight o; borderBottom := borderBottom o;
    borderLeft := borderLeft o; borderForeground := borderForeground o;
    borderBackground := borderBackground o; inline := inline o;
    colorWhitespace := colorWhitespace o; tabWidth := tabWidth o;
    transform := transform o
  |}.

Definition with_background (v : option StyleColor) (o : StyleOptions) : StyleOptions :=
  {|
    bold := bold o; italic := italic o; underline := underline o;
    strikethrough := strikethrough o; blink := blink o; faint := faint o;
    reverse := reverse o; foreground := foreground o; background := v;
    width := width o; height := height o; maxWidth := maxWidth o;
    maxHeight := maxHeight o; alignHorizontal := alignHorizontal o;
    alignVertical := alignVertical o; paddingTop := paddingTop o;
    paddingRight := paddingRight o; paddingBottom := paddingBottom o;
    paddingLeft := paddingLeft o; marginTop := marginTop o;
    marginRight := marginRight o; marginBottom := marginBottom o;
    marginLeft := marginLeft o; marginBackground := marginBackground o;
    border := border o; borderTop := borderTop o;
    borderRight := borderRight o; borderBottom := borderBottom o;
    borderLeft := borderLeft o; borderForeground := borderForeground o;
    borderBackground := borderBackground o; inline := inline o;
    colorWhitespace := colorWhitespace o; tabWidth := tabWidth o;
    transform := transform o
  |}.

Definition with_width (v : Z) (o : StyleOptions) : StyleOptions :=
  {|
    bold := bold o; italic := italic o; underline := underline o;
    strikethrough := strikethrough o; blink := blink o; faint := faint o;
    reverse := reverse o; foreground := foreground o;
    background := background o; width := v; height := height o;
    maxWidth := maxWidth o; maxHeight := maxHeight o;
    alignHorizontal := alignHorizontal o; alignVertical := alignVertical o;
    paddingTop := paddingTop o; paddingRight := paddingRight o;
    paddingBottom := paddingBottom o; paddingLeft := paddingLeft o;
    marginTop := marginTop o; marginRight := marginRight o;
    marginBottom := marginBottom o; marginLeft := marginLeft o;
    marginBackground := marginBackground o; border := border o;
    borderTop := borderTop o; borderRight := borderRight o;
    borderBottom := borderBottom o; borderLeft := borderLeft o;
    borderForeground := borderForeground o;
    borderBackground := borderBackground o; inline := inline o;
    colorWhitespace := colorWhitespace o; tabWidth := tabWidth o;
    transform := transform o
  |}.

Definition with_height (v : Z) (o : StyleOptions) : StyleOptions :=
  {|
    bold := bold o; italic := italic o; underline := underline o;
    strikethrough := strikethrough o; blink := blink o; faint := faint o;
    reverse := reverse o; foreground := foreground o;
    background := background o; width := width o; height := v;
    maxWidth := maxWidth o; maxHeight := maxHeight o;
    alignHorizontal := alignHorizontal o; alignVertical := alignVertical o;
    paddingTop := paddingTop o; paddingRight := paddingRight o;
    paddingBottom := paddingBottom o; paddingLeft := paddingLeft o;
    marginTop := marginTop o; marginRight := marginRight o;
    marginBottom := marginBottom o; marginLeft := marginLeft o;
    marginBackground := marginBackground o; border := border o;
    borderTop := borderTop o; borderRight := borderRight o;
    borderBottom := borderBottom o; borderLeft := borderLeft o;
    borderForeground := borderForeground o;
    borderBackground := borderBackground o; inline := inline o;
    colorWhitespace := colorWhitespace o; tabWidth := tabWidth o;
    transform := transform o
  |}.

Definition with_maxWidth (v : Z) (o : StyleOptions) : StyleOptions :=
  {|
    bold := bold o; italic := italic o; underline := underline o;
    strikethrough := strikethrough o; blink := blink o; faint := faint o;
    reverse := reverse o; foreground := foreground o;
    background := background o; width := width o; height := height o;
    maxWidth := v; maxHeight := maxHeight o;
    alignHorizontal := alignHorizontal o; alignVertical := alignVertical o;
    paddingTop := paddingTop o; paddingRight := paddingRight o;
    paddingBottom := paddingBottom o; paddingLeft := paddingLeft o;
    marginTop := marginTop o; marginRight := marginRight o;
    marginBottom := marginBottom o; marginLeft := marginLeft o;
    marginBackground := marginBackground o; border := border o;
    borderTop := borderTop o; borderRight := borderRight o;
    borderBottom := borderBottom o; borderLeft := borderLeft o;
    borderForeground := borderForeground o;
    borderBackground := borderBackground o; inline := inline o;
    colorWhitespace := colorWhitespace o; tabWidth := tabWidth o;
    transform := transform o
  |}.

Definition with_maxHeight (v : Z) (o : StyleOptions) : StyleOptions :=
  {|
    bold := bold o; italic := italic o; underline := underline o;
    strikethrough := strikethrough o; blink := blink o; faint := faint o;
    reverse := reverse o; foreground := foreground o;
    background := background o; width := width o; height := height o;
    maxWidth := maxWidth o; maxHeight := v;
    alignHorizontal := alignHorizontal o; alignVertical := alignVertical o;
    paddingTop := paddingTop o; paddingRight := paddingRight o;
    paddingBottom := paddingBottom o; paddingLeft := paddingLeft o;
    marginTop := marginTop o; marginRight := marginRight o;
    marginBottom := marginBottom o; marginLeft := marginLeft o;
    marginBackground := marginBackground o; border := border o;
    borderTop := borderTop o; borderRight := borderRight o;
    borderBottom := borderBottom o; borderLeft := borderLeft o;
    borderForeground := borderForeground o;
    borderBackground := borderBackground o; inline := inline o;
    colorWhitespace := colorWhitespace o; tabWidth := tabWidth o;
    transform := transform o
  |}.

Definition with_alignHorizontal (v : number) (o : StyleOptions) : StyleOptions :=
  {|
    bold := bold o; italic := italic o; underline := underline o;
    strikethrough := strikethrough o; blink := blink o; faint := faint o;
    reverse := reverse o; foreground := foreground o;
    background := background o; width := width o; height := height o;
    maxWidth := maxWidth o; maxHeight := maxHeight o; alignHorizontal := v;
    alignVertical := alignVertical o; paddingTop := paddingTop o;
    paddingRight := paddingRight o; paddingBottom := paddingBottom o;
    paddingLeft := paddingLeft o; marginTop := marginTop o;
    marginRight := marginRight o; marginBottom := marginBottom o;
    marginLeft := marginLeft o; marginBackground := marginBackground o;
    border := border o; borderTop := borderTop o;
    borderRight := borderRight o; borderBottom := borderBottom o;
    borderLeft := borderLeft o; borderForeground := borderForeground o;
    borderBackground := borderBackground o; inline := inline o;
    colorWhitespace := colorWhitespace o; tabWidth := tabWidth o;
    transform := transform o
  |}.

Definition with_alignVertical (v : number) (o : StyleOptions) : StyleOptions :=
  {|
    bold := bold o; italic := italic o; underline := underline o;
    strikethrough := strikethrough o; blink := blink o; faint := faint o;
    reverse := reverse o; foreground := foreground o;
    background := background o; width := width o; height := height o;
    maxWidth := maxWidth o; maxHeight := maxHeight o;
    alignHorizontal := alignHorizontal o; alignVertical := v;
    paddingTop := paddingTop o; paddingRight := paddingRight o;
    paddingBottom := paddingBottom o; paddingLeft := paddingLeft o;
    marginTop := marginTop o; marginRight := marginRight o;
    marginBottom := marginBottom o; marginLeft := marginLeft o;
    marginBackground := marginBackground o; border := border o;
    borderTop := borderTop o; borderRight := borderRight o;
    borderBottom := borderBottom o; borderLeft := borderLeft o;
    borderForeground := borderForeground o;
    borderBackground := borderBackground o; inline := inline o;
    colorWhitespace := colorWhitespace o; tabWidth := tabWidth o;
    transform := transform o
  |}.

Definition with_paddingTop (v : Z) (o : StyleOptions) : StyleOptions :=
  {|
    bold := bold o; italic := italic o; underline := underline o;
    strikethrough := strikethrough o; blink := blink o; faint := faint o;
    reverse := reverse o; foreground := foreground o;
    background := background o; width := width o; height := height o;
    maxWidth := maxWidth o; maxHeight := maxHeight o;
    alignHorizontal := alignHorizontal o; alignVertical := alignVertical o;
    paddingTop := v; paddingRight := paddingRight o;
    paddingBottom := paddingBottom o; paddingLeft := paddingLeft o;
    marginTop := marginTop o; marginRight := marginRight o;
    marginBottom := marginBottom o; marginLeft := marginLeft o;
    marginBackground := marginBackground o; border := border o;
    borderTop := borderTop o; borderRight := borderRight o;
    borderBottom := borderBottom o; borderLeft := borderLeft o;
    borderForeground := borderForeground o;
    borderBackground := borderBackground o; inline := inline o;
    colorWhitespace := colorWhitespace o; tabWidth := tabWidth o;
    transform := transform o
  |}.

Definition with_paddingRight (v : Z) (o : StyleOptions) : StyleOptions :=
  {|
    bold := bold o; italic := italic o; underline := underline o;
    strikethrough := strikethrough o; blink := blink o; faint := faint o;
    reverse := reverse o; foreground := foreground o;
    background := background o; width := width o; height := height o;
    maxWidth := maxWidth o; maxHeight := maxHeight o;
    alignHorizontal := alignHorizontal o; alignVertical := alignVertical o;
    paddingTop := paddingTop o; paddingRight := v;
    paddingBottom := paddingBottom o; paddingLeft := paddingLeft o;
    marginTop := marginTop o; marginRight := marginRight o;
    marginBottom := marginBottom o; marginLeft := marginLeft o;
    marginBackground := marginBackground o; border := border o;
    borderTop := borderTop o; borderRight := borderRight o;
    borderBottom := borderBottom o; borderLeft := borderLeft o;
    borderForeground := borderForeground o;
    borderBackground := borderBackground o; inline := inline o;
    colorWhitespace := colorWhitespace o; tabWidth := tabWidth o;
    transform := transform o
  |}.

Definition with_paddingBottom (v : Z) (o : StyleOptions) : StyleOptions :=
  {|
    bold := bold o; italic := italic o; underline := underline o;
    strikethrough := strikethrough o; blink := blink o; faint := faint o;
    reverse := reverse o; foreground := foreground o;
    background := background o; width := width o; height := height o;
    maxWidth := maxWidth o; maxHeight := maxHeight o;
    alignHorizontal := alignHorizontal o; alignVertical := alignVertical o;
    paddingTop := paddingTop o; paddingRight := paddingRight o;
    paddingBottom := v; paddingLeft := paddingLeft o;
    marginTop := marginTop o; marginRight := marginRight o;
    marginBottom := marginBottom o; marginLeft := marginLeft o;
    marginBackground := marginBackground o; border := border o;
    borderTop := borderTop o; borderRight := borderRight o;
    borderBottom := borderBottom o; borderLeft := borderLeft o;
    borderForeground := borderForeground o;
    borderBackground := borderBackground o; inline := inline o;
    colorWhitespace := colorWhitespace o; tabWidth := tabWidth o;
    transform := transform o
  |}.

Definition with_paddingLeft (v : Z) (o : StyleOptions) : StyleOptions :=
  {|
    bold := bold o; italic := italic o; underline := underline o;
    strikethrough := strikethrough o; blink := blink o; faint := faint o;
    reverse := reverse o; foreground := foreground o;
    background := background o; width := width o; height := height o;
    maxWidth := maxWidth o; maxHeight := maxHeight o;
    alignHorizontal := alignHorizontal o; alignVertical := alignVertical o;
    paddingTop := paddingTop o; paddingRight := paddingRight o;
    paddingBottom := paddingBottom o; paddingLeft := v;
    marginTop := marginTop o; marginRight := marginRight o;
    marginBottom := marginBottom o; marginLeft := marginLeft o;
    marginBackground := marginBackground o; border := border o;
    borderTop := borderTop o; borderRight := borderRight o;
    borderBottom := borderBottom o; borderLeft := borderLeft o;
    borderForeground := borderForeground o;
    borderBackground := borderBackground o; inline := inline o;
    colorWhitespace := colorWhitespace o; tabWidth := tabWidth o;
    transform := transform o
  |}.

Definition with_marginTop (v : Z) (o : StyleOptions) : StyleOptions :=
  {|
    bold := bold o; italic := italic o; underline := underline o;
    strikethrough := strikethrough o; blink := blink o; faint := faint o;
    reverse := reverse o; foreground := foreground o;
    background := background o; width := width o; height := height o;
    maxWidth := maxWidth o; maxHeight := maxHeight o;
    alignHorizontal := alignHorizontal o; alignVertical := alignVertical o;
    paddingTop := paddingTop o; paddingRight := paddingRight o;
    paddingBottom := paddingBottom o; paddingLeft := paddingLeft o;
    marginTop := v; marginRight := marginRight o;
    marginBottom := marginBottom o; marginLeft := marginLeft o;
    marginBackground := marginBackground o; border := border o;
    borderTop := borderTop o; borderRight := borderRight o;
    borderBottom := borderBottom o; borderLeft := borderLeft o;
    borderForeground := borderForeground o;
    borderBackground := borderBackground o; inline := inline o;
    colorWhitespace := colorWhitespace o; tabWidth := tabWidth o;
    transform := transform o
  |}.

Definition with_marginRight (v : Z) (o : StyleOptions) : StyleOptions :=
  {|
    bold := bold o; italic := italic o; underline := underline o;
    strikethrough := strikethrough o; blink := blink o; faint := faint o;
    reverse := reverse o; foreground := foreground o;
    background := background o; width := width o; height := height o;
    maxWidth := maxWidth o; maxHeight := maxHeight o;
    alignHorizontal := alignHorizontal o; alignVertical := alignVertical o;
    paddingTop := paddingTop o; paddingRight := paddingRight o;
    paddingBottom := paddingBottom o; paddingLeft := paddingLeft o;
    marginTop := marginTop o; marginRight := v;
    marginBottom := marginBottom o; marginLeft := marginLeft o;
    marginBackground := marginBackground o; border := border o;
    borderTop := borderTop o; borderRight := borderRight o;
    borderBottom := borderBottom o; borderLeft := borderLeft o;
    borderForeground := borderForeground o;
    borderBackground := borderBackground o; inline := inline o;
    colorWhitespace := colorWhitespace o; tabWidth := tabWidth o;
    transform := transform o
  |}.

Definition with_marginBottom (v : Z) (o : StyleOptions) : StyleOptions :=
  {|
    bold := bold o; italic := italic o; underline := underline o;
    strikethrough := strikethrough o; blink := blink o; faint := faint o;
    reverse := reverse o; foreground := foreground o;
    background := background o; width := width o; height := height o;
    maxWidth := maxWidth o; maxHeight := maxHeight o;
    alignHorizontal := alignHorizontal o; alignVertical := alignVertical o;
    paddingTop := paddingTop o; paddingRight := paddingRight o;
    paddingBottom := paddingBottom o; paddingLeft := paddingLeft o;
    marginTop := marginTop o; marginRight := marginRight o;
    marginBottom := v; marginLeft := marginLeft o;
    marginBackground := marginBackground o; border := border o;
    borderTop := borderTop o; borderRight := borderRight o;
    borderBottom := borderBottom o; borderLeft := borderLeft o;
    borderForeground := borderForeground o;
    borderBackground := borderBackground o; inline := inline o;
    colorWhitespace := colorWhitespace o; tabWidth := tabWidth o;
    transform := transform o
  |}.

Definition with_marginLeft (v : Z) (o : StyleOptions) : StyleOptions :=
  {|
    bold := bold o; italic := italic o; underline := underline o;
    strikethrough := strikethrough o; blink := blink o; faint := faint o;
    reverse := reverse o; foreground := foreground o;
    background := background o; width := width o; height := height o;
    maxWidth := maxWidth o; maxHeight := maxHeight o;
    alignHorizontal := alignHorizontal o; alignVertical := alignVertical o;
    paddingTop := paddingTop o; paddingRight := paddingRight o;
    paddingBottom := paddingBottom o; paddingLeft := paddingLeft o;
    marginTop := marginTop o; marginRight := marginRight o;
    marginBottom := marginBottom o; marginLeft := v;
    marginBackground := marginBackground o; border := border o;
    borderTop := borderTop o; borderRight := borderRight o;
    borderBottom := borderBottom o; borderLeft := borderLeft o;
    borderForeground := borderForeground o;
    borderBackground := borderBackground o; inline := inline o;
    colorWhitespace := colorWhitespace o; tabWidth := tabWidth o;
    transform := transform o
  |}.

Definition with_marginBackground (v : option StyleColor) (o : StyleOptions) : StyleOptions :=
  {|
    bold := bold o; italic := italic o; underline := underline o;
    strikethrough := strikethrough o; blink := blink o; faint := faint o;
    reverse := reverse o; foreground := foreground o;
    background := background o; width := width o; height := height o;
    maxWidth := maxWidth o; maxHeight := maxHeight o;
    alignHorizontal := alignHorizontal o; alignVertical := alignVertical o;
    paddingTop := paddingTop o; paddingRight := paddingRight o;
    paddingBottom := paddingBottom o; paddingLeft := paddingLeft o;
    marginTop := marginTop o; marginRight := marginRight o;
    marginBottom := marginBottom o; marginLeft := marginLeft o;
    marginBackground := v; border := border o; borderTop := borderTop o;
    borderRight := borderRight o; borderBottom := borderBottom o;
    borderLeft := borderLeft o; borderForeground := borderForeground o;
    borderBackground := borderBackground o; inline := inline o;
    colorWhitespace := colorWhitespace o; tabWidth := tabWidth o;
    transform := transform o
  |}.

Definition with_border (v : BorderChars) (o : StyleOptions) : StyleOptions :=
  {|
    bold := bold o; italic := italic o; underline := underline o;
    strikethrough := strikethrough o; blink := blink o; faint := faint o;
    reverse := reverse o; foreground := foreground o;
    background := background o; width := width o; height := height o;
    maxWidth := maxWidth o; maxHeight := maxHeight o;
    alignHorizontal := alignHorizontal o; alignVertical := alignVertical o;
    paddingTop := paddingTop o; paddingRight := paddingRight o;
    paddingBottom := paddingBottom o; paddingLeft := paddingLeft o;
    marginTop := marginTop o; marginRight := marginRight o;
    marginBottom := marginBottom o; marginLeft := marginLeft o;
    marginBackground := marginBackground o; border := v;
    borderTop := borderTop o; borderRight := borderRight o;
    borderBottom := borderBottom o; borderLeft := borderLeft o;
    borderForeground := borderForeground o;
    borderBackground := borderBackground o; inline := inline o;
    colorWhitespace := colorWhitespace o; tabWidth := tabWidth o;
    transform := transform o
  |}.

Definition with_borderTop (v : bool) (o : StyleOptions) : StyleOptions :=
  {|
    bold := bold o; italic := italic o; underline := underline o;
    strikethrough := strikethrough o; blink := blink o; faint := faint o;
    reverse := reverse o; foreground := foreground o;
    background := background o; width := width o; height := height o;
    maxWidth := maxWidth o; maxHeight := maxHeight o;
    alignHorizontal := alignHorizontal o; alignVertical := alignVertical o;
    paddingTop := paddingTop o; paddingRight := paddingRight o;
    paddingBottom := paddingBottom o; paddingLeft := paddingLeft o;
    marginTop := marginTop o; marginRight := marginRight o;
    marginBottom := marginBottom o; marginLeft := marginLeft o;
    marginBackground := marginBackground o; border := border o;
    borderTop := v; borderRight := borderRight o;
    borderBottom := borderBottom o; borderLeft := borderLeft o;
    borderForeground := borderForeground o;
    borderBackground := borderBackground o; inline := inline o;
    colorWhitespace := colorWhitespace o; tabWidth := tabWidth o;
    transform := transform o
  |}.

Definition with_borderRight (v : bool) (o : StyleOptions) : StyleOptions :=
  {|
    bold := bold o; italic := italic o; underline := underline o;
    strikethrough := strikethrough o; blink := blink o; faint := faint o;
    reverse := reverse o; foreground := foreground o;
    background := background o; width := width o; height := height o;
    maxWidth := maxWidth o; maxHeight := maxHeight o;
    alignHorizontal := alignHorizontal o; alignVertical := alignVertical o;
    paddingTop := paddingTop o; paddingRight := paddingRight o;
    paddingBottom := paddingBottom o; paddingLeft := paddingLeft o;
    marginTop := marginTop o; marginRight := marginRight o;
    marginBottom := marginBottom o; marginLeft := marginLeft o;
    marginBackground := marginBackground o; border := border o;
    borderTop := borderTop o; borderRight := v;
    borderBottom := borderBottom o; borderLeft := borderLeft o;
    borderForeground := borderForeground o;
    borderBackground := borderBackground o; inline := inline o;
    colorWhitespace := colorWhitespace o; tabWidth := tabWidth o;
    transform := transform o
  |}.

Definition with_borderBottom (v : bool) (o : StyleOptions) : StyleOptions :=
  {|
    bold := bold o; italic := italic o; underline := underline o;
    strikethrough := strikethrough o; blink := blink o; faint := faint o;
    reverse := reverse o; foreground := foreground o;
    background := background o; width := width o; height := height o;
    maxWidth := maxWidth o; maxHeight := maxHeight o;
    alignHorizontal := alignHorizontal o; alignVertical := alignVertical o;
    paddingTop := paddingTop o; paddingRight := paddingRight o;
    paddingBottom := paddingBottom o; paddingLeft := paddingLeft o;
    marginTop := marginTop o; marginRight := marginRight o;
    marginBottom := marginBottom o; marginLeft := marginLeft o;
    marginBackground := marginBackground o; border := border o;
    borderTop := borderTop o; borderRight := borderRight o;
    borderBottom := v; borderLeft := borderLeft o;
    borderForeground := borderForeground o;
    borderBackground := borderBackground o; inline := inline o;
    colorWhitespace := colorWhitespace o; tabWidth := tabWidth o;
    transform := transform o
  |}.

Definition with_borderLeft (v : bool) (o : StyleOptions) : StyleOptions :=
  {|
    bold := bold o; italic := italic o; underline := underline o;
    strikethrough := strikethrough o; blink := blink o; faint := faint o;
    reverse := reverse o; foreground := foreground o;
    background := background o; width := width o; height := height o;
    maxWidth := maxWidth o; maxHeight := maxHeight o;
    alignHorizontal := alignHorizontal o; alignVertical := alignVertical o;
    paddingTop := paddingTop o; paddingRight := paddingRight o;
    paddingBottom := paddingBottom o; paddingLeft := paddingLeft o;
    marginTop := marginTop o; marginRight := marginRight o;
    marginBottom := marginBottom o; marginLeft := marginLeft o;
    marginBackground := marginBackground o; border := border o;
    borderTop := borderTop o; borderRight := borderRight o;
    borderBottom := borderBottom o; borderLeft := v;
    borderForeground := borderForeground o;
    borderBackground := borderBackground o; inline := inline o;
    colorWhitespace := colorWhitespace o; tabWidth := tabWidth o;
    transform := transform o
  |}.

Definition with_borderForeground (v : option StyleColor) (o : StyleOptions) : StyleOptions :=
  {|
    bold := bold o; italic := italic o; underline := underline o;
    strikethrough := strikethrough o; blink := blink o; faint := faint o;
    reverse := reverse o; foreground := foreground o;
    background := background o; width := width o; height := height o;
    maxWidth := maxWidth o; maxHeight := maxHeight o;
    alignHorizontal := alignHorizontal o; alignVertical := alignVertical o;
    paddingTop := paddingTop o; paddingRight := paddingRight o;
    paddingBottom := paddingBottom o; paddingLeft := paddingLeft o;
    marginTop := marginTop o; marginRight := marginRight o;
    marginBottom := marginBottom o; marginLeft := marginLeft o;
    marginBackground := marginBackground o; border := border o;
    borderTop := borderTop o; borderRight := borderRight o;
    borderBottom := borderBottom o; borderLeft := borderLeft o;
    borderForeground := v; borderBackground := borderBackground o;
    inline := inline o; colorWhitespace := colorWhitespace o;
    tabWidth := tabWidth o; transform := transform o
  |}.

Definition with_borderBackground (v : option StyleColor) (o : StyleOptions) : StyleOptions :=
  {|
    bold := bold o; italic := italic o; underline := underline o;
    strikethrough := strikethrough o; blink := blink o; faint := faint o;
    reverse := reverse o; foreground := foreground o;
    background := background o; width := width o; height := height o;
    maxWidth := maxWidth o; maxHeight := maxHeight o;
    alignHorizontal := alignHorizontal o; alignVertical := alignVertical o;
    paddingTop := paddingTop o; paddingRight := paddingRight o;
    paddingBottom := paddingBottom o; paddingLeft := paddingLeft o;
    marginTop := marginTop o; marginRight := marginRight o;
    marginBottom := marginBottom o; marginLeft := marginLeft o;
    marginBackground := marginBackground o; border := border o;
    borderTop := borderTop o; borderRight := borderRight o;
    borderBottom := borderBottom o; borderLeft := borderLeft o;
    borderForeground := borderForeground o; borderBackground := v;
    inline := inline o; colorWhitespace := colorWhitespace o;
    tabWidth := tabWidth o; transform := transform o
  |}.

Definition with_inline (v : bool) (o : StyleOptions) : StyleOptions :=
  {|
    bold := bold o; italic := italic o; underline := underline o;
    strikethrough := strikethrough o; blink := blink o; faint := faint o;
    reverse := reverse o; foreground := foreground o;
    background := background o; width := width o; height := height o;
    maxWidth := maxWidth o; maxHeight := maxHeight o;
    alignHorizontal := alignHorizontal o; alignVertical := alignVertical o;
    paddingTop := paddingTop o; paddingRight := paddingRight o;
    paddingBottom := paddingBottom o; paddingLeft := paddingLeft o;
    marginTop := marginTop o; marginRight := marginRight o;
    marginBottom := marginBottom o; marginLeft := marginLeft o;
    marginBackground := marginBackground o; border := border o;
    borderTop := borderTop o; borderRight := borderRight o;
    borderBottom := borderBottom o; borderLeft := borderLeft o;
    borderForeground := borderForeground o;
    borderBackground := borderBackground o; inline := v;
    colorWhitespace := colorWhitespace o; tabWidth := tabWidth o;
    transform := transform o
  |}.

Definition with_colorWhitespace (v : bool) (o : StyleOptions) : StyleOptions :=
  {|
    bold := bold o; italic := italic o; underline := underline o;
    strikethrough := strikethrough o; blink := blink o; faint := faint o;
    reverse := reverse o; foreground := foreground o;
    background := background o; width := width o; height := height o;
    maxWidth := maxWidth o; maxHeight := maxHeight o;
    alignHorizontal := alignHorizontal o; alignVertical := alignVertical o;
    paddingTop := paddingTop o; paddingRight := paddingRight o;
    paddingBottom := paddingBottom o; paddingLeft := paddingLeft o;
    marginTop := marginTop o; marginRight := marginRight o;
    marginBottom := marginBottom o; marginLeft := marginLeft o;
    marginBackground := marginBackground o; border := border o;
    borderTop := borderTop o; borderRight := borderRight o;
    borderBottom := borderBottom o; borderLeft := borderLeft o;
    borderForeground := borderForeground o;
    borderBackground := borderBackground o; inline := inline o;
    colorWhitespace := v; tabWidth := tabWidth o; transform := transform o
  |}.

Definition with_tabWidth (v : Z) (o : StyleOptions) : StyleOptions :=
  {|
    bold := bold o; italic := italic o; underline := underline o;
    strikethrough := strikethrough o; blink := blink o; faint := faint o;
    reverse := reverse o; foreground := foreground o;
    background := background o; width := width o; height := height o;
    maxWidth := maxWidth o; maxHeight := maxHeight o;
    alignHorizontal := alignHorizontal o; alignVertical := alignVertical o;
    paddingTop := paddingTop o; paddingRight := paddingRight o;
    paddingBottom := paddingBottom o; paddingLeft := paddingLeft o;
    marginTop := marginTop o; marginRight := marginRight o;
    marginBottom := marginBottom o; marginLeft := marginLeft o;
    marginBackground := marginBackground o; border := border o;
    borderTop := borderTop o; borderRight := borderRight o;
    borderBottom := borderBottom o; borderLeft := borderLeft o;
    borderForeground := borderForeground o;
    borderBackground := borderBackground o; inline := inline o;
    colorWhitespace := colorWhitespace o; tabWidth := v;
    transform := transform o
  |}.

Definition with_transform (v : option (jsstring -> jsstring)) (o : StyleOptions) : StyleOptions :=
  {|
    bold := bold o; italic := italic o; underline := underline o;
    strikethrough := strikethrough o; blink := blink o; faint := faint o;
    reverse := reverse o; foreground := foreground o;
    background := background o; width := width o; height := height o;
    maxWidth := maxWidth o; maxHeight := maxHeight o;
    alignHorizontal := alignHorizontal o; alignVertical := alignVertical o;
    paddingTop := paddingTop o; paddingRight := paddingRight o;
    paddingBottom := paddingBottom o; paddingLeft := paddingLeft o;
    marginTop := marginTop o; marginRight := marginRight o;
    marginBottom := marginBottom o; marginLeft := marginLeft o;
    marginBackground := marginBackground o; border := border o;
    borderTop := borderTop o; borderRight := borderRight o;
    borderBottom := borderBottom o; borderLeft := borderLeft o;
    borderForeground := borderForeground o;
    borderBackground := borderBackground o; inline := inline o;
    colorWhitespace := colorWhitespace o; tabWidth := tabWidth o;
    transform := v
  |}.

End Options.

Module Style.
Import JS Width.
Import Border.
Import Options.
#[local] Open Scope js_scope.

Definition CSI : jsstring := [0x1b; 0x5b].
Definition RESET : jsstring := [0x1b; 0x5b; 0x6d].

(** Position for alignment. *)
Module Position.
Definition Top : number := 0%Q.
Definition Bottom : number := 1%Q.
Definition Left : number := 0%Q.
Definition Right : number := 1%Q.
Definition Center : number := (1 # 2)%Q.
End Position.

(** Template-literal printing of an integer ([`${n}`]).  A number prints
    as its plain decimal digits when it is a safe integer (at most
    [2^53 - 1] in size): above, the digits are those of the nearest
    double, and from [10^21] on the form is exponential ([1e+21]).  This
    definition stands for the printing of safe integers; statements
    about colours a caller chooses carry that bound. *)
Definition numToString (n : Z) : jsstring :=
  lit (DecimalString.NilZero.string_of_int (Z.to_int n)).

(** [ToInt32], applied by [>>] and [&] to their left operand. *)
Definition toInt32 (n : Z) : Z :=
  let m := n mod 2 ^ 32 in
  if m >=? 2 ^ 31 then m - 2 ^ 32 else m.

(** ** A reading of the builtin [parseInt(s, 16)]

    The renderer is stated over any [parseInt]; this reading of the
    ECMAScript definition instantiates it in examples.  [None] stands for
    the results [ToInt32] sends to [0] ([NaN] and the infinities). *)
Definition isStrWhiteSpace (u : Z) : bool :=
  (u =? 0x09) || (u =? 0x0A) || (u =? 0x0B) || (u =? 0x0C) || (u =? 0x0D)
  || (u =? 0x20) || (u =? 0xA0) || (u =? 0x1680)
  || ((0x2000 <=? u) && (u <=? 0x200A))
  || (u =? 0x2028) || (u =? 0x2029) || (u =? 0x202F) || (u =? 0x205F)
  || (u =? 0x3000) || (u =? 0xFEFF).

Fixpoint trimStart (s : jsstring) : jsstring :=
  match s with
  | c :: t => if isStrWhiteSpace c then trimStart t else s
  | [] => []
  end.

Definition hexDigit (u : Z) : option Z :=
  if (0x30 <=? u) && (u <=? 0x39) then Some (u - 0x30)
  else if (0x41 <=? u) && (u <=? 0x46) then Some (u - 0x41 + 10)
  else if (0x61 <=? u) && (u <=? 0x66) then Some (u - 0x61 + 10)
  else None.

(** Value of the longest prefix of hexadecimal digits, [None] when empty. *)
Fixpoint hexPrefix (s : jsstring) (acc : option Z) : option Z :=
  match s with
  | [] => acc
  | c :: t =>
      match hexDigit c with
      | Some d =>
          hexPrefix t (Some (match acc with Some a => a * 16 + d | None => d end))
      | None => acc
      end
  end.

(** Rounding of a non-negative integer to the nearest double, ties to
    even; [None] on overflow. *)
Definition roundToDouble (n : Z) : option Z :=
  if n <? 2 ^ 53 then Some n
  else
    let k := Z.log2 n + 1 - 53 in
    let q := n / 2 ^ k in
    let r := n mod 2 ^ k in
    let half := 2 ^ (k - 1) in
    let q' := if (r >? half) || ((r =? half) && Z.odd q) then q + 1 else q in
    let v := q' * 2 ^ k in
    if v >=? 2 ^ 1024 then None else Some v.

Definition parseIntHex (s : jsstring) : option Z :=
  let s1 := trimStart s in
  let sign := match s1 with 0x2D :: _ => -1 | _ => 1 end in
  let s2 := match s1 with
            | c :: t => if (c =? 0x2B) || (c =? 0x2D) then t else s1
            | [] => s1
            end in
  let s3 := match s2 with
            | 0x30 :: x :: t => if (x =? 0x78) || (x =? 0x58) then t else s2
            | _ => s2
            end in
  match hexPrefix s3 None with
  | None => None
  | Some mathInt =>
      match roundToDouble mathInt with
      | Some v => Some (sign * v)
      | None => None
      end
  end.

Section Renderer.

(** The builtin [parseInt(s, 16)]. *)
Variable parseInt16 : jsstring -> option Z.

(** Convert a color to an ANSI escape sequence. *)
Definition colorToSequence (color : StyleColor) (isForeground : bool)
  : jsstring :=
  let base := if isForeground then 38 else 48 in
  match color with
  | ColorCode color =>
      if color <? 16 then
        (* Basic ANSI colors *)
        CSI ++ numToString ((if isForeground then 30 else 40) + Z.rem color 8)
            ++ lit "m"
      else CSI ++ numToString base ++ lit ";5;" ++ numToString color ++ lit "m"
  | ColorRGB r g b =>
      CSI ++ numToString base ++ lit ";2;" ++ numToString r ++ lit ";"
          ++ numToString g ++ lit ";" ++ numToString b ++ lit "m"
  | ColorHex color =>
      (* Hex string *)
      let hex := match color with
                 | 0x23 :: t => t
                 | _ => color
                 end in
      let hex := if Z.of_nat (length hex) =? 3
                 then flat_map (fun c => [c; c]) hex
                 else hex in
      let num := match parseInt16 hex with
                 | Some n => toInt32 n
                 | None => 0
                 end in
      let r := Z.land (Z.shiftr num 16) 0xff in
      let g := Z.land (Z.shiftr num 8) 0xff in
      let b := Z.land num 0xff in
      CSI ++ numToString base ++ lit ";2;" ++ numToString r ++ lit ";"
          ++ numToString g ++ lit ";" ++ numToString b ++ lit "m"
  end.

(** A style is its option record. *)
Definition Style := StyleOptions.

(** Truthiness of a string: non-empty. *)
Definition truthy (s : jsstring) : bool :=
  match s with
  | [] => false
  | _ => true
  end.

Definition buildStyleSequence (this : Style) : jsstring :=
  let opts := this in
  let parts :=
    (if bold opts then [lit "1"] else [])
    ++ (if faint opts then [lit "2"] else [])
    ++ (if italic opts then [lit "3"] else [])
    ++ (if underline opts then [lit "4"] else [])
    ++ (if blink opts then [lit "5"] else [])
    ++ (if reverse opts then [lit "7"] else [])
    ++ (if strikethrough opts then [lit "9"] else []) in
  let result :=
    if 0 <? Z.of_nat (length parts)
    then CSI ++ join (lit ";") parts ++ lit "m"
    else [] in
  let result :=
    match foreground opts with
    | Some c => result ++ colorToSequence c true
    | None => result
    end in
  let result :=
    match background opts with
    | Some c => result ++ colorToSequence c false
    | None => result
    end in
  result.

Definition buildWhitespaceSequence (this : Style) : jsstring :=
  let opts := this in
  let result := [] in
  let result := if reverse opts then result ++ CSI ++ lit "7m" else result in
  let result :=
    match background opts with
    | Some c =>
        if colorWhitespace opts then result ++ colorToSequence c false
        else result
    | None => result
    end in
  result.

Definition hasBorder (this : Style) : bool :=
  let opts := this in
  borderTop opts || borderRight opts || borderBottom opts || borderLeft opts.

Definition applyWidth (str : jsstring) (width : Z) (align : number)
    (whitespaceSeq : jsstring) : result jsstring :=
  let lines := split LF str in
  let pad := fun s : jsstring =>
               if truthy whitespaceSeq then whitespaceSeq ++ s ++ RESET
               else s in
  ls <- mapM (fun line =>
                let lineWidth := stringWidth line in
                if lineWidth >=? width then Ok line
                else
                  let diff := width - lineWidth in
                  if num_eq align Position.Left then
                    sp <- str_repeat SPACE diff ;;
                    Ok (line ++ pad sp)
                  else if num_eq align Position.Right then
                    sp <- str_repeat SPACE diff ;;
                    Ok (pad sp ++ line)
                  else
                    let left := diff / 2 in
                    let right := diff - left in
                    l <- str_repeat SPACE left ;;
                    r <- str_repeat SPACE right ;;
                    Ok (pad l ++ line ++ pad r))
             lines ;;
  Ok (join NL ls).

Definition applyHeight (str : jsstring) (height : Z) (align : number)
    (whitespaceSeq : jsstring) : result jsstring :=
  let lines := split LF str in
  if Z.of_nat (length lines) >=? height then Ok str
  else
    let width := maxLineWidth str in
    sp <- str_repeat SPACE width ;;
    let emptyLine :=
      if truthy whitespaceSeq then whitespaceSeq ++ sp ++ RESET else sp in
    let diff := height - Z.of_nat (length lines) in
    if num_eq align Position.Top then
      below <- array_fill diff emptyLine ;;
      Ok (str ++ NL ++ join NL below)
    else if num_eq align Position.Bottom then
      above <- array_fill diff emptyLine ;;
      Ok (join NL above ++ NL ++ str)
    else
      let top := diff / 2 in
      let bottom := diff - top in
      above <- array_fill top emptyLine ;;
      below <- array_fill bottom emptyLine ;;
      Ok (join NL above ++ (if top >? 0 then NL else []) ++ str
            ++ (if bottom >? 0 then NL else []) ++ join NL below).

Definition applyBorder (this : Style) (str : jsstring) : result jsstring :=
  let opts := this in
  let border := Options.border opts in
  let lines := split LF str in
  let width := maxLineWidth str in
  let borderFg :=
    match borderForeground opts with
    | Some c => colorToSequence c true
    | None => []
    end in
  let borderBg :=
    match borderBackground opts with
    | Some c => colorToSequence c false
    | None => []
    end in
  let borderStyle := borderFg ++ borderBg in
  let borderReset := if truthy borderStyle then RESET else [] in
  (* Top border *)
  topRow <-
    (if borderTop opts then
       line <- str_repeat (Border.top border) width ;;
       Ok [borderStyle
             ++ ((if borderLeft opts then Border.topLeft border else [])
                   ++ line
                   ++ (if borderRight opts then Border.topRight border else []))
             ++ borderReset]
     else Ok []) ;;
  (* Content with side borders *)
  let rows :=
    map (fun line =>
           (if borderLeft opts
            then borderStyle ++ Border.left border ++ borderReset else [])
           ++ padRight line width SPACE
           ++ (if borderRight opts
               then borderStyle ++ Border.right border ++ borderReset else []))
        lines in
  (* Bottom border *)
  bottomRow <-
    (if borderBottom opts then
       line <- str_repeat (Border.bottom border) width ;;
       Ok [borderStyle
             ++ ((if borderLeft opts then Border.bottomLeft border else [])
                   ++ line
                   ++ (if borderRight opts
                       then Border.bottomRight border else []))
             ++ borderReset]
     else Ok []) ;;
  Ok (join NL (topRow ++ rows ++ bottomRow)).

Definition applyMargin (this : Style) (str : jsstring) : result jsstring :=
  let opts := this in
  let lines := split LF str in
  let width := maxLineWidth str in
  let marginBg :=
    match marginBackground opts with
    | Some c => colorToSequence c false
    | None => []
    end in
  let marginReset := if truthy marginBg then RESET else [] in
  let result := lines in
  (* Left/right margin *)
  result <-
    (if (marginLeft opts >? 0) || (marginRight opts >? 0) then
       l <- str_repeat SPACE (marginLeft opts) ;;
       r <- str_repeat SPACE (marginRight opts) ;;
       let left := marginBg ++ l ++ marginReset in
       let right := marginBg ++ r ++ marginReset in
       Ok (map (fun line => left ++ line ++ right) result)
     else Ok result) ;;
  (* Top margin *)
  result <-
    (if marginTop opts >? 0 then
       let totalWidth := width + marginLeft opts + marginRight opts in
       sp <- str_repeat SPACE totalWidth ;;
       let emptyLine := marginBg ++ sp ++ marginReset in
       above <- array_fill (marginTop opts) emptyLine ;;
       Ok (above ++ result)
     else Ok result) ;;
  (* Bottom margin *)
  result <-
    (if marginBottom opts >? 0 then
       let totalWidth := width + marginLeft opts + marginRight opts in
       sp <- str_repeat SPACE totalWidth ;;
       let emptyLine := marginBg ++ sp ++ marginReset in
       below <- array_fill (marginBottom opts) emptyLine ;;
       Ok (result ++ below)
     else Ok result) ;;
  Ok (join NL result).

(** The [for (const char of line)] loop of the max-width stage: [cs] is
    what is left to iterate, [result] and [w] are the loop's variables. *)
Fixpoint clampLoop (maxWidth : Z) (cs : list jsstring) (result : jsstring)
    (w : Z) : jsstring :=
  match cs with
  | [] => result
  | char :: rest =>
      let cw := stringWidth char in
      if w + cw >? maxWidth then result
      else clampLoop maxWidth rest (result ++ char) (w + cw)
  end.

(** The padding stage of [render]. *)
Definition applyPadding (this : Style) (whitespaceSeq str : jsstring)
  : result jsstring :=
  let opts := this in
  str <-
    (if paddingLeft opts >? 0 then
       sp <- str_repeat SPACE (paddingLeft opts) ;;
       let pad := if truthy whitespaceSeq
                  then whitespaceSeq ++ sp ++ RESET else sp in
       Ok (join NL (map (fun line => pad ++ line) (split LF str)))
     else Ok str) ;;
  str <-
    (if paddingRight opts >? 0 then
       sp <- str_repeat SPACE (paddingRight opts) ;;
       let pad := if truthy whitespaceSeq
                  then whitespaceSeq ++ sp ++ RESET else sp in
       Ok (join NL (map (fun line => line ++ pad) (split LF str)))
     else Ok str) ;;
  str <-
    (if paddingTop opts >? 0 then
       nl <- str_repeat NL (paddingTop opts) ;;
       Ok (nl ++ str)
     else Ok str) ;;
  (if paddingBottom opts >? 0 then
     nl <- str_repeat NL (paddingBottom opts) ;;
     Ok (str ++ nl)
   else Ok str).

(** The max-constraint stage of [render]. *)
Definition applyMax (this : Style) (str : jsstring) : jsstring :=
  let opts := this in
  let str :=
    if maxWidth opts >? 0 then
      let lines := split LF str in
      join NL
        (map (fun line =>
                if stringWidth line >? maxWidth opts then
                  (* Simple truncation *)
                  clampLoop (maxWidth opts) (chars line) [] 0
                else line)
             lines)
    else str in
  if maxHeight opts >? 0 then
    let lines := split LF str in
    if Z.of_nat (length lines) >? maxHeight opts
    then join NL (firstn (Z.to_nat (maxHeight opts)) lines)
    else str
  else str.

(** Render method. *)
Definition render (this : Style) (strs : list jsstring) : result jsstring :=
  let str := join SPACE strs in
  let opts := this in
  (* Apply transform *)
  let str :=
    match transform opts with
    | Some fn => fn str
    | None => str
    end in
  (* Convert tabs *)
  str <-
    (if tabWidth opts >=? 0 then
       by_ <- (if tabWidth opts =? 0 then Ok []
               else str_repeat SPACE (tabWidth opts)) ;;
       Ok (replaceAll 9 by_ str)
     else Ok str) ;;
  (* Remove carriage returns *)
  let str := replaceCRLF str in
  (* Strip newlines in inline mode *)
  let str := if inline opts then replaceAll LF [] str else str in
  (* Build style sequence *)
  let styleSeq := buildStyleSequence this in
  let whitespaceSeq :=
    if colorWhitespace opts then buildWhitespaceSequence this else [] in
  (* Apply styling to text *)
  let str :=
    if truthy styleSeq then
      let lines := split LF str in
      join NL (map (fun line => styleSeq ++ line ++ RESET) lines)
    else str in
  (* Apply padding *)
  str <- (if negb (inline opts) then applyPadding this whitespaceSeq str
          else Ok str) ;;
  (* Apply width alignment *)
  str <- (if width opts >? 0
          then applyWidth str (width opts) (alignHorizontal opts) whitespaceSeq
          else Ok str) ;;
  (* Apply height alignment *)
  str <- (if height opts >? 0
          then applyHeight str (height opts) (alignVertical opts) whitespaceSeq
          else Ok str) ;;
  (* Apply border *)
  str <- (if negb (inline opts) && hasBorder this then applyBorder this str
          else Ok str) ;;
  (* Apply margin *)
  str <- (if negb (inline opts) then applyMargin this str else Ok str) ;;
  (* Apply max constraints *)
  Ok (applyMax this str).

End Renderer.


(** [new Style()]. *)
Definition style : Style :=
  {| bold := false; italic := false; underline := false;
     strikethrough := false; blink := false; faint := false;
     reverse := false;
     foreground := None; background := None;
     width := 0; height := 0; maxWidth := 0; maxHeight := 0;
     alignHorizontal := Position.Left; alignVertical := Position.Top;
     paddingTop := 0; paddingRight := 0; paddingBottom := 0; paddingLeft := 0;
     marginTop := 0; marginRight := 0; marginBottom := 0; marginLeft := 0;
     marginBackground := None;
     border := NoBorder;
     borderTop := false; borderRight := false; borderBottom := false;
     borderLeft := false;
     borderForeground := None; borderBackground := None;
     inline := false; colorWhitespace := true; tabWidth := 4;
     transform := None |}.

(** [clone(changes)]: a new style, the receiver's options overridden by
    the changes. *)
Definition clone (this : Style) (changes : StyleOptions -> StyleOptions)
  : Style := changes this.

(** Mutators.  A method shares its name with the field it sets; below,
    fields are written with their module ([Options.width]). *)

(* Text styling methods *)
Definition bold (this : Style) (enable : bool) := clone this (with_bold enable).
Definition italic (this : Style) (enable : bool) := clone this (with_italic enable).
Definition underline (this : Style) (enable : bool) :=
  clone this (with_underline enable).
Definition strikethrough (this : Style) (enable : bool) :=
  clone this (with_strikethrough enable).
Definition blink (this : Style) (enable : bool) := clone this (with_blink enable).
Definition faint (this : Style) (enable : bool) := clone this (with_faint enable).
Definition reverse (this : Style) (enable : bool) :=
  clone this (with_reverse enable).

(* Color methods *)
Definition foreground (this : Style) (color : StyleColor) :=
  clone this (with_foreground (Some color)).
Definition fg (this : Style) (color : StyleColor) := foreground this color.
Definition background (this : Style) (color : StyleColor) :=
  clone this (with_background (Some color)).
Definition bg (this : Style) (color : StyleColor) := background this color.

(* Dimension methods *)
Definition width (this : Style) (w : Z) := clone this (with_width (Z.max 0 w)).
Definition height (this : Style) (h : Z) :=
  clone this (with_height (Z.max 0 h)).
Definition maxWidth (this : Style) (w : Z) :=
  clone this (with_maxWidth (Z.max 0 w)).
Definition maxHeight (this : Style) (h : Z) :=
  clone this (with_maxHeight (Z.max 0 h)).

(* Alignment methods *)
Definition align (this : Style) (horizontal : number)
    (vertical : option number) :=
  clone this (fun o =>
    with_alignHorizontal horizontal
      (with_alignVertical
         (match vertical with
          | Some v => v
          | None => Options.alignVertical this
          end) o)).
Definition alignHorizontal (this : Style) (pos : number) :=
  clone this (with_alignHorizontal pos).
Definition alignVertical (this : Style) (pos : number) :=
  clone this (with_alignVertical pos).

(* Padding methods *)
Definition padding (this : Style) (top : Z) (right bottom left : option Z) :=
  match right with
  | None =>
      (* All sides *)
      clone this (fun o =>
        with_paddingTop top (with_paddingRight top
          (with_paddingBottom top (with_paddingLeft top o))))
  | Some right =>
      match bottom with
      | None =>
          (* Vertical / Horizontal *)
          clone this (fun o =>
            with_paddingTop top (with_paddingBottom top
              (with_paddingRight right (with_paddingLeft right o))))
      | Some bottom =>
          clone this (fun o =>
            with_paddingTop top (with_paddingRight right
              (with_paddingBottom bottom
                 (with_paddingLeft
                    (match left with Some l => l | None => right end) o))))
      end
  end.
Definition paddingTop (this : Style) (n : Z) := clone this (with_paddingTop n).
Definition paddingRight (this : Style) (n : Z) :=
  clone this (with_paddingRight n).
Definition paddingBottom (this : Style) (n : Z) :=
  clone this (with_paddingBottom n).
Definition paddingLeft (this : Style) (n : Z) := clone this (with_paddingLeft n).

(* Margin methods *)
Definition margin (this : Style) (top : Z) (right bottom left : option Z) :=
  match right with
  | None =>
      clone this (fun o =>
        with_marginTop top (with_marginRight top
          (with_marginBottom top (with_marginLeft top o))))
  | Some right =>
      match bottom with
      | None =>
          clone this (fun o =>
            with_marginTop top (with_marginBottom top
              (with_marginRight right (with_marginLeft right o))))
      | Some bottom =>
          clone this (fun o =>
            with_marginTop top (with_marginRight right
              (with_marginBottom bottom
                 (with_marginLeft
                    (match left with Some l => l | None => right end) o))))
      end
  end.
Definition marginTop (this : Style) (n : Z) := clone this (with_marginTop n).
Definition marginRight (this : Style) (n : Z) := clone this (with_marginRight n).
Definition marginBottom (this : Style) (n : Z) :=
  clone this (with_marginBottom n).
Definition marginLeft (this : Style) (n : Z) := clone this (with_marginLeft n).
Definition marginBackground (this : Style) (color : StyleColor) :=
  clone this (with_marginBackground (Some color)).

(* Border methods *)
Definition border (this : Style) (chars : BorderChars) (all : bool) :=
  clone this (fun o =>
    with_border chars (with_borderTop all (with_borderRight all
      (with_borderBottom all (with_borderLeft all o))))).
Definition borderStyle (this : Style) (chars : BorderChars) :=
  clone this (with_border chars).
Definition borderTop (this : Style) (enable : bool) :=
  clone this (with_borderTop enable).
Definition borderRight (this : Style) (enable : bool) :=
  clone this (with_borderRight enable).
Definition borderBottom (this : Style) (enable : bool) :=
  clone this (with_borderBottom enable).
Definition borderLeft (this : Style) (enable : bool) :=
  clone this (with_borderLeft enable).
Definition borderForeground (this : Style) (color : StyleColor) :=
  clone this (with_borderForeground (Some color)).
Definition borderBackground (this : Style) (color : StyleColor) :=
  clone this (with_borderBackground (Some color)).

(* Other methods *)
Definition inline (this : Style) (enable : bool) := clone this (with_inline enable).
Definition colorWhitespace (this : Style) (enable : bool) :=
  clone this (with_colorWhitespace enable).
Definition tabWidth (this : Style) (n : Z) := clone this (with_tabWidth n).
Definition transform (this : Style) (fn : jsstring -> jsstring) :=
  clone this (with_transform (Some fn)).

End Style.


(* ===================================================================== *)
(** * Notions used to state the properties                                *)
(* ===================================================================== *)

Module Notions.
Import JS Width.

(** State of the scanner of [stripAnsi] once it has read [s] from
    [Ground]. *)
Definition scanEnd (s : jsstring) : State := fst (stripLoop s Ground []).

(** [s] does not end inside a control sequence. *)
Definition endsInGround (s : jsstring) : bool :=
  match scanEnd s with
  | Ground => true
  | _ => false
  end.

(** A closed line: the byte [0x9D] does not occur and the line does not
    end inside a control sequence. *)
Definition closedLine (line : jsstring) : bool :=
  negb (includes 0x9d line) && endsInGround line.

(** A line that composes with whatever follows it: a closed line whose
    visible text does not end with the first half of a surrogate pair. *)
Definition wellTerminated (line : jsstring) : bool :=
  closedLine line && negb (isHighSurrogate (last (stripAnsi line) 0)).

(** Blocks all of whose lines are closed, or well terminated. *)
Definition closedBlock (s : jsstring) : bool :=
  forallb closedLine (split LF s).

Definition wellTerminatedBlock (s : jsstring) : bool :=
  forallb wellTerminated (split LF s).

(** Escape sequences on which the scanner of [stripAnsi] and the one of
    [truncate] agree: the bytes [0x9C] and [0x9D] do not occur, and an
    [ESC] that has a successor is followed by a byte of [0x40..0x7E]. *)
Fixpoint standardEscapes (s : jsstring) : bool :=
  match s with
  | [] => true
  | c :: t =>
      negb (c =? 0x9c) && negb (c =? 0x9d)
      && (if c =? 0x1b
          then match t with
               | d :: _ => isCsiFinal d
               | [] => true
               end
          else true)
      && standardEscapes t
  end.

(** A string with no control run: no introducer occurs, except an [ESC]
    the scanner reads as literal (followed by a byte outside
    [0x40..0x7E]). *)
Fixpoint noControlRuns (s : jsstring) : bool :=
  match s with
  | [] => true
  | c :: t =>
      if c =? 0x1b then
        match t with
        | d :: t' => negb (isCsiFinal d) && noControlRuns t'
        | [] => false
        end
      else negb (c =? 0x9b) && negb (c =? 0x9d) && noControlRuns t
  end.

(** The body of the width loop of [stringWidth], and the loop on text
    already stripped. *)
Definition widthStep (width : Z) (char : jsstring) : Z :=
  match codePointAt0 char with
  | Some cp => width + codePointWidth cp
  | None => width
  end.

Definition textWidth (s : jsstring) : Z := fold_left widthStep (chars s) 0.

(** The body of the loop of [maxLineWidth]. *)
Definition maxStep (max : Z) (line : jsstring) : Z :=
  let w := stringWidth line in if w >? max then w else max.

(** The columns [truncate] books for visible text: one code unit at a
    time. *)
Definition unitsWidth (s : jsstring) : Z :=
  fold_right (fun c acc => codePointWidth c + acc) 0 s.

(** The bytes [truncate] holds back while it reads a control sequence. *)
Definition pending (state : State) (escapeBuffer : jsstring) : jsstring :=
  match state with
  | Ground => []
  | _ => escapeBuffer
  end.

(** What the loop returns from any of its configurations: its [result]
    so far followed by [k], where either the loop is inside a control
    sequence that never completes and [k] is empty, or [k] is the pending
    bytes followed by a prefix [k'] of the input that the loop, run on
    [k'] alone, emits in full. *)
Definition loopShape (t : Z) (s : jsstring) (st : State) (buf res : jsstring)
    (cw : Z) : Prop :=
  exists k,
    truncLoop t s st buf res cw = res ++ k /\
    ((st <> Ground /\ k = []) \/
     exists k' d,
       k = pending st buf ++ k' /\ s = k' ++ d /\
       forall res0,
         truncLoop t k' st buf res0 cw = res0 ++ pending st buf ++ k').

(** A line of an aligned block of [joinHorizontal]: a line of the block
    or a filler line of [w] spaces. *)
Definition fromBlock (lines : list jsstring) (w : Z) (l : jsstring) : Prop :=
  In l lines \/ l = repeat 32 (Z.to_nat w).

(** [out] is [line] with spaces added on its left and on its right. *)
Definition paddedFrom (line out : jsstring) : Prop :=
  exists n m : nat, out = repeat 32 n ++ line ++ repeat 32 m.

(** [sub] is [s] with some code units left out, the others in order. *)
Inductive subseq : jsstring -> jsstring -> Prop :=
| subseq_nil : subseq [] []
| subseq_skip c sub s : subseq sub s -> subseq sub (c :: s)
| subseq_keep c sub s : subseq sub s -> subseq (c :: sub) (c :: s).

(** Printable ASCII text: every code unit in [0x20..0x7E]. *)
Definition printableAscii (s : jsstring) : bool :=
  forallb (fun c => (0x20 <=? c) && (c <=? 0x7e)) s.

(** Text in which no introducer of a control sequence occurs. *)
Definition plainText (s : jsstring) : bool :=
  negb (includes 0x1b s) && negb (includes 0x9b s) && negb (includes 0x9d s).

(** Number of line feeds of a string. *)
Definition countLF (s : jsstring) : Z :=
  Z.of_nat (length (filter (Z.eqb LF) s)).

(** Sum of a list of integers. *)
Definition sumZ (xs : list Z) : Z := fold_right Z.add 0 xs.

(** A block of [h] rows. *)
Definition rowsOf (h : Z) (lines : list jsstring) : Prop :=
  Z.of_nat (length lines) = h /\ Forall (fun l => ~ In LF l) lines.

(** Bytes between the introducer and the final [m] of the sequences the
    renderer writes: digits, [;], and the sign of a negative number. *)
Definition sgrByte (c : Z) : bool :=
  (c =? 0x2d) || (c =? 0x3b) || ((0x30 <=? c) && (c <=? 0x39)).

(** Runs of sequences [CSI body m]. *)
Inductive sgr : jsstring -> Prop :=
| sgr_nil : sgr []
| sgr_seq body rest :
    forallb sgrByte body = true -> sgr rest ->
    sgr (Style.CSI ++ body ++ 0x6d :: rest).

(** Styles that set text attributes and colours only: block mode, no
    transform, no size, padding, margin or border in effect. *)
Definition attributesOnly (o : Options.StyleOptions) : bool :=
  negb (Options.inline o)
  && match Options.transform o with None => true | Some _ => false end
  && (Options.width o <=? 0) && (Options.height o <=? 0)
  && (Options.maxWidth o <=? 0) && (Options.maxHeight o <=? 0)
  && (Options.paddingTop o <=? 0) && (Options.paddingRight o <=? 0)
  && (Options.paddingBottom o <=? 0) && (Options.paddingLeft o <=? 0)
  && (Options.marginTop o <=? 0) && (Options.marginRight o <=? 0)
  && (Options.marginBottom o <=? 0) && (Options.marginLeft o <=? 0)
  && negb (Style.hasBorder o).

(** A piece of plain text of [n] columns on one line, which joins no
    surrogate pair with its neighbours. *)
Definition edge (n : Z) (e : jsstring) : Prop :=
  plainText e = true /\ ~ In LF e /\ textWidth e = n
  /\ isHighSurrogate (last e 0) = false /\ isLowSurrogate (hd 0 e) = false.

(** A glyph of a border: one column of plain text. *)
Definition glyph (g : jsstring) : bool :=
  plainText g && negb (includes LF g) && (textWidth g =? 1)
  && negb (isHighSurrogate (last g 0)) && negb (isLowSurrogate (hd 0 g)).

(** Borders all of whose glyphs are one column wide. *)
Definition regularBorder (b : Border.BorderChars) : bool :=
  glyph (Border.top b) && glyph (Border.bottom b)
  && glyph (Border.left b) && glyph (Border.right b)
  && glyph (Border.topLeft b) && glyph (Border.topRight b)
  && glyph (Border.bottomLeft b) && glyph (Border.bottomRight b).

(** Integers that a number holds exactly and prints digit by digit. *)
Definition safeInteger (n : Z) : bool :=
  (- (2 ^ 53 - 1) <=? n) && (n <=? 2 ^ 53 - 1).

(** Colours whose components are safe integers.  The components of a hex
    colour are bytes, whatever its string. *)
Definition safeColor (c : Options.StyleColor) : bool :=
  match c with
  | Options.ColorHex _ => true
  | Options.ColorCode code => safeInteger code
  | Options.ColorRGB r g b => safeInteger r && safeInteger g && safeInteger b
  end.

(** An optional colour that is safe when it is set. *)
Definition safeOption (c : option Options.StyleColor) : bool :=
  match c with
  | Some c => safeColor c
  | None => true
  end.

(** Where the loop of [truncate] stops in [x], read from any of its
    configurations beside the loop of [stripAnsi] ([acc] is what that one
    has emitted): either it breaks, at a visible code unit [c] after a
    part [k] of [x] that it emits in full, whose visible text fits in the
    columns left while [c] does not; or it reads all of [x], and the
    visible text of [x] fits. *)
Definition cutShape (t : Z) (x : jsstring) (st : State) (buf res : jsstring)
    (cw : Z) (acc : jsstring) : Prop :=
  (exists k c rest,
     x = k ++ c :: rest /\
     truncLoop t x st buf res cw = res ++ pending st buf ++ k /\
     fst (stripLoop k st acc) = Ground /\
     c <> 0x1b /\ c <> 0x9b /\
     cw + unitsWidth (snd (stripLoop k st acc)) <= t + unitsWidth acc /\
     t + unitsWidth acc
     < cw + unitsWidth (snd (stripLoop k st acc)) + codePointWidth c)
  \/ cw + unitsWidth (snd (stripLoop x st acc)) <= t + unitsWidth acc.

(** Partial borders whose given glyphs are one column wide. *)
Definition regularPartial (chars : Border.Partial.BorderChars) : bool :=
  forallb (fun given => match given with
                        | Some g => glyph g
                        | None => true
                        end)
          [Border.Partial.top chars; Border.Partial.bottom chars;
           Border.Partial.left chars; Border.Partial.right chars;
           Border.Partial.topLeft chars; Border.Partial.topRight chars;
           Border.Partial.bottomLeft chars; Border.Partial.bottomRight chars].

End Notions.

(* ===================================================================== *)
(** * Properties of the JavaScript fragment                               *)
(* ===================================================================== *)

Module JSFacts.
Import JS.

Lemma split_not_nil sep s : split sep s <> [].
Proof.
  destruct s as [|c t]; simpl; [discriminate|].
  destruct (c =? sep); [discriminate|].
  destruct (split sep t); discriminate.
Qed.

Lemma split_length_pos sep s : (0 < length (split sep s))%nat.
Proof.
  pose proof (split_not_nil sep s) as H.
  destruct (split sep s); [congruence | simpl; lia].
Qed.

(** No line of a split contains the separator. *)
Lemma split_no_sep sep s : Forall (fun l => ~ In sep l) (split sep s).
Proof.
  induction s as [|c t IH]; simpl.
  - constructor; [intros [] | constructor].
  - destruct (Z.eqb_spec c sep) as [->|Hne].
    + constructor; [intros [] | exact IH].
    + pose proof (split_not_nil sep t) as Hn.
      destruct (split sep t) as [|l ls]; [congruence|].
      inversion IH; subst.
      constructor; [|assumption].
      intros [E|E]; [congruence | contradiction].
Qed.

(** Joining what was split gives the string back. *)
Lemma join_split sep s : join [sep] (split sep s) = s.
Proof.
  induction s as [|c t IH]; simpl; [reflexivity|].
  destruct (Z.eqb_spec c sep) as [->|Hne].
  - pose proof (split_not_nil sep t) as Hn.
    destruct (split sep t) as [|l ls]; [congruence|].
    simpl in *. rewrite IH. reflexivity.
  - pose proof (split_not_nil sep t) as Hn.
    destruct (split sep t) as [|l ls]; [congruence|].
    destruct ls as [|l' ls']; simpl in *; rewrite <- IH; reflexivity.
Qed.

Lemma joinNL_split s : join NL (split LF s) = s.
Proof. apply join_split. Qed.

Lemma split_app_no_sep sep l s :
  ~ In sep l ->
  split sep (l ++ s) =
  match split sep s with
  | h :: t => (l ++ h) :: t
  | [] => [l]
  end.
Proof.
  induction l as [|c l IH]; intros Hin; simpl.
  - pose proof (split_not_nil sep s) as Hn.
    destruct (split sep s); [congruence | reflexivity].
  - destruct (Z.eqb_spec c sep) as [->|Hne].
    + exfalso. apply Hin. left. reflexivity.
    + rewrite IH by (intros H; apply Hin; right; exact H).
      destruct (split sep s); reflexivity.
Qed.

(** Splitting what was joined gives the lines back, as long as there is a
    line and no line contains the separator. *)
Lemma split_join sep ls :
  ls <> [] -> Forall (fun l => ~ In sep l) ls ->
  split sep (join [sep] ls) = ls.
Proof.
  induction ls as [|l ls IH]; intros Hne Hall; [congruence|].
  inversion Hall as [|? ? Hl Hls]; subst.
  destruct ls as [|l' ls'].
  - simpl. rewrite <- (app_nil_r l) at 1.
    rewrite split_app_no_sep by assumption. simpl. rewrite app_nil_r. reflexivity.
  - change (join [sep] (l :: l' :: ls')) with (l ++ sep :: join [sep] (l' :: ls')).
    rewrite split_app_no_sep by assumption.
    cbn [split]. rewrite Z.eqb_refl.
    rewrite IH by (congruence || assumption).
    rewrite app_nil_r. reflexivity.
Qed.

End JSFacts.

(* ===================================================================== *)
(** * Properties of the width model and of the measurements               *)
(* ===================================================================== *)

Module WidthFacts.
Import JS Width Notions JSFacts.

Lemma codePointWidth_range cp : 0 <= codePointWidth cp <= 2.
Proof.
  unfold codePointWidth.
  repeat match goal with
         | |- context [if ?b then _ else _] => destruct b
         end; lia.
Qed.

Lemma widthStep_shift a char : widthStep a char = a + widthStep 0 char.
Proof. unfold widthStep. destruct (codePointAt0 char); lia. Qed.

Lemma widthStep_range char : 0 <= widthStep 0 char <= 2.
Proof.
  unfold widthStep. destruct (codePointAt0 char) as [cp|]; [|lia].
  pose proof (codePointWidth_range cp). lia.
Qed.

Lemma fold_widthStep_shift cs a :
  fold_left widthStep cs a = a + fold_left widthStep cs 0.
Proof.
  revert a. induction cs as [|c cs IH]; intros a; simpl; [lia|].
  rewrite (IH (widthStep a c)), (IH (widthStep 0 c)), (widthStep_shift a c). lia.
Qed.

Lemma fold_widthStep_nonneg cs : 0 <= fold_left widthStep cs 0.
Proof.
  induction cs as [|c cs IH]; simpl; [lia|].
  rewrite fold_widthStep_shift. pose proof (widthStep_range c). lia.
Qed.

Lemma textWidth_fold s : textWidth s = fold_left widthStep (chars s) 0.
Proof. reflexivity. Qed.

Lemma textWidth_nonneg s : 0 <= textWidth s.
Proof. rewrite textWidth_fold. apply fold_widthStep_nonneg. Qed.

(** [stringWidth] is the width loop run on the stripped string; the early
    return for the empty string agrees with it. *)
Lemma stringWidth_textWidth s : stringWidth s = textWidth (stripAnsi s).
Proof. destruct s; reflexivity. Qed.

Lemma stringWidth_nonneg s : 0 <= stringWidth s.
Proof. rewrite stringWidth_textWidth. apply textWidth_nonneg. Qed.

Lemma maxStep_max m line : maxStep m line = Z.max m (stringWidth line).
Proof. unfold maxStep. cbv zeta. destruct (Z.gtb_spec (stringWidth line) m); lia. Qed.

Lemma fold_maxStep_ge ls m : m <= fold_left maxStep ls m.
Proof.
  revert m. induction ls as [|l ls IH]; intros m; simpl; [lia|].
  specialize (IH (maxStep m l)). rewrite maxStep_max in *. lia.
Qed.

Lemma fold_maxStep_bound ls m l :
  In l ls -> stringWidth l <= fold_left maxStep ls m.
Proof.
  revert m. induction ls as [|x ls IH]; intros m Hin; [destruct Hin|].
  simpl. destruct Hin as [->|Hin].
  - pose proof (fold_maxStep_ge ls (maxStep m l)). rewrite maxStep_max in *. lia.
  - apply IH. exact Hin.
Qed.

(** When every line has the same width [w], the maximum is [w]. *)
Lemma fold_maxStep_const ls m w :
  m <= w -> ls <> [] -> Forall (fun l => stringWidth l = w) ls ->
  fold_left maxStep ls m = w.
Proof.
  revert m. induction ls as [|x ls IH]; intros m Hm Hne Hall; [congruence|].
  inversion Hall as [|? ? Hx Hls]; subst. simpl.
  rewrite maxStep_max, Z.max_r by lia.
  destruct ls as [|y ls]; [reflexivity|].
  apply IH; [lia | discriminate | assumption].
Qed.

Lemma maxLineWidth_fold s : maxLineWidth s = fold_left maxStep (split LF s) 0.
Proof. reflexivity. Qed.

Lemma maxLineWidth_nonneg s : 0 <= maxLineWidth s.
Proof. rewrite maxLineWidth_fold. apply fold_maxStep_ge. Qed.

Lemma maxLineWidth_bound s l : In l (split LF s) -> stringWidth l <= maxLineWidth s.
Proof. rewrite maxLineWidth_fold. apply fold_maxStep_bound. Qed.

End WidthFacts.

(* ===================================================================== *)
(** * Properties of the scanner of [stripAnsi]                            *)
(* ===================================================================== *)

Module ScanFacts.
Import JS Width Notions JSFacts WidthFacts.

(** Case analysis on the tests of one loop iteration. *)
Ltac split_tests :=
  repeat match goal with
         | |- context [if ?b then _ else _] => destruct b eqn:?
         | |- context [match ?l with [] => _ | _ :: _ => _ end] =>
             is_var l; destruct l
         end.

Ltac split_ifs :=
  repeat match goal with
         | |- context [if ?b then _ else _] => destruct b eqn:?
         end.

Ltac acc_step IH :=
  first
    [ apply IH; simpl in *; lia
    | match goal with
      | |- stripLoop ?r ?st ?a = (fst (stripLoop ?r ?st ?b), _) =>
          rewrite (IH r st a), (IH r st b) by (simpl in *; lia);
          cbn [fst snd]; rewrite <- ?app_assoc; reflexivity
      end ].

(** The accumulator of the loop only grows at its end. *)
Lemma stripLoop_acc_n n :
  forall s st acc, (length s <= n)%nat ->
  stripLoop s st acc =
  (fst (stripLoop s st []), acc ++ snd (stripLoop s st [])).
Proof.
  induction n as [|n IH]; intros s st acc Hlen.
  - destruct s; [|simpl in Hlen; lia]. simpl. rewrite app_nil_r. reflexivity.
  - destruct s as [|c rest]; [simpl; rewrite app_nil_r; reflexivity|].
    simpl in Hlen.
    destruct st; cbn [stripLoop]; split_tests; acc_step IH.
Qed.

Lemma stripLoop_acc s st acc :
  stripLoop s st acc =
  (fst (stripLoop s st []), acc ++ snd (stripLoop s st [])).
Proof. apply (stripLoop_acc_n (length s)). lia. Qed.

Lemma stripLoop_snd_acc s st acc :
  snd (stripLoop s st acc) = acc ++ snd (stripLoop s st []).
Proof. rewrite stripLoop_acc. reflexivity. Qed.

Lemma stripLoop_fst_acc s st acc :
  fst (stripLoop s st acc) = fst (stripLoop s st []).
Proof. rewrite stripLoop_acc. reflexivity. Qed.

Lemma includes_cons_false c d s :
  includes c (d :: s) = false -> (d =? c) = false /\ includes c s = false.
Proof.
  unfold includes. simpl. intros H. apply orb_false_elim in H.
  destruct H as [H1 H2]. rewrite Z.eqb_sym. auto.
Qed.

(** Without any introducer the loop copies its input. *)
Lemma stripLoop_plain s :
  forall acc,
  includes ESC s = false -> includes 0x9b s = false ->
  includes 0x9d s = false ->
  stripLoop s Ground acc = (Ground, acc ++ s).
Proof.
  induction s as [|c rest IH]; intros acc H1 H2 H3.
  - simpl. rewrite app_nil_r. reflexivity.
  - apply includes_cons_false in H1, H2, H3.
    destruct H1 as [E1 H1], H2 as [E2 H2], H3 as [E3 H3].
    unfold ESC in E1. cbn [stripLoop]. rewrite E1, E2, E3.
    rewrite IH by assumption. rewrite <- app_assoc. reflexivity.
Qed.

(** Where [0x9D] does not occur, the early return of [stripAnsi] agrees
    with its loop. *)
Lemma stripAnsi_loop s :
  includes 0x9d s = false -> stripAnsi s = snd (stripLoop s Ground []).
Proof.
  intros H. unfold stripAnsi.
  destruct (includes ESC s) eqn:E1; [reflexivity|].
  destruct (includes 0x9b s) eqn:E2; [reflexivity|].
  cbn [negb andb]. rewrite stripLoop_plain by assumption. reflexivity.
Qed.

(** Reading on after a prefix that ends in [Ground]. *)
Lemma stripLoop_app_n n :
  forall x st acc y, (length x <= n)%nat ->
  fst (stripLoop x st acc) = Ground ->
  stripLoop (x ++ y) st acc = stripLoop y Ground (snd (stripLoop x st acc)).
Proof.
  induction n as [|n IH]; intros x st acc y Hlen.
  - destruct x; [|simpl in Hlen; lia]. simpl. intros ->. reflexivity.
  - destruct x as [|c rest]; [simpl; intros ->; reflexivity|].
    simpl in Hlen. cbn [app].
    destruct st; cbn [stripLoop]; split_ifs;
      try (apply IH; lia).
    destruct rest as [|c2 rest'].
    + cbn [app stripLoop fst]. discriminate.
    + cbn [app]. destruct (c2 =? 92).
      * apply IH. simpl in *. lia.
      * apply (IH (c2 :: rest')). simpl in *. lia.
Qed.

Lemma stripLoop_app x y st acc :
  fst (stripLoop x st acc) = Ground ->
  stripLoop (x ++ y) st acc = stripLoop y Ground (snd (stripLoop x st acc)).
Proof. apply (stripLoop_app_n (length x)). lia. Qed.

Ltac use_tests :=
  repeat match goal with
         | H : ?b = _ |- context [if ?b then _ else _] => rewrite H
         end.

(** What the loop emits is read back by the loop as visible text. *)
Lemma stripLoop_readback_n n :
  forall s st acc, (length s <= n)%nat ->
  stripLoop (snd (stripLoop s st [])) Ground acc =
  (Ground, acc ++ snd (stripLoop s st [])).
Proof.
  induction n as [|n IH]; intros s st acc Hlen.
  - destruct s; [|simpl in Hlen; lia]. simpl. rewrite app_nil_r. reflexivity.
  - destruct s as [|c rest]; [simpl; rewrite app_nil_r; reflexivity|].
    simpl in Hlen.
    destruct st; cbn [stripLoop]; split_tests;
      try (apply IH; simpl in *; lia);
      rewrite stripLoop_snd_acc; unfold ESC; cbn [app stripLoop];
      use_tests; cbn [stripLoop]; use_tests;
      rewrite IH by lia; rewrite <- app_assoc; reflexivity.
Qed.

Lemma stripLoop_readback s st acc :
  stripLoop (snd (stripLoop s st [])) Ground acc =
  (Ground, acc ++ snd (stripLoop s st [])).
Proof. apply (stripLoop_readback_n (length s)). lia. Qed.

(** A string with no control run is copied by the loop. *)
Lemma stripLoop_noControlRuns_n n :
  forall s acc, (length s <= n)%nat -> noControlRuns s = true ->
  stripLoop s Ground acc = (Ground, acc ++ s).
Proof.
  induction n as [|n IH]; intros s acc Hlen.
  - destruct s; [|simpl in Hlen; lia]. simpl. rewrite app_nil_r. reflexivity.
  - destruct s as [|c rest]; [simpl; rewrite app_nil_r; reflexivity|].
    simpl in Hlen. cbn [noControlRuns stripLoop].
    destruct (c =? 27) eqn:E.
    + destruct rest as [|d rest']; [discriminate|].
      intros H. apply andb_prop in H. destruct H as [Hd Hr].
      apply Z.eqb_eq in E. subst c.
      unfold isCsiFinal in Hd. cbn [stripLoop].
      destruct (d =? 91) eqn:E1;
        [apply Z.eqb_eq in E1; subst d; discriminate|].
      destruct (d =? 93) eqn:E2;
        [apply Z.eqb_eq in E2; subst d; discriminate|].
      destruct ((64 <=? d) && (d <=? 95)) eqn:E3;
        [exfalso; apply andb_prop in E3; destruct E3;
         destruct ((64 <=? d) && (d <=? 126)) eqn:E4; [discriminate|];
         apply andb_false_iff in E4; lia|].
      destruct ((96 <=? d) && (d <=? 126)) eqn:E4;
        [exfalso; apply andb_prop in E4; destruct E4;
         destruct ((64 <=? d) && (d <=? 126)) eqn:E5; [discriminate|];
         apply andb_false_iff in E5; lia|].
      simpl in Hlen. rewrite IH by (assumption || lia).
      unfold ESC. rewrite <- app_assoc. reflexivity.
    + intros H. apply andb_prop in H. destruct H as [H Hr].
      apply andb_prop in H. destruct H as [H1 H2].
      destruct (c =? 155); [discriminate|]. destruct (c =? 157); [discriminate|].
      rewrite IH by (assumption || lia). rewrite <- app_assoc. reflexivity.
Qed.

(** ** Code points across a concatenation *)

Lemma chars_cons2 h l t :
  chars (h :: l :: t) =
  if isHighSurrogate h && isLowSurrogate l
  then [h; l] :: chars t
  else [h] :: chars (l :: t).
Proof. reflexivity. Qed.

Lemma chars_app_n n :
  forall x y, (length x <= n)%nat ->
  isHighSurrogate (last x 0) = false ->
  chars (x ++ y) = chars x ++ chars y.
Proof.
  induction n as [|n IH]; intros x y Hlen Hlast.
  - destruct x; [reflexivity | simpl in Hlen; lia].
  - destruct x as [|h [|l x']]; [reflexivity | |].
    + simpl in Hlast. cbn [app chars]. rewrite Hlast.
      destruct y; reflexivity.
    + change ((h :: l :: x') ++ y) with (h :: l :: (x' ++ y)).
      rewrite !chars_cons2. simpl in Hlen.
      destruct (isHighSurrogate h && isLowSurrogate l) eqn:E.
      * rewrite IH; [reflexivity | lia |].
        destruct x' as [|c x'']; [reflexivity | exact Hlast].
      * change (l :: x' ++ y) with ((l :: x') ++ y).
        rewrite (IH (l :: x') y); [reflexivity | simpl; lia | exact Hlast].
Qed.

Lemma chars_app x y :
  isHighSurrogate (last x 0) = false -> chars (x ++ y) = chars x ++ chars y.
Proof. apply (chars_app_n (length x)). lia. Qed.

Lemma textWidth_app x y :
  isHighSurrogate (last x 0) = false ->
  textWidth (x ++ y) = textWidth x + textWidth y.
Proof.
  intros H. unfold textWidth. rewrite chars_app by exact H.
  rewrite fold_left_app. apply fold_widthStep_shift.
Qed.

(** The same when the second part does not start with the second half
    of a surrogate pair. *)
Lemma chars_app_head_n n :
  forall x y, (length x <= n)%nat ->
  isLowSurrogate (hd 0 y) = false ->
  chars (x ++ y) = chars x ++ chars y.
Proof.
  induction n as [|n IH]; intros x y Hlen Hhd.
  - destruct x; [reflexivity | simpl in Hlen; lia].
  - destruct x as [|h [|l x']]; [reflexivity | |].
    + destruct y as [|l y']; [reflexivity|].
      change ([h] ++ l :: y') with (h :: l :: y').
      rewrite chars_cons2. cbn [hd] in Hhd. rewrite Hhd, andb_false_r.
      reflexivity.
    + change ((h :: l :: x') ++ y) with (h :: l :: (x' ++ y)).
      rewrite !chars_cons2. simpl in Hlen.
      destruct (isHighSurrogate h && isLowSurrogate l) eqn:E.
      * rewrite IH; [reflexivity | lia | exact Hhd].
      * change (l :: x' ++ y) with ((l :: x') ++ y).
        rewrite (IH (l :: x') y); [reflexivity | simpl; lia | exact Hhd].
Qed.

Lemma textWidth_app_head x y :
  isLowSurrogate (hd 0 y) = false ->
  textWidth (x ++ y) = textWidth x + textWidth y.
Proof.
  intros H. unfold textWidth.
  rewrite (chars_app_head_n (length x)) by (lia || exact H).
  rewrite fold_left_app. apply fold_widthStep_shift.
Qed.

Lemma includes_app c x y : includes c (x ++ y) = includes c x || includes c y.
Proof. unfold includes. apply existsb_app. Qed.

Lemma includes_repeat c d n : c <> d -> includes c (repeat d n) = false.
Proof.
  intros H. unfold includes. induction n as [|n IH]; [reflexivity|].
  simpl. rewrite IH. destruct (Z.eqb_spec c d); [contradiction | reflexivity].
Qed.

Lemma stripAnsi_spaces n : stripAnsi (repeat 32 n) = repeat 32 n.
Proof.
  unfold stripAnsi.
  rewrite !includes_repeat by (unfold ESC; discriminate). reflexivity.
Qed.

Lemma textWidth_spaces n : textWidth (repeat 32 n) = Z.of_nat n.
Proof.
  unfold textWidth. induction n as [|n IH]; [reflexivity|].
  cbn [repeat]. replace (chars (32 :: repeat 32 n)) with ([32] :: chars (repeat 32 n)).
  - cbn [fold_left]. rewrite fold_widthStep_shift, IH.
    change (widthStep 0 [32]) with 1. lia.
  - destruct n; reflexivity.
Qed.

Lemma stringWidth_spaces n : stringWidth (repeat 32 n) = Z.of_nat n.
Proof. rewrite stringWidth_textWidth, stripAnsi_spaces. apply textWidth_spaces. Qed.

(** ** Well-terminated lines *)

Lemma closedLine_inv x :
  closedLine x = true ->
  includes 0x9d x = false /\ fst (stripLoop x Ground []) = Ground.
Proof.
  unfold closedLine, endsInGround, scanEnd. intros H.
  apply andb_prop in H. destruct H as [H1 H2].
  apply negb_true_iff in H1.
  destruct (fst (stripLoop x Ground [])); try discriminate. auto.
Qed.

Lemma closedLine_intro x :
  includes 0x9d x = false -> fst (stripLoop x Ground []) = Ground ->
  closedLine x = true.
Proof.
  intros H1 H2. unfold closedLine, endsInGround, scanEnd.
  rewrite H1, H2. reflexivity.
Qed.

Lemma wellTerminated_inv x :
  wellTerminated x = true ->
  closedLine x = true /\ isHighSurrogate (last (stripAnsi x) 0) = false.
Proof.
  unfold wellTerminated. intros H.
  apply andb_prop in H. destruct H as [H1 H2].
  apply negb_true_iff in H2. auto.
Qed.

Lemma wellTerminated_intro x :
  closedLine x = true -> isHighSurrogate (last (stripAnsi x) 0) = false ->
  wellTerminated x = true.
Proof. intros H1 H2. unfold wellTerminated. rewrite H1, H2. reflexivity. Qed.

(** Stripping distributes over a concatenation whose first part is
    closed. *)
Lemma stripAnsi_app x y :
  closedLine x = true -> includes 0x9d y = false ->
  stripAnsi (x ++ y) = stripAnsi x ++ stripAnsi y /\
  fst (stripLoop (x ++ y) Ground []) = fst (stripLoop y Ground []).
Proof.
  intros Hx Hy. apply closedLine_inv in Hx. destruct Hx as [H1 H2].
  rewrite !stripAnsi_loop;
    try assumption; [|rewrite includes_app, H1, Hy; reflexivity].
  rewrite stripLoop_app by exact H2.
  rewrite stripLoop_snd_acc, stripLoop_fst_acc. auto.
Qed.

(** Width is additive after a well-terminated line. *)
Lemma stringWidth_app x y :
  wellTerminated x = true -> includes 0x9d y = false ->
  stringWidth (x ++ y) = stringWidth x + stringWidth y.
Proof.
  intros Hx Hy. apply wellTerminated_inv in Hx. destruct Hx as [Hc Hh].
  rewrite !stringWidth_textWidth.
  destruct (stripAnsi_app x y Hc Hy) as [E _]. rewrite E.
  apply textWidth_app. exact Hh.
Qed.

(** Spaces after a closed line count in full: a space pairs with no
    surrogate. *)
Lemma stringWidth_app_spaces x n :
  closedLine x = true ->
  stringWidth (x ++ repeat 32 n) = stringWidth x + Z.of_nat n.
Proof.
  intros Hc.
  assert (Hs : includes 0x9d (repeat 32 n) = false)
    by (apply includes_repeat; discriminate).
  rewrite !stringWidth_textWidth.
  destruct (stripAnsi_app x (repeat 32 n) Hc Hs) as [E _]. rewrite E.
  rewrite stripAnsi_spaces, textWidth_app_head, textWidth_spaces;
    [reflexivity | destruct n; reflexivity].
Qed.

Lemma last_app_repeat (x : jsstring) c n d :
  last (x ++ repeat c (S n)) d = c.
Proof.
  induction n as [|n IH].
  - simpl. apply last_last.
  - replace (repeat c (S (S n))) with (repeat c (S n) ++ [c]).
    + rewrite app_assoc. apply last_last.
    + clear. induction n as [|n IH]; [reflexivity|].
      simpl in *. rewrite IH. reflexivity.
Qed.

Lemma closedLine_spaces n : closedLine (repeat 32 n) = true.
Proof.
  apply closedLine_intro.
  - apply includes_repeat. discriminate.
  - rewrite stripLoop_plain;
      [reflexivity | apply includes_repeat; unfold ESC; discriminate
       | apply includes_repeat; discriminate
       | apply includes_repeat; discriminate].
Qed.

Lemma wellTerminated_spaces n : wellTerminated (repeat 32 n) = true.
Proof.
  apply wellTerminated_intro; [apply closedLine_spaces|].
  rewrite stripAnsi_spaces. destruct n; [reflexivity|].
  change (repeat 32 (S n)) with ([] ++ repeat 32 (S n)).
  rewrite last_app_repeat. reflexivity.
Qed.

Lemma closedLine_pad x n :
  closedLine x = true -> closedLine (x ++ repeat 32 n) = true.
Proof.
  intros Hx.
  assert (Hs : includes 0x9d (repeat 32 n) = false)
    by (apply includes_repeat; discriminate).
  destruct (stripAnsi_app x (repeat 32 n) Hx Hs) as [_ E2].
  pose proof (closedLine_inv _ (closedLine_spaces n)) as [_ G].
  pose proof (closedLine_inv _ Hx) as [H1 H2].
  apply closedLine_intro.
  - rewrite includes_app, H1, Hs. reflexivity.
  - rewrite E2. exact G.
Qed.

Lemma wellTerminated_pad x n :
  wellTerminated x = true -> wellTerminated (x ++ repeat 32 n) = true.
Proof.
  intros Hx. apply wellTerminated_inv in Hx. destruct Hx as [Hc Hh].
  assert (Hs : includes 0x9d (repeat 32 n) = false)
    by (apply includes_repeat; discriminate).
  destruct (stripAnsi_app x (repeat 32 n) Hc Hs) as [E1 _].
  apply wellTerminated_intro; [apply closedLine_pad; exact Hc|].
  rewrite E1, stripAnsi_spaces. destruct n.
  - simpl. rewrite app_nil_r. exact Hh.
  - rewrite last_app_repeat. reflexivity.
Qed.

End ScanFacts.

(* ===================================================================== *)
(** * Line counts and stripping                                           *)
(* ===================================================================== *)

Import JS Width Layout Notions JSFacts WidthFacts ScanFacts.

(** C7.  [lineCount] of the empty string is 0 while [getHeight] of the
    empty string is 1 (the split of an empty string has one segment),
    and the two operations agree on every non-empty string. *)
Theorem lineCount_getHeight :
  lineCount [] = 0 /\ getHeight [] = 1 /\
  (forall s, s <> [] -> lineCount s = getHeight s).
Proof.
  split; [reflexivity|]. split; [reflexivity|].
  intros s Hs. destruct s as [|c t]; [congruence|]. reflexivity.
Qed.

Lemma lineCount_getHeight_witness :
  lit "a" ++ NL ++ lit "b" <> [] /\
  lineCount (lit "a" ++ NL ++ lit "b") = getHeight (lit "a" ++ NL ++ lit "b").
Proof.
  split; [discriminate|].
  apply (proj2 (proj2 lineCount_getHeight)). discriminate.
Defined.

(** C8.  [stripAnsi] is idempotent, and it is the identity on every
    string that contains no control run. *)
Theorem stripAnsi_idempotent :
  (forall s, stripAnsi (stripAnsi s) = stripAnsi s) /\
  (forall s, noControlRuns s = true -> stripAnsi s = s).
Proof.
  split.
  - intros s.
    assert (H : stripAnsi s = s \/ stripAnsi s = snd (stripLoop s Ground [])).
    { unfold stripAnsi.
      destruct (negb (includes ESC s) && negb (includes 155 s)); auto. }
    destruct H as [H|H]; rewrite H; [exact H|].
    unfold stripAnsi.
    destruct (negb (includes ESC (snd (stripLoop s Ground [])))
              && negb (includes 155 (snd (stripLoop s Ground []))));
      [reflexivity|].
    rewrite stripLoop_readback. reflexivity.
  - intros s H. unfold stripAnsi.
    destruct (negb (includes ESC s) && negb (includes 155 s)); [reflexivity|].
    rewrite (stripLoop_noControlRuns_n (length s)) by (lia || assumption).
    reflexivity.
Qed.

Lemma stripAnsi_idempotent_witness :
  noControlRuns ([ESC] ++ lit "1 plain") = true /\
  stripAnsi ([ESC] ++ lit "1 plain") = [ESC] ++ lit "1 plain".
Proof.
  split; [reflexivity|].
  apply (proj2 stripAnsi_idempotent). reflexivity.
Defined.

(* ===================================================================== *)
(** * Properties of the compositor                                        *)
(* ===================================================================== *)

Module LayoutFacts.
Import JS Width Layout Notions JSFacts WidthFacts ScanFacts.

Lemma copies_SPACE n : copies SPACE n = repeat 32 (Z.to_nat n).
Proof.
  unfold copies, SPACE. induction (Z.to_nat n) as [|k IH]; simpl; congruence.
Qed.

Lemma str_repeat_ok s n : 0 <= n -> str_repeat s n = Ok (copies s n).
Proof.
  intros H. unfold str_repeat. destruct (Z.ltb_spec n 0); [lia | reflexivity].
Qed.

Lemma array_fill_ok {A} n (x : A) :
  0 <= n -> array_fill n x = Ok (repeat x (Z.to_nat n)).
Proof.
  intros H. unfold array_fill. destruct (Z.ltb_spec n 0); [lia | reflexivity].
Qed.

(** A [map] whose callback succeeds on every element succeeds. *)
Lemma mapM_Forall2 {A B} (f : A -> result B) (R : A -> B -> Prop) l :
  (forall x, In x l -> exists y, f x = Ok y /\ R x y) ->
  exists ys, mapM f l = Ok ys /\ Forall2 R l ys.
Proof.
  induction l as [|x l IH]; intros H.
  - exists []. split; [reflexivity | constructor].
  - destruct (H x (or_introl eq_refl)) as [y [Hy HR]].
    destruct IH as [ys [Hys HRs]].
    { intros z Hz. apply H. right. exact Hz. }
    exists (y :: ys). simpl. rewrite Hy. simpl. rewrite Hys. simpl.
    split; [reflexivity | constructor; assumption].
Qed.

Lemma join_app sep xs ys :
  xs <> [] -> ys <> [] ->
  join sep (xs ++ ys) = join sep xs ++ sep ++ join sep ys.
Proof.
  induction xs as [|x xs IH]; intros Hx Hy; [congruence|].
  destruct xs as [|x' xs'].
  - destruct ys; [congruence | reflexivity].
  - change (join sep ((x :: x' :: xs') ++ ys))
      with (x ++ sep ++ join sep ((x' :: xs') ++ ys)).
    rewrite IH by (congruence || assumption).
    change (join sep (x :: x' :: xs')) with (x ++ sep ++ join sep (x' :: xs')).
    rewrite <- !app_assoc. reflexivity.
Qed.

Lemma In_repeat_eq {A} (x y : A) n : In y (repeat x n) -> y = x.
Proof. intros H. apply repeat_spec in H. exact H. Qed.

Lemma paddedFrom_no_LF line out :
  paddedFrom line out -> ~ In LF line -> ~ In LF out.
Proof.
  intros [n [m ->]] Hl Hin.
  apply in_app_or in Hin. destruct Hin as [Hin|Hin].
  - apply In_repeat_eq in Hin. discriminate.
  - apply in_app_or in Hin. destruct Hin as [Hin|Hin]; [auto|].
    apply In_repeat_eq in Hin. discriminate.
Qed.

Lemma paddedFrom_refl line : paddedFrom line line.
Proof. exists 0%nat, 0%nat. simpl. rewrite app_nil_r. reflexivity. Qed.

Lemma padRight_paddedFrom line w : paddedFrom line (padRight line w SPACE).
Proof.
  unfold padRight. cbv zeta. destruct (stringWidth line >=? w).
  - apply paddedFrom_refl.
  - rewrite copies_SPACE. exists 0%nat, (Z.to_nat (w - stringWidth line)).
    reflexivity.
Qed.

(** The alignment step of [joinVertical], on a line no wider than the
    common width. *)
Lemma alignLine_ok position maxWidth line :
  stringWidth line <= maxWidth ->
  exists out, alignLine position maxWidth line = Ok out /\ paddedFrom line out.
Proof.
  intros Hw. unfold alignLine. cbv zeta.
  destruct (stringWidth line =? maxWidth).
  { eexists. split; [reflexivity | apply paddedFrom_refl]. }
  destruct (num_le position 0%Q).
  { eexists. split; [reflexivity | apply padRight_paddedFrom]. }
  assert (Hd : 0 <= maxWidth - stringWidth line) by lia.
  destruct (num_le 1%Q position).
  { rewrite str_repeat_ok by lia. simpl. eexists. split; [reflexivity|].
    rewrite copies_SPACE. exists (Z.to_nat (maxWidth - stringWidth line)), 0%nat.
    rewrite app_nil_r. reflexivity. }
  assert (H2 : 0 <= (maxWidth - stringWidth line) / 2)
    by (apply Z.div_pos; lia).
  assert (H3 : (maxWidth - stringWidth line) / 2 <= maxWidth - stringWidth line)
    by (apply Z.div_le_upper_bound; lia).
  rewrite !str_repeat_ok by lia. simpl. eexists. split; [reflexivity|].
  rewrite !copies_SPACE. eexists _, _. reflexivity.
Qed.

Lemma Forall2_length_eq {A B} (R : A -> B -> Prop) l l' :
  Forall2 R l l' -> length l = length l'.
Proof. induction 1; simpl; congruence. Qed.

Lemma Forall2_no_LF ls outs :
  Forall2 paddedFrom ls outs ->
  Forall (fun l => ~ In LF l) ls -> Forall (fun l => ~ In LF l) outs.
Proof.
  induction 1 as [|l o ls outs Hlo _ IH]; intros Hall; [constructor|].
  inversion Hall; subst. constructor; [|auto].
  eapply paddedFrom_no_LF; eassumption.
Qed.

(** ** [joinHorizontal] on two blocks *)

Lemma padRight_no_LF line w : ~ In LF line -> ~ In LF (padRight line w SPACE).
Proof. apply paddedFrom_no_LF, padRight_paddedFrom. Qed.

(** A closed line no wider than [w] is padded to exactly [w] columns, and
    stays closed; a well-terminated one stays well terminated. *)
Lemma padRight_exact line w :
  closedLine line = true -> stringWidth line <= w ->
  stringWidth (padRight line w SPACE) = w /\
  closedLine (padRight line w SPACE) = true.
Proof.
  intros Hc Hle. unfold padRight. cbv zeta.
  destruct (Z.geb_spec (stringWidth line) w) as [Hge|Hlt].
  - split; [lia | exact Hc].
  - rewrite copies_SPACE. split.
    + rewrite stringWidth_app_spaces by exact Hc. lia.
    + apply closedLine_pad. exact Hc.
Qed.

Lemma padRight_wellTerminated line w :
  wellTerminated line = true -> wellTerminated (padRight line w SPACE) = true.
Proof.
  intros Hwt. unfold padRight. cbv zeta.
  destruct (stringWidth line >=? w); [exact Hwt|].
  rewrite copies_SPACE. apply wellTerminated_pad. exact Hwt.
Qed.

Lemma alignBlock_ok position maxHeight widths lines i :
  0 <= nth i widths 0 -> Z.of_nat (length lines) <= maxHeight ->
  exists out,
    alignBlock position maxHeight widths lines i = Ok out /\
    Z.of_nat (length out) = maxHeight /\
    Forall (fromBlock lines (nth i widths 0)) out.
Proof.
  intros Hw Hh. unfold alignBlock. cbv zeta.
  assert (Hlines : Forall (fromBlock lines (nth i widths 0)) lines).
  { apply Forall_forall. intros l Hl. left. exact Hl. }
  assert (Hfill : forall n,
             Forall (fromBlock lines (nth i widths 0))
                    (repeat (copies SPACE (nth i widths 0)) n)).
  { intros n. apply Forall_forall. intros l Hl.
    apply repeat_spec in Hl. right. rewrite Hl. apply copies_SPACE. }
  destruct (Z.eqb_spec (Z.of_nat (length lines)) maxHeight) as [E|NE].
  { exists lines. auto. }
  rewrite str_repeat_ok by exact Hw. cbn [JS.bind].
  set (diff := maxHeight - Z.of_nat (length lines)).
  assert (Hd : 0 <= diff) by (unfold diff; lia).
  destruct (num_le position 0%Q).
  { rewrite array_fill_ok by exact Hd. cbn [JS.bind]. eexists.
    split; [reflexivity|]. split.
    - rewrite length_app, repeat_length. unfold diff. lia.
    - apply Forall_app. auto. }
  destruct (num_le 1%Q position).
  { rewrite array_fill_ok by exact Hd. cbn [JS.bind]. eexists.
    split; [reflexivity|]. split.
    - rewrite length_app, repeat_length. unfold diff. lia.
    - apply Forall_app. auto. }
  assert (H2 : 0 <= diff / 2) by (apply Z.div_pos; lia).
  assert (H3 : diff / 2 <= diff) by (apply Z.div_le_upper_bound; lia).
  rewrite !array_fill_ok by lia. cbn [JS.bind]. eexists.
  split; [reflexivity|]. split.
  - rewrite !length_app, !repeat_length. unfold diff in *. lia.
  - apply Forall_app. split; [auto|]. apply Forall_app. auto.
Qed.

(** The shape of a horizontal join of two blocks. *)
Lemma joinHorizontal_two position a b :
  let H := Z.max (getHeight a) (getHeight b) in
  exists PA PB,
    joinHorizontal position [a; b]
    = Ok (join NL (map (joinRow [PA; PB]) (seq 0 (Z.to_nat H)))) /\
    length PA = Z.to_nat H /\ length PB = Z.to_nat H /\
    Forall (fun l => exists l0, fromBlock (split LF a) (getWidth a) l0 /\
                                l = padRight l0 (getWidth a) SPACE) PA /\
    Forall (fun l => exists l0, fromBlock (split LF b) (getWidth b) l0 /\
                                l = padRight l0 (getWidth b) SPACE) PB.
Proof.
  cbv zeta. unfold joinHorizontal, getHeight, getWidth.
  cbn [map]. rewrite !joinNL_split.
  change (max_list [Z.of_nat (length (split LF a));
                    Z.of_nat (length (split LF b))])
    with (Z.max (Z.of_nat (length (split LF a)))
                (Z.of_nat (length (split LF b)))).
  set (H := Z.max _ _).
  set (widths := [maxLineWidth a; maxLineWidth b]).
  destruct (alignBlock_ok position H widths (split LF a) 0)
    as [A [EA [LA FA]]];
    [apply maxLineWidth_nonneg | unfold H; lia |].
  destruct (alignBlock_ok position H widths (split LF b) 1)
    as [B [EB [LB FB]]];
    [apply maxLineWidth_nonneg | unfold H; lia |].
  unfold mapMi. cbn [length seq combine mapM fst snd].
  rewrite EA, EB. cbn [JS.bind length seq combine mapM fst snd].
  unfold padBlock. cbn [JS.bind nth widths].
  eexists _, _. split; [reflexivity|].
  rewrite !length_map. repeat split; try lia.
  - apply Forall_forall. intros l Hl. apply in_map_iff in Hl.
    destruct Hl as [l0 [<- Hin]]. exists l0. split; [|reflexivity].
    rewrite Forall_forall in FA. apply FA. exact Hin.
  - apply Forall_forall. intros l Hl. apply in_map_iff in Hl.
    destruct Hl as [l0 [<- Hin]]. exists l0. split; [|reflexivity].
    rewrite Forall_forall in FB. apply FB. exact Hin.
Qed.

Lemma fromBlock_no_LF s w l : fromBlock (split LF s) w l -> ~ In LF l.
Proof.
  intros [Hin | ->].
  - pose proof (split_no_sep LF s) as H. rewrite Forall_forall in H. auto.
  - intros Hin. apply In_repeat_eq in Hin. discriminate.
Qed.

Lemma fromBlock_closed s l :
  closedBlock s = true -> fromBlock (split LF s) (maxLineWidth s) l ->
  closedLine l = true /\ stringWidth l <= maxLineWidth s.
Proof.
  unfold closedBlock. intros Hall [Hin | ->].
  - rewrite forallb_forall in Hall. split; [auto|].
    apply maxLineWidth_bound. exact Hin.
  - split; [apply closedLine_spaces|].
    rewrite stringWidth_spaces. pose proof (maxLineWidth_nonneg s). lia.
Qed.

Lemma fromBlock_wellTerminated s l :
  wellTerminatedBlock s = true -> fromBlock (split LF s) (maxLineWidth s) l ->
  wellTerminated l = true.
Proof.
  unfold wellTerminatedBlock. intros Hall [Hin | ->].
  - rewrite forallb_forall in Hall. auto.
  - apply wellTerminated_spaces.
Qed.

Lemma wellTerminatedBlock_closed s :
  wellTerminatedBlock s = true -> closedBlock s = true.
Proof.
  unfold wellTerminatedBlock, closedBlock. rewrite !forallb_forall.
  intros H l Hl. apply wellTerminated_inv. auto.
Qed.

End LayoutFacts.

Import LayoutFacts.

(** C10.  The height of a vertical join of two blocks is the sum of their
    heights, and its lines are the lines of the first block followed by
    the lines of the second, in order, each only extended with spaces. *)
Theorem joinVertical_lines :
  forall position a b, exists r,
    joinVertical position [a; b] = Ok r /\
    getHeight r = getHeight a + getHeight b /\
    Forall2 paddedFrom (split LF a ++ split LF b) (split LF r).
Proof.
  intros position a b. unfold joinVertical.
  set (maxWidth := max_list (map maxLineWidth [a; b])).
  assert (HM : maxWidth = Z.max (maxLineWidth a) (maxLineWidth b)) by reflexivity.
  assert (Hblock : forall s, maxLineWidth s <= maxWidth ->
            exists ls,
              mapM (alignLine position maxWidth) (split LF s) = Ok ls
              /\ Forall2 paddedFrom (split LF s) ls).
  { intros s Hs. apply mapM_Forall2. intros line Hin.
    apply alignLine_ok.
    pose proof (maxLineWidth_bound s line Hin). lia. }
  destruct (Hblock a) as [la [Ea Ra]]; [lia|].
  destruct (Hblock b) as [lb [Eb Rb]]; [lia|].
  cbn [mapM]. unfold alignLines. cbv zeta. rewrite Ea, Eb. cbn [JS.bind].
  exists (join NL [join NL la; join NL lb]).
  split; [reflexivity|].
  assert (Hla : la <> []).
  { intros ->. inversion Ra as [E|]. symmetry in E.
    revert E. apply split_not_nil. }
  assert (Hlb : lb <> []).
  { intros ->. inversion Rb as [E|]. symmetry in E.
    revert E. apply split_not_nil. }
  assert (Hsplit : split LF (join NL [join NL la; join NL lb]) = la ++ lb).
  { change (join NL [join NL la; join NL lb])
      with (join NL la ++ NL ++ join NL lb).
    rewrite <- join_app by assumption.
    apply split_join.
    - destruct la; [congruence | discriminate].
    - apply Forall_app. split.
      + eapply Forall2_no_LF; [exact Ra | apply split_no_sep].
      + eapply Forall2_no_LF; [exact Rb | apply split_no_sep]. }
  split.
  - unfold getHeight. rewrite Hsplit, length_app.
    rewrite (Forall2_length_eq _ _ _ Ra), (Forall2_length_eq _ _ _ Rb). lia.
  - rewrite Hsplit. apply Forall2_app; assumption.
Qed.


(** C5.  With a content wider than the canvas and a right-aligned
    position the left offset is negative, and [place] raises instead of
    emitting its [height] rows. *)
Theorem place_negative_offset_raises :
  getWidth (lit "hello") = 5 /\
  startOffset 1%Q 1 (getWidth (lit "hello")) = -4 /\
  place 1 1 1%Q 0%Q (lit "hello") SPACE = RangeError.
Proof. repeat split; reflexivity. Qed.

(** C3.  The loop of [stripAnsi] treats [0x9D] as an OSC introducer and
    [0x9C] as an OSC terminator, but the early return of [stripAnsi] lets
    a string with a [0x9D] run and no [ESC]/[0x9B] through unchanged, and
    the scanner of [truncate] knows neither byte: an OSC run closed by
    [0x9C] swallows the rest of the input. *)
Theorem osc_bytes_divergence :
  snd (stripLoop ([0x9d] ++ lit "title" ++ [0x07] ++ lit "hi") Ground [])
  = lit "hi" /\
  stripAnsi ([0x9d] ++ lit "title" ++ [0x07] ++ lit "hi")
  = [0x9d] ++ lit "title" ++ [0x07] ++ lit "hi" /\
  stripAnsi ([ESC] ++ lit "]0;t" ++ [0x9c] ++ lit "hello world")
  = lit "hello world" /\
  truncate ([ESC] ++ lit "]0;t" ++ [0x9c] ++ lit "hello world") 5 [] = [].
Proof. repeat split; reflexivity. Qed.

(** C6, as the code has it.  The height of a horizontal join of two
    blocks is the larger of their heights.  Its width is the sum of their
    widths when every line of both blocks is closed (free of the byte
    [0x9D] and not ending inside a control sequence) and the visible text
    of no line of the left block ends with half a surrogate pair. *)
Theorem joinHorizontal_size :
  forall position a b, exists r,
    joinHorizontal position [a; b] = Ok r /\
    getHeight r = Z.max (getHeight a) (getHeight b) /\
    (wellTerminatedBlock a = true -> closedBlock b = true ->
     getWidth r = getWidth a + getWidth b).
Proof.
  intros position a b.
  destruct (joinHorizontal_two position a b) as [PA [PB [E [LA [LB [FA FB]]]]]].
  set (H := Z.max (getHeight a) (getHeight b)) in *.
  set (rows := map (joinRow [PA; PB]) (seq 0 (Z.to_nat H))) in *.
  assert (HH : 1 <= H).
  { unfold H, getHeight. pose proof (split_length_pos LF a). lia. }
  assert (Hrow : forall row, In row rows ->
            exists la lb, In la PA /\ In lb PB /\ row = la ++ lb).
  { intros row Hin. apply in_map_iff in Hin. destruct Hin as [i [<- Hi]].
    apply in_seq in Hi. exists (nth i PA []), (nth i PB []).
    split; [apply nth_In; lia|]. split; [apply nth_In; lia|].
    unfold joinRow. simpl. rewrite app_nil_r. reflexivity. }
  assert (Hne : rows <> []).
  { unfold rows. destruct (Z.to_nat H) eqn:EH; [lia | discriminate]. }
  assert (HLF : Forall (fun l => ~ In LF l) rows).
  { apply Forall_forall. intros row Hin.
    destruct (Hrow row Hin) as [la [lb [Ha [Hb ->]]]].
    rewrite Forall_forall in FA, FB.
    destruct (FA la Ha) as [la0 [Fa ->]]. destruct (FB lb Hb) as [lb0 [Fb ->]].
    intros Hin'. apply in_app_or in Hin'. destruct Hin' as [Hin'|Hin'];
      revert Hin'; apply padRight_no_LF; eapply fromBlock_no_LF; eassumption. }
  assert (Hsplit : split LF (join NL rows) = rows)
    by (apply split_join; assumption).
  exists (join NL rows). split; [exact E|]. split.
  - unfold getHeight at 1. rewrite Hsplit. unfold rows.
    rewrite length_map, length_seq. lia.
  - intros Wa Cb. unfold getWidth at 1. rewrite maxLineWidth_fold, Hsplit.
    pose proof (maxLineWidth_nonneg a). pose proof (maxLineWidth_nonneg b).
    pose proof (wellTerminatedBlock_closed a Wa) as Ca.
    apply fold_maxStep_const; [unfold getWidth; lia | exact Hne |].
    apply Forall_forall. intros row Hin.
    destruct (Hrow row Hin) as [la [lb [Ha [Hb ->]]]].
    rewrite Forall_forall in FA, FB.
    destruct (FA la Ha) as [la0 [Fa ->]]. destruct (FB lb Hb) as [lb0 [Fb ->]].
    destruct (fromBlock_closed a la0 Ca Fa) as [Ta La].
    destruct (fromBlock_closed b lb0 Cb Fb) as [Tb Lb'].
    destruct (padRight_exact la0 (getWidth a) Ta La) as [Xa _].
    destruct (padRight_exact lb0 (getWidth b) Tb Lb') as [Xb Yb].
    pose proof (padRight_wellTerminated la0 (getWidth a)
                  (fromBlock_wellTerminated a la0 Wa Fa)) as Ya.
    rewrite stringWidth_app; [lia | exact Ya |].
    apply closedLine_inv in Yb. tauto.
Qed.

Lemma joinHorizontal_size_witness :
  exists r,
    joinHorizontal (1 # 2)%Q
      [[ESC] ++ lit "[31mred" ++ [ESC] ++ lit "[m";
       lit "ab" ++ NL ++ [0x4F60; 0x597D] ++ NL ++ lit "c"] = Ok r /\
    getHeight r = 3 /\ getWidth r = 7.
Proof.
  destruct (joinHorizontal_size (1 # 2)%Q
              ([ESC] ++ lit "[31mred" ++ [ESC] ++ lit "[m")
              (lit "ab" ++ NL ++ [0x4F60; 0x597D] ++ NL ++ lit "c"))
    as [r [E [Hh Hw]]].
  exists r. split; [exact E|]. split; [exact Hh|].
  apply Hw; reflexivity.
Defined.

(** Each condition of the width law is needed: two halves of a surrogate
    pair meet across the seam, and a [0x9D] run in a block without [ESC]
    is measured as text before the join and as a control run after it. *)
Example joinHorizontal_width_conditions :
  getWidth [0xD83C] + getWidth [0xDFFB] = 2 /\
  joinHorizontal 0%Q [[0xD83C]; [0xDFFB]] = Ok [0xD83C; 0xDFFB] /\
  getWidth [0xD83C; 0xDFFB] = 0 /\
  getWidth ([0x9d] ++ lit "ab" ++ [0x07]) + getWidth ([ESC] ++ lit "[mx") = 3 /\
  joinHorizontal 0%Q [[0x9d] ++ lit "ab" ++ [0x07]; [ESC] ++ lit "[mx"]
  = Ok ([0x9d] ++ lit "ab" ++ [0x07] ++ [ESC] ++ lit "[mx") /\
  getWidth ([0x9d] ++ lit "ab" ++ [0x07] ++ [ESC] ++ lit "[mx") = 1.
Proof. repeat split; reflexivity. Qed.

(** The width law of C6 fails when a line of the left block ends inside a
    control sequence: the sequence swallows the first column of the right
    block. *)
Lemma joinHorizontal_width_counterexample :
  joinHorizontal 0%Q [[ESC] ++ lit "["; lit "hello"]
  = Ok ([ESC] ++ lit "[hello") /\
  getWidth ([ESC] ++ lit "[hello") = 4 /\
  getWidth ([ESC] ++ lit "[") + getWidth (lit "hello") = 5 /\
  getWidth ([ESC] ++ lit "[hello")
  <> getWidth ([ESC] ++ lit "[") + getWidth (lit "hello").
Proof. repeat split; try reflexivity. discriminate. Qed.

(* ===================================================================== *)
(** * Properties of the loop of [truncate]                                *)
(* ===================================================================== *)

Module TruncFacts.
Import JS Width Notions JSFacts WidthFacts ScanFacts.

Ltac list_eq :=
  cbn [pending app]; rewrite <- ?app_assoc; cbn [app]; reflexivity.

Lemma loopShape_stop t s st buf res cw :
  st = Ground -> truncLoop t s st buf res cw = res -> loopShape t s st buf res cw.
Proof.
  intros -> E. exists []. split; [rewrite app_nil_r; exact E|].
  right. exists [], s. repeat split. intros res0. simpl.
  rewrite app_nil_r. reflexivity.
Qed.

(** One iteration that emits nothing. *)
Lemma loopShape_hold t c x' st buf res cw st' buf' :
  (forall y res0, (exists d, x' = y ++ d) ->
     truncLoop t (c :: y) st buf res0 cw = truncLoop t y st' buf' res0 cw) ->
  pending st buf ++ [c] = pending st' buf' ->
  loopShape t x' st' buf' res cw -> loopShape t (c :: x') st buf res cw.
Proof.
  intros Hstep Hcons [k1 [E1 D]].
  exists k1. split.
  { rewrite (Hstep x' res) by (exists []; rewrite app_nil_r; reflexivity).
    exact E1. }
  destruct D as [[N K] | [k1' [d [K [S F]]]]].
  - subst k1.
    assert (Hdec : st = Ground \/ st <> Ground)
      by (destruct st; (left; reflexivity) || (right; discriminate)).
    destruct Hdec as [-> | Hst]; [|left; auto].
    right. exists [], (c :: x'). repeat split.
    intros res0. simpl. rewrite app_nil_r. reflexivity.
  - right. exists (c :: k1'), d. split; [|split].
    + rewrite K, <- Hcons, <- app_assoc. reflexivity.
    + rewrite S. reflexivity.
    + intros res0. rewrite (Hstep k1' res0) by (exists d; exact S).
      rewrite F, <- Hcons, <- app_assoc. reflexivity.
Qed.

(** One iteration that emits [e] and returns to [Ground]. *)
Lemma loopShape_emit t c x' st buf res cw buf' e cw' :
  (forall y res0, (exists d, x' = y ++ d) ->
     truncLoop t (c :: y) st buf res0 cw
     = truncLoop t y Ground buf' (res0 ++ e) cw') ->
  pending st buf ++ [c] = e ->
  loopShape t x' Ground buf' (res ++ e) cw' ->
  loopShape t (c :: x') st buf res cw.
Proof.
  intros Hstep Hcons [k1 [E1 D]].
  exists (e ++ k1). split.
  { rewrite (Hstep x' res) by (exists []; rewrite app_nil_r; reflexivity).
    rewrite E1, app_assoc. reflexivity. }
  destruct D as [[N K] | [k1' [d [K [S F]]]]]; [congruence|].
  right. exists (c :: k1'), d. split; [|split].
  - rewrite K, <- Hcons. list_eq.
  - rewrite S. reflexivity.
  - intros res0. rewrite (Hstep k1' res0) by (exists d; exact S).
    rewrite F, <- Hcons. list_eq.
Qed.

(** The iteration that closes an OSC string on [ESC \]. *)
Lemma loopShape_emit2 t c c2 x'' buf res cw e :
  (forall y res0,
     truncLoop t (c :: c2 :: y) OscString buf res0 cw
     = truncLoop t y Ground [] (res0 ++ e) cw) ->
  buf ++ [c; c2] = e ->
  loopShape t x'' Ground [] (res ++ e) cw ->
  loopShape t (c :: c2 :: x'') OscString buf res cw.
Proof.
  intros Hstep Hcons [k1 [E1 D]].
  exists (e ++ k1). split.
  { rewrite Hstep, E1, app_assoc. reflexivity. }
  destruct D as [[N K] | [k1' [d [K [S F]]]]]; [congruence|].
  right. exists (c :: c2 :: k1'), d. split; [|split].
  - rewrite K, <- Hcons. list_eq.
  - rewrite S. reflexivity.
  - intros res0. rewrite Hstep, F, <- Hcons. list_eq.
Qed.

Lemma loopShape_nil t st buf res cw : loopShape t [] st buf res cw.
Proof.
  exists []. split; [simpl; rewrite app_nil_r; reflexivity|].
  destruct st; try (left; split; [discriminate | reflexivity]).
  right. exists [], []. repeat split. intros res0. simpl.
  rewrite app_nil_r. reflexivity.
Qed.

Ltac hold_step IH :=
  eapply loopShape_hold;
  [ intros ? ? _; cbn [truncLoop]; use_tests; reflexivity
  | list_eq
  | apply IH; simpl in *; lia ].

Ltac emit_step IH :=
  eapply loopShape_emit;
  [ intros ? ? _; cbn [truncLoop]; use_tests; reflexivity
  | list_eq
  | apply IH; simpl in *; lia ].

Lemma loopShape_all_n t n :
  forall s st buf res cw, (length s <= n)%nat -> loopShape t s st buf res cw.
Proof.
  induction n as [|n IH]; intros s st buf res cw Hlen.
  - destruct s; [apply loopShape_nil | simpl in Hlen; lia].
  - destruct s as [|c x']; [apply loopShape_nil|].
    simpl in Hlen.
    destruct st.
    + (* Ground *)
      destruct (c =? 27) eqn:E1; [hold_step IH|].
      destruct (c =? 155) eqn:E2; [hold_step IH|].
      destruct (cw + codePointWidth c >? t) eqn:E3.
      * apply loopShape_stop; [reflexivity|].
        cbn [truncLoop]. rewrite E1, E2. cbv zeta. rewrite E3. reflexivity.
      * eapply loopShape_emit;
          [ intros ? ? _; cbn [truncLoop]; rewrite E1, E2; cbv zeta;
            rewrite E3; reflexivity
          | list_eq
          | apply IH; lia ].
    + (* Escape *)
      destruct (c =? 91) eqn:E1; [hold_step IH|].
      destruct (c =? 93) eqn:E2; [hold_step IH|].
      emit_step IH.
    + (* CsiEntry *)
      destruct (isCsiFinal c) eqn:E1; [emit_step IH|].
      destruct (isCsiParam c) eqn:E2; [hold_step IH|].
      destruct (isCsiIntermediate c) eqn:E3; hold_step IH.
    + (* CsiParam *)
      destruct (isCsiFinal c) eqn:E1; [emit_step IH|].
      destruct (isCsiParam c) eqn:E2; [hold_step IH|].
      destruct (isCsiIntermediate c) eqn:E3; hold_step IH.
    + (* CsiIntermediate *)
      destruct (isCsiFinal c) eqn:E1; [emit_step IH | hold_step IH].
    + (* OscString *)
      destruct (c =? 7) eqn:E1; [emit_step IH|].
      destruct (c =? 27) eqn:E2; [|hold_step IH].
      destruct x' as [|c2 x''].
      * eapply (loopShape_hold t c [] OscString buf res cw
                                 OscString (buf ++ [c]));
          [ intros y res0 [d Hd]; destruct y; [|discriminate];
            cbn [truncLoop]; rewrite E1, E2; reflexivity
          | list_eq
          | apply loopShape_nil ].
      * destruct (c2 =? 92) eqn:E3.
        -- eapply loopShape_emit2;
             [ intros ? ?; cbn [truncLoop]; rewrite E1, E2, E3; reflexivity
             | list_eq
             | apply IH; simpl in *; lia ].
        -- eapply loopShape_hold;
             [ intros y res0 [d Hd]; cbn [truncLoop]; rewrite E1, E2;
               destruct y as [|c2' y'];
               [reflexivity
               | injection Hd as -> _; rewrite E3; reflexivity]
             | list_eq
             | apply IH; simpl in *; lia ].
Qed.

(** What [truncate] keeps of [s] when it cuts: a prefix of [s], which the
    loop run on it alone emits in full. *)
Lemma truncLoop_prefix t s :
  exists kept dropped,
    s = kept ++ dropped /\
    truncLoop t s Ground [] [] 0 = kept /\
    truncLoop t kept Ground [] [] 0 = kept.
Proof.
  destruct (loopShape_all_n t (length s) s Ground [] [] 0 (le_n _))
    as [k [E [[N _] | [k' [d [K [S F]]]]]]]; [congruence|].
  simpl in K. rewrite K in E. simpl in E. exists k', d. split; [exact S|].
  split; [exact E|]. apply (F []).
Qed.

(** ** Where the two scanners agree *)

Ltac bool_lia :=
  unfold isCsiFinal, isCsiParam, isCsiIntermediate,
         isHighSurrogate, isLowSurrogate, between in *;
  repeat match goal with
         | H : _ && _ = true |- _ => apply andb_prop in H; destruct H
         | H : _ && _ = false |- _ => apply andb_false_iff in H
         | H : _ || _ = true |- _ => apply orb_prop in H
         | H : _ || _ = false |- _ => apply orb_false_elim in H; destruct H
         | H : negb _ = true |- _ => apply negb_true_iff in H
         | H : negb _ = false |- _ => apply negb_false_iff in H
         | H : (_ <=? _) = true |- _ => apply Z.leb_le in H
         | H : (_ <=? _) = false |- _ => apply Z.leb_gt in H
         | H : (_ <? _) = true |- _ => apply Z.ltb_lt in H
         | H : (_ <? _) = false |- _ => apply Z.ltb_ge in H
         | H : (_ >? _) = true |- _ => rewrite Z.gtb_ltb in H
         | H : (_ >? _) = false |- _ => rewrite Z.gtb_ltb in H
         | H : (_ =? _) = true |- _ => apply Z.eqb_eq in H
         | H : (_ =? _) = false |- _ => apply Z.eqb_neq in H
         end;
  lia.

Lemma unitsWidth_app x y : unitsWidth (x ++ y) = unitsWidth x + unitsWidth y.
Proof. unfold unitsWidth. induction x; simpl; lia. Qed.

Lemma unitsWidth_nonneg x : 0 <= unitsWidth x.
Proof.
  unfold unitsWidth. induction x as [|c x IH]; simpl; [lia|].
  pose proof (codePointWidth_range c). lia.
Qed.

Lemma standardEscapes_cons c x :
  standardEscapes (c :: x) = true ->
  c <> 0x9c /\ c <> 0x9d /\
  (c = 0x1b -> match x with d :: _ => isCsiFinal d = true | [] => True end) /\
  standardEscapes x = true.
Proof.
  cbn [standardEscapes]. intros H.
  apply andb_prop in H. destruct H as [H H4].
  apply andb_prop in H. destruct H as [H H3].
  apply andb_prop in H. destruct H as [H1 H2].
  apply negb_true_iff, Z.eqb_neq in H1, H2.
  repeat split; try assumption.
  intros ->. simpl in H3. destruct x; [exact I | exact H3].
Qed.

Lemma standardEscapes_prefix x y :
  standardEscapes (x ++ y) = true -> standardEscapes x = true.
Proof.
  induction x as [|c x IH]; [reflexivity|].
  cbn [app standardEscapes]. intros H.
  apply andb_prop in H. destruct H as [H H4].
  apply andb_prop in H. destruct H as [H H3].
  rewrite H, (IH H4). cbn [andb]. rewrite andb_true_r.
  destruct (c =? 27); [|reflexivity].
  destruct x; [reflexivity | exact H3].
Qed.

Lemma standardEscapes_no_9d x :
  standardEscapes x = true -> includes 0x9d x = false.
Proof.
  induction x as [|c x IH]; [reflexivity|]. intros H.
  apply standardEscapes_cons in H. destruct H as [_ [H [_ Hx]]].
  change (includes 157 (c :: x)) with ((157 =? c) || includes 157 x).
  rewrite (IH Hx).
  destruct (Z.eqb_spec 157 c); [congruence | reflexivity].
Qed.

Lemma length_absurd {A} (res : list A) c x : res = res ++ c :: x -> False.
Proof.
  intros H. apply (f_equal (@length A)) in H.
  rewrite length_app in H. simpl in H. lia.
Qed.

Lemma app_one_not_nil {A} (l : list A) c : l ++ [c] <> [].
Proof. destruct l; discriminate. Qed.

Ltac side Heq :=
  try first
      [ lia
      | assumption
      | discriminate
      | solve [intros _; apply app_one_not_nil]
      | solve [intros _; discriminate]
      | solve [intros; congruence]
      | solve [simpl in *; lia]
      | solve [rewrite Heq; list_eq] ].

(** On standard escapes, a string the loop of [truncate] emits in full
    ends in [Ground] for the loop of [stripAnsi] as well, and the columns
    booked for it are those of its visible text, unit by unit. *)
Lemma scanners_agree_n t n :
  forall x st buf res cw acc,
    (length x <= n)%nat ->
    standardEscapes x = true ->
    (st = Escape ->
     match x with d :: _ => isCsiFinal d = true | [] => True end) ->
    (st <> Ground -> buf <> []) ->
    cw <= t ->
    truncLoop t x st buf res cw = res ++ pending st buf ++ x ->
    fst (stripLoop x st acc) = Ground /\
    cw + unitsWidth (snd (stripLoop x st acc)) <= t + unitsWidth acc.
Proof.
  induction n as [|n IH]; intros x st buf res cw acc Hlen Hs He Hb Hc.
  - destruct x; [|simpl in Hlen; lia].
    cbn [truncLoop stripLoop fst snd]. rewrite app_nil_r. intros Heq.
    destruct st; try (exfalso; apply Hb; [discriminate|];
                      cbn [pending] in Heq;
                      apply (f_equal (@length Z)) in Heq;
                      rewrite length_app in Heq;
                      destruct buf; [reflexivity | simpl in Heq; lia]).
    split; [reflexivity | lia].
  - destruct x as [|c x'].
    { cbn [truncLoop stripLoop fst snd]. rewrite app_nil_r. intros Heq.
      destruct st; try (exfalso; apply Hb; [discriminate|];
                        cbn [pending] in Heq;
                        apply (f_equal (@length Z)) in Heq;
                        rewrite length_app in Heq;
                        destruct buf; [reflexivity | simpl in Heq; lia]).
      split; [reflexivity | lia]. }
    apply standardEscapes_cons in Hs. destruct Hs as [N1 [N2 [Hn Hs]]].
    simpl in Hlen.
    destruct st.
    + (* Ground *)
      cbn [truncLoop stripLoop pending app].
      destruct (Z.eqb_spec c 27) as [E1|E1].
      { intros Heq. apply (IH x' Escape [c] res cw acc); side Heq.
        intros _. apply Hn. exact E1. }
      destruct (Z.eqb_spec c 155) as [E2|E2].
      { intros Heq. apply (IH x' CsiEntry [c] res cw acc); side Heq. }
      destruct (Z.eqb_spec c 157) as [E3|E3]; [contradiction|].
      cbv zeta.
      destruct (cw + codePointWidth c >? t) eqn:E4.
      { intros Heq. exfalso. eapply length_absurd. exact Heq. }
      intros Heq.
      destruct (IH x' Ground buf (res ++ [c]) (cw + codePointWidth c)
                   (acc ++ [c])) as [G W]; side Heq.
      split; [exact G|].
      rewrite unitsWidth_app in W. simpl in W. lia.
    + (* Escape *)
      cbn [truncLoop stripLoop pending app]. cbv zeta.
      specialize (He eq_refl). cbn iota in He.
      destruct (Z.eqb_spec c 91) as [E1|E1].
      { intros Heq. apply (IH x' CsiEntry (buf ++ [c]) res cw acc); side Heq. }
      destruct (Z.eqb_spec c 93) as [E2|E2].
      { intros Heq. apply (IH x' OscString (buf ++ [c]) res cw acc); side Heq. }
      intros Heq.
      assert (G : fst (stripLoop x' Ground acc) = Ground /\
                  cw + unitsWidth (snd (stripLoop x' Ground acc))
                  <= t + unitsWidth acc)
        by (apply (IH x' Ground [] (res ++ buf ++ [c]) cw acc); side Heq).
      destruct ((64 <=? c) && (c <=? 95)) eqn:E3; [exact G|].
      destruct ((96 <=? c) && (c <=? 126)) eqn:E4; [exact G|].
      exfalso. bool_lia.
    + (* CsiEntry *)
      cbn [truncLoop stripLoop pending app]. cbv zeta.
      destruct (isCsiFinal c) eqn:E1.
      { intros Heq.
        assert (G : fst (stripLoop x' Ground acc) = Ground /\
                    cw + unitsWidth (snd (stripLoop x' Ground acc))
                    <= t + unitsWidth acc)
          by (apply (IH x' Ground [] (res ++ buf ++ [c]) cw acc); side Heq).
        destruct (isCsiParam c) eqn:E2; [exfalso; bool_lia|].
        destruct (isCsiIntermediate c) eqn:E3; [exfalso; bool_lia|].
        exact G. }
      destruct (isCsiParam c) eqn:E2.
      { intros Heq. apply (IH x' CsiParam (buf ++ [c]) res cw acc); side Heq. }
      destruct (isCsiIntermediate c) eqn:E3.
      { intros Heq.
        apply (IH x' CsiIntermediate (buf ++ [c]) res cw acc); side Heq. }
      intros Heq. apply (IH x' CsiEntry (buf ++ [c]) res cw acc); side Heq.
    + (* CsiParam *)
      cbn [truncLoop stripLoop pending app]. cbv zeta.
      destruct (isCsiFinal c) eqn:E1.
      { intros Heq.
        assert (G : fst (stripLoop x' Ground acc) = Ground /\
                    cw + unitsWidth (snd (stripLoop x' Ground acc))
                    <= t + unitsWidth acc)
          by (apply (IH x' Ground [] (res ++ buf ++ [c]) cw acc); side Heq).
        destruct (isCsiIntermediate c) eqn:E3; [exfalso; bool_lia|].
        exact G. }
      destruct (isCsiParam c) eqn:E2.
      { intros Heq.
        assert (G : fst (stripLoop x' CsiParam acc) = Ground /\
                    cw + unitsWidth (snd (stripLoop x' CsiParam acc))
                    <= t + unitsWidth acc)
          by (apply (IH x' CsiParam (buf ++ [c]) res cw acc); side Heq).
        destruct (isCsiIntermediate c) eqn:E3; [exfalso; bool_lia|].
        exact G. }
      destruct (isCsiIntermediate c) eqn:E3.
      { intros Heq.
        apply (IH x' CsiIntermediate (buf ++ [c]) res cw acc); side Heq. }
      intros Heq. apply (IH x' CsiParam (buf ++ [c]) res cw acc); side Heq.
    + (* CsiIntermediate *)
      cbn [truncLoop stripLoop pending app]. cbv zeta.
      destruct (isCsiFinal c) eqn:E1.
      { intros Heq.
        apply (IH x' Ground [] (res ++ buf ++ [c]) cw acc); side Heq. }
      intros Heq.
      apply (IH x' CsiIntermediate (buf ++ [c]) res cw acc); side Heq.
    + (* OscString *)
      cbn [truncLoop stripLoop pending app]. cbv zeta.
      destruct (Z.eqb_spec c 7) as [E1|E1].
      { cbn [orb]. intros Heq.
        apply (IH x' Ground [] (res ++ buf ++ [c]) cw acc); side Heq. }
      destruct (Z.eqb_spec c 156) as [E2|E2]; [contradiction|]. cbn [orb].
      destruct (Z.eqb_spec c 27) as [E3|E3].
      2:{ intros Heq.
          apply (IH x' OscString (buf ++ [c]) res cw acc); side Heq. }
      destruct x' as [|c2 x''].
      { intros Heq.
        apply (IH [] OscString (buf ++ [c]) res cw acc); side Heq. }
      destruct (Z.eqb_spec c2 92) as [E4|E4].
      { intros Heq.
        apply standardEscapes_cons in Hs. destruct Hs as [_ [_ [_ Hs]]].
        apply (IH x'' Ground [] (res ++ (buf ++ [c]) ++ [c2]) cw acc);
          side Heq. }
      intros Heq.
      apply (IH (c2 :: x'') OscString (buf ++ [c]) res cw acc); side Heq.
Qed.

Lemma scanners_agree t x :
  0 <= t -> standardEscapes x = true ->
  truncLoop t x Ground [] [] 0 = x ->
  fst (stripLoop x Ground []) = Ground /\
  unitsWidth (snd (stripLoop x Ground [])) <= t.
Proof.
  intros Ht Hs Heq.
  assert (A : fst (stripLoop x Ground []) = Ground /\
              0 + unitsWidth (snd (stripLoop x Ground [])) <= t + unitsWidth []).
  { apply (scanners_agree_n t (length x) x Ground [] [] 0 []);
      try assumption; try lia; try discriminate.
    intros; congruence. }
  destruct A as [G W]. simpl in W. split; [exact G | lia].
Qed.


(** ** Code points against code units *)

Lemma textWidth_one h : textWidth [h] = codePointWidth h.
Proof. reflexivity. Qed.

Lemma textWidth_cons2 h l t :
  textWidth (h :: l :: t) =
  if isHighSurrogate h && isLowSurrogate l
  then codePointWidth (0x10000 + (h - 0xD800) * 0x400 + (l - 0xDC00))
       + textWidth t
  else codePointWidth h + textWidth (l :: t).
Proof.
  unfold textWidth. rewrite chars_cons2.
  destruct (isHighSurrogate h && isLowSurrogate l) eqn:E;
    cbn [fold_left]; rewrite fold_widthStep_shift;
    unfold widthStep, codePointAt0; rewrite ?E; reflexivity.
Qed.

Lemma codePointWidth_high h : isHighSurrogate h = true -> codePointWidth h = 1.
Proof.
  intros H. unfold codePointWidth.
  repeat match goal with
         | |- context [if ?b then _ else _] => destruct b eqn:?
         end; try reflexivity; exfalso; bool_lia.
Qed.

Lemma codePointWidth_low l : isLowSurrogate l = true -> codePointWidth l = 1.
Proof.
  intros H. unfold codePointWidth.
  repeat match goal with
         | |- context [if ?b then _ else _] => destruct b eqn:?
         end; try reflexivity; exfalso; bool_lia.
Qed.

Lemma low_not_high l : isLowSurrogate l = true -> isHighSurrogate l = false.
Proof.
  intros H. destruct (isHighSurrogate l) eqn:E; [exfalso; bool_lia | reflexivity].
Qed.

Lemma textWidth_cons_low l t :
  isLowSurrogate l = true -> textWidth (l :: t) = codePointWidth l + textWidth t.
Proof.
  intros H. destruct t as [|c t];
    [rewrite textWidth_one; change (textWidth []) with 0; lia|].
  rewrite textWidth_cons2, (low_not_high l H). reflexivity.
Qed.

(** The columns of a concatenation, measured by code point, never exceed
    the columns of its first part measured unit by unit plus the columns
    of its second part. *)
Lemma textWidth_app_le_n n :
  forall x y, (length x <= n)%nat ->
  textWidth (x ++ y) <= unitsWidth x + textWidth y.
Proof.
  induction n as [|n IH]; intros x y Hlen.
  - destruct x; [|simpl in Hlen; lia].
    change (unitsWidth []) with 0. cbn [app]. lia.
  - destruct x as [|h x1]; [change (unitsWidth []) with 0; cbn [app]; lia|].
    simpl in Hlen. cbn [app].
    change (unitsWidth (h :: x1)) with (codePointWidth h + unitsWidth x1).
    destruct (x1 ++ y) as [|l z'] eqn:Ez.
    + apply app_eq_nil in Ez. destruct Ez as [-> ->].
      rewrite textWidth_one.
      change (unitsWidth []) with 0. change (textWidth []) with 0. lia.
    + rewrite textWidth_cons2.
      destruct (isHighSurrogate h && isLowSurrogate l) eqn:E.
      * apply andb_prop in E. destruct E as [Eh El].
        rewrite (codePointWidth_high h Eh).
        pose proof (codePointWidth_range
                      (0x10000 + (h - 0xD800) * 0x400 + (l - 0xDC00))).
        destruct x1 as [|l' x2].
        -- cbn [app] in Ez. subst y. rewrite (textWidth_cons_low l z' El).
           rewrite (codePointWidth_low l El).
           change (unitsWidth []) with 0. lia.
        -- cbn [app] in Ez. injection Ez as -> <-.
           change (unitsWidth (l :: x2))
             with (codePointWidth l + unitsWidth x2).
           rewrite (codePointWidth_low l El).
           pose proof (IH x2 y ltac:(simpl in Hlen; lia)). lia.
      * rewrite <- Ez. pose proof (IH x1 y ltac:(lia)). lia.
Qed.

Lemma textWidth_app_le x y : textWidth (x ++ y) <= unitsWidth x + textWidth y.
Proof. apply (textWidth_app_le_n (length x)). lia. Qed.

End TruncFacts.

Import TruncFacts.

(** ** Where [truncate] cuts *)

Module CutFacts.
Import JS Width Notions JSFacts WidthFacts ScanFacts TruncFacts.

(** One iteration of both loops that does not break. *)
Lemma cutShape_step t c x' st buf res cw acc st' buf' res' cw' acc' :
  truncLoop t (c :: x') st buf res cw = truncLoop t x' st' buf' res' cw' ->
  (forall y, (exists d, x' = y ++ d) ->
     stripLoop (c :: y) st acc = stripLoop y st' acc') ->
  res' ++ pending st' buf' = res ++ pending st buf ++ [c] ->
  cw' + unitsWidth acc = cw + unitsWidth acc' ->
  cutShape t x' st' buf' res' cw' acc' -> cutShape t (c :: x') st buf res cw acc.
Proof.
  intros Ht Hs Hres Hw [(k & c0 & rest & Ex & Et & Eg & N1 & N2 & W1 & W2) | W].
  - left. exists (c :: k), c0, rest.
    assert (Hk : stripLoop (c :: k) st acc = stripLoop k st' acc')
      by (apply Hs; exists (c0 :: rest); exact Ex).
    rewrite Hk. repeat split; try assumption.
    + rewrite Ex. reflexivity.
    + rewrite Ht, Et, app_assoc, Hres. rewrite <- !app_assoc. reflexivity.
    + lia.
    + lia.
  - right.
    rewrite (Hs x') by (exists []; rewrite app_nil_r; reflexivity). lia.
Qed.

(** The iteration that closes an OSC string on [ESC \]. *)
Lemma cutShape_step2 t c c2 x'' buf res cw acc res' :
  truncLoop t (c :: c2 :: x'') OscString buf res cw
  = truncLoop t x'' Ground [] res' cw ->
  (forall y, stripLoop (c :: c2 :: y) OscString acc = stripLoop y Ground acc) ->
  res' = res ++ buf ++ [c; c2] ->
  cutShape t x'' Ground [] res' cw acc ->
  cutShape t (c :: c2 :: x'') OscString buf res cw acc.
Proof.
  intros Ht Hs Hres [(k & c0 & rest & Ex & Et & Eg & N1 & N2 & W1 & W2) | W].
  - left. exists (c :: c2 :: k), c0, rest.
    rewrite (Hs k). repeat split; try assumption.
    + rewrite Ex. reflexivity.
    + rewrite Ht, Et, Hres. cbn [pending app]. rewrite <- !app_assoc.
      reflexivity.
  - right. rewrite (Hs x''). exact W.
Qed.

Ltac step IH st' buf' res' cw' acc' :=
  eapply (cutShape_step _ _ _ _ _ _ _ _ st' buf' res' cw' acc');
  [ cbn [truncLoop]; cbv zeta; use_tests; reflexivity
  | intros ? _; cbn [stripLoop]; use_tests; reflexivity
  | list_eq
  | rewrite ?unitsWidth_app; cbn [unitsWidth fold_right]; lia
  | apply IH; try assumption; try lia; try (intros; congruence) ].

Lemma cutShape_all_n t n :
  forall x st buf res cw acc,
    (length x <= n)%nat ->
    standardEscapes x = true ->
    (st = Escape ->
     match x with d :: _ => isCsiFinal d = true | [] => True end) ->
    cw <= t ->
    cutShape t x st buf res cw acc.
Proof.
  induction n as [|n IH]; intros x st buf res cw acc Hlen Hs He Hc.
  - destruct x; [|simpl in Hlen; lia]. right. cbn [stripLoop snd]. lia.
  - destruct x as [|c x']; [right; cbn [stripLoop snd]; lia|].
    apply standardEscapes_cons in Hs. destruct Hs as [N1 [N2 [Hn Hs]]].
    simpl in Hlen.
    destruct st.
    + (* Ground *)
      destruct (c =? 27) eqn:E1.
      { step IH Escape [c] res cw acc.
        intros _. apply Hn. apply Z.eqb_eq. exact E1. }
      destruct (c =? 155) eqn:E2; [step IH CsiEntry [c] res cw acc|].
      assert (E3 : (c =? 157) = false) by (apply Z.eqb_neq; exact N2).
      destruct (cw + codePointWidth c >? t) eqn:E4.
      * left. exists [], c, x'. repeat split.
        -- cbn [truncLoop]. rewrite E1, E2. cbv zeta. rewrite E4.
           cbn [pending app]. rewrite app_nil_r. reflexivity.
        -- apply Z.eqb_neq. exact E1.
        -- apply Z.eqb_neq. exact E2.
        -- cbn [stripLoop snd]. lia.
        -- cbn [stripLoop snd]. rewrite Z.gtb_ltb in E4.
           apply Z.ltb_lt in E4. lia.
      * rewrite Z.gtb_ltb in E4. apply Z.ltb_ge in E4.
        eapply (cutShape_step _ _ _ _ _ _ _ _ Ground buf (res ++ [c])
                  (cw + codePointWidth c) (acc ++ [c]));
          [ cbn [truncLoop]; rewrite E1, E2; cbv zeta;
            rewrite Z.gtb_ltb;
            destruct (Z.ltb_spec t (cw + codePointWidth c)); [lia|];
            reflexivity
          | intros ? _; cbn [stripLoop]; rewrite E1, E2, E3; reflexivity
          | list_eq
          | rewrite unitsWidth_app; cbn [unitsWidth fold_right]; lia
          | apply IH; try assumption; try lia; intros; congruence ].
    + (* Escape *)
      specialize (He eq_refl). cbn iota in He.
      destruct (c =? 91) eqn:E1; [step IH CsiEntry (buf ++ [c]) res cw acc|].
      destruct (c =? 93) eqn:E2; [step IH OscString (buf ++ [c]) res cw acc|].
      destruct ((64 <=? c) && (c <=? 95)) eqn:E3;
        [step IH Ground (@nil Z) (res ++ buf ++ [c]) cw acc|].
      destruct ((96 <=? c) && (c <=? 126)) eqn:E4;
        [step IH Ground (@nil Z) (res ++ buf ++ [c]) cw acc|].
      exfalso. bool_lia.
    + (* CsiEntry *)
      destruct (isCsiParam c) eqn:E2.
      { assert (E1 : isCsiFinal c = false)
          by (destruct (isCsiFinal c) eqn:E; [exfalso; bool_lia | reflexivity]).
        step IH CsiParam (buf ++ [c]) res cw acc. }
      destruct (isCsiIntermediate c) eqn:E3.
      { assert (E1 : isCsiFinal c = false)
          by (destruct (isCsiFinal c) eqn:E; [exfalso; bool_lia | reflexivity]).
        step IH CsiIntermediate (buf ++ [c]) res cw acc. }
      destruct (isCsiFinal c) eqn:E1;
        [ step IH Ground (@nil Z) (res ++ buf ++ [c]) cw acc
        | step IH CsiEntry (buf ++ [c]) res cw acc ].
    + (* CsiParam *)
      destruct (isCsiIntermediate c) eqn:E3.
      { assert (E1 : isCsiFinal c = false)
          by (destruct (isCsiFinal c) eqn:E; [exfalso; bool_lia | reflexivity]).
        assert (E2 : isCsiParam c = false)
          by (destruct (isCsiParam c) eqn:E; [exfalso; bool_lia | reflexivity]).
        step IH CsiIntermediate (buf ++ [c]) res cw acc. }
      destruct (isCsiFinal c) eqn:E1;
        [ step IH Ground (@nil Z) (res ++ buf ++ [c]) cw acc |].
      destruct (isCsiParam c) eqn:E2;
        step IH CsiParam (buf ++ [c]) res cw acc.
    + (* CsiIntermediate *)
      destruct (isCsiFinal c) eqn:E1;
        [ step IH Ground (@nil Z) (res ++ buf ++ [c]) cw acc
        | step IH CsiIntermediate (buf ++ [c]) res cw acc ].
    + (* OscString *)
      destruct (c =? 7) eqn:E1.
      { eapply (cutShape_step _ _ _ _ _ _ _ _ Ground (@nil Z)
                  (res ++ buf ++ [c]) cw acc);
          [ cbn [truncLoop]; cbv zeta; rewrite E1; reflexivity
          | intros ? _; cbn [stripLoop]; rewrite E1; reflexivity
          | list_eq
          | lia
          | apply IH; try assumption; try lia; intros; congruence ]. }
      assert (E2 : (c =? 156) = false) by (apply Z.eqb_neq; exact N1).
      destruct (c =? 27) eqn:E3.
      2:{ eapply (cutShape_step _ _ _ _ _ _ _ _ OscString (buf ++ [c])
                    res cw acc);
          [ cbn [truncLoop]; cbv zeta; rewrite E1, E3; reflexivity
          | intros ? _; cbn [stripLoop]; rewrite E1, E2, E3; reflexivity
          | list_eq
          | lia
          | apply IH; try assumption; try lia; intros; congruence ]. }
      destruct x' as [|c2 x''].
      { right. cbn [stripLoop]. rewrite E1, E2, E3. cbn [orb snd]. lia. }
      destruct (c2 =? 92) eqn:E4.
      * apply standardEscapes_cons in Hs. destruct Hs as [_ [_ [_ Hs]]].
        eapply (cutShape_step2 _ _ _ _ _ _ _ _ (res ++ buf ++ [c; c2]));
          [ cbn [truncLoop]; cbv zeta; rewrite E1, E3, E4;
            rewrite <- !app_assoc; reflexivity
          | intros ?; cbn [stripLoop]; rewrite E1, E2, E3, E4; reflexivity
          | reflexivity
          | apply IH; try assumption; try (simpl in Hlen; lia);
            intros; congruence ].
      * eapply (cutShape_step _ _ _ _ _ _ _ _ OscString (buf ++ [c])
                  res cw acc);
          [ cbn [truncLoop]; cbv zeta; rewrite E1, E3, E4; reflexivity
          | intros y [d Hd]; cbn [stripLoop]; rewrite E1, E2, E3; cbn [orb];
            destruct y as [|c2' y'];
            [ reflexivity
            | injection Hd as -> _; rewrite E4; reflexivity ]
          | list_eq
          | lia
          | apply IH; try assumption; try lia; intros; congruence ].
Qed.

(** On standard escapes a string wider than the columns allowed is cut:
    the loop of [truncate] breaks at a visible code unit, and what it has
    emitted until then is the string up to that unit. *)
Lemma truncLoop_cut t s :
  0 <= t -> standardEscapes s = true -> t < stringWidth s ->
  exists kept c rest,
    s = kept ++ c :: rest /\
    truncLoop t s Ground [] [] 0 = kept /\
    endsInGround kept = true /\
    c <> 0x1b /\ c <> 0x9b /\
    unitsWidth (stripAnsi kept) <= t /\
    t < unitsWidth (stripAnsi kept) + codePointWidth c.
Proof.
  intros Ht Hs Hw.
  destruct (cutShape_all_n t (length s) s Ground [] [] 0 [] (le_n _) Hs)
    as [(k & c & rest & Ex & Et & Eg & N1 & N2 & W1 & W2) | W];
    [intros; congruence | lia | |].
  - exists k, c, rest.
    assert (Hk : standardEscapes k = true)
      by (apply (standardEscapes_prefix k (c :: rest)); rewrite <- Ex;
          exact Hs).
    rewrite (stripAnsi_loop k) by (apply standardEscapes_no_9d; exact Hk).
    change (unitsWidth []) with 0 in W1, W2.
    repeat split; try assumption; try lia.
    unfold endsInGround, scanEnd. rewrite Eg. reflexivity.
  - exfalso. change (unitsWidth []) with 0 in W.
    rewrite stringWidth_textWidth in Hw.
    rewrite (stripAnsi_loop s) in Hw by (apply standardEscapes_no_9d; exact Hs).
    pose proof (textWidth_app_le (snd (stripLoop s Ground [])) []) as L.
    rewrite app_nil_r in L. change (textWidth []) with 0 in L. lia.
Qed.

End CutFacts.

Import CutFacts.

(** The branch of [truncate] that walks the string. *)
Lemma truncate_walk s maxWidth tail :
  0 < maxWidth -> maxWidth < stringWidth s -> stringWidth tail < maxWidth ->
  truncate s maxWidth tail
  = truncLoop (maxWidth - stringWidth tail) s Ground [] [] 0 ++ tail.
Proof.
  intros H1 H2 H3. unfold truncate. cbv zeta.
  destruct (Z.leb_spec maxWidth 0); [lia|].
  destruct (Z.leb_spec (stringWidth s) maxWidth); [lia|].
  destruct (Z.leb_spec (maxWidth - stringWidth tail) 0); [lia|].
  reflexivity.
Qed.

(** The width of what [truncate] returns on its walking branch, when the
    string uses standard escapes only and the tail is free of [0x9D]. *)
Lemma truncate_walk_width t kept tail :
  0 <= t -> standardEscapes kept = true -> includes 0x9d tail = false ->
  truncLoop t kept Ground [] [] 0 = kept ->
  endsInGround kept = true /\
  stringWidth (kept ++ tail) <= t + stringWidth tail.
Proof.
  intros Ht Hk Nt Hfix.
  destruct (scanners_agree t kept Ht Hk Hfix) as [G W].
  split.
  { unfold endsInGround, scanEnd. rewrite G. reflexivity. }
  pose proof (standardEscapes_no_9d _ Hk) as Nk.
  rewrite !stringWidth_textWidth.
  rewrite (stripAnsi_loop (kept ++ tail))
    by (rewrite includes_app, Nk, Nt; reflexivity).
  rewrite stripLoop_app by exact G.
  rewrite stripLoop_snd_acc, (stripAnsi_loop tail) by exact Nt.
  pose proof (textWidth_app_le (snd (stripLoop kept Ground []))
                               (snd (stripLoop tail Ground []))).
  lia.
Qed.

(** C1, as the code has it.  [truncate] returns the empty string when
    [maxWidth <= 0] and the string itself when it fits.  When the string
    does not fit and the tail is at least [maxWidth] wide, it returns the
    first [maxWidth] code units of the tail, whatever their width.
    Otherwise it returns a prefix of the string followed by the tail; the
    prefix holds whole control runs only (the loop run on the prefix
    alone emits all of it), and when the string uses standard escapes and
    the byte [0x9D] does not occur in the tail, the result is at most
    [maxWidth] columns wide. *)
Theorem truncate_safety :
  forall s maxWidth tail,
    (maxWidth <= 0 -> truncate s maxWidth tail = []) /\
    (0 < maxWidth -> stringWidth s <= maxWidth ->
     truncate s maxWidth tail = s) /\
    (0 < maxWidth -> maxWidth < stringWidth s ->
     maxWidth <= stringWidth tail ->
     truncate s maxWidth tail = slice0 tail maxWidth) /\
    (0 < maxWidth -> maxWidth < stringWidth s ->
     stringWidth tail < maxWidth ->
     exists kept dropped,
       s = kept ++ dropped /\
       truncate s maxWidth tail = kept ++ tail /\
       truncLoop (maxWidth - stringWidth tail) kept Ground [] [] 0 = kept /\
       (standardEscapes s = true -> includes 0x9d tail = false ->
        endsInGround kept = true /\
        stringWidth (truncate s maxWidth tail) <= maxWidth)).
Proof.
  intros s maxWidth tail. split; [|split; [|split]].
  - intros H. unfold truncate.
    destruct (Z.leb_spec maxWidth 0); [reflexivity | lia].
  - intros H1 H2. unfold truncate.
    destruct (Z.leb_spec maxWidth 0); [lia|].
    destruct (Z.leb_spec (stringWidth s) maxWidth); [reflexivity | lia].
  - intros H1 H2 H3. unfold truncate. cbv zeta.
    destruct (Z.leb_spec maxWidth 0); [lia|].
    destruct (Z.leb_spec (stringWidth s) maxWidth); [lia|].
    destruct (Z.leb_spec (maxWidth - stringWidth tail) 0); [reflexivity | lia].
  - intros H1 H2 H3.
    destruct (truncLoop_prefix (maxWidth - stringWidth tail) s)
      as [kept [dropped [Hs [Hk Hfix]]]].
    exists kept, dropped.
    assert (E : truncate s maxWidth tail = kept ++ tail)
      by (rewrite truncate_walk by assumption; rewrite Hk; reflexivity).
    repeat split; try assumption.
    + destruct (truncate_walk_width (maxWidth - stringWidth tail) kept tail)
        as [G _]; try assumption; [lia|].
      apply (standardEscapes_prefix kept dropped). rewrite <- Hs. assumption.
    + rewrite E.
      destruct (truncate_walk_width (maxWidth - stringWidth tail) kept tail)
        as [_ W]; try assumption; [lia | | lia].
      apply (standardEscapes_prefix kept dropped). rewrite <- Hs. assumption.
Qed.

Lemma truncate_safety_witness :
  0 < 8 /\ 8 < stringWidth ([ESC] ++ lit "[31mhello world" ++ [ESC] ++ lit "[m")
  /\ stringWidth (lit "...") < 8
  /\ standardEscapes ([ESC] ++ lit "[31mhello world" ++ [ESC] ++ lit "[m") = true
  /\ includes 0x9d (lit "...") = false
  /\ stringWidth
       (truncate ([ESC] ++ lit "[31mhello world" ++ [ESC] ++ lit "[m") 8
                 (lit "...")) <= 8.
Proof.
  repeat (split; [reflexivity|]).
  destruct (truncate_safety
              ([ESC] ++ lit "[31mhello world" ++ [ESC] ++ lit "[m") 8
              (lit "...")) as [_ [_ [_ H]]].
  destruct H as [kept [dropped [_ [_ [_ H]]]]]; [reflexivity ..|].
  apply H; reflexivity.
Defined.

(** The claim C1 fails on the fallback branch: the raw slice of a tail of
    wide characters is wider than [maxWidth], and the raw slice of a
    styled tail stops inside its control sequence.  Nor is a wide tail
    returned when the string fits. *)
Lemma truncate_safety_counterexample :
  truncate (lit "hello") 2 [0x4F60; 0x597D] = [0x4F60; 0x597D] /\
  stringWidth (truncate (lit "hello") 2 [0x4F60; 0x597D]) = 4 /\
  ~ stringWidth (truncate (lit "hello") 2 [0x4F60; 0x597D]) <= 2 /\
  truncate (lit "hello") 2 ([ESC] ++ lit "[1m..") = [ESC; 0x5b] /\
  scanEnd (truncate (lit "hello") 2 ([ESC] ++ lit "[1m..")) = CsiEntry /\
  truncate (lit "hi") 3 (lit "......") = lit "hi".
Proof.
  repeat split; try reflexivity. vm_compute. intros H. apply H. reflexivity.
Qed.

(** C9.  When [truncate] cuts (the string is wider than [maxWidth] and
    the tail fits), the result is a prefix of the string followed at once
    by the tail: the prefix holds whole control runs only, and nothing of
    what follows the cut, control runs included, is kept.  On standard
    escapes the cut is where the first visible code unit stands that
    does not fit: the prefix ends outside any control sequence, its
    visible text fits in the columns left by the tail, and the string
    goes on with a visible code unit that would exceed them; that unit
    and all that follows it are dropped. *)
Theorem truncate_drops_after_cut :
  forall s maxWidth tail,
    0 < maxWidth -> maxWidth < stringWidth s -> stringWidth tail < maxWidth ->
    exists kept dropped,
      s = kept ++ dropped /\
      truncate s maxWidth tail = kept ++ tail /\
      truncLoop (maxWidth - stringWidth tail) kept Ground [] [] 0 = kept /\
      (standardEscapes s = true ->
       endsInGround kept = true /\
       exists c rest,
         dropped = c :: rest /\ c <> 0x1b /\ c <> 0x9b /\
         unitsWidth (stripAnsi kept) <= maxWidth - stringWidth tail /\
         maxWidth - stringWidth tail
         < unitsWidth (stripAnsi kept) + codePointWidth c).
Proof.
  intros s maxWidth tail H1 H2 H3.
  destruct (truncLoop_prefix (maxWidth - stringWidth tail) s)
    as [kept [dropped [Hs [Hk Hfix]]]].
  exists kept, dropped. split; [exact Hs|]. split.
  { rewrite truncate_walk by assumption. rewrite Hk. reflexivity. }
  split; [exact Hfix|]. intros Hstd.
  pose proof (stringWidth_nonneg tail) as Ht.
  destruct (truncLoop_cut (maxWidth - stringWidth tail) s)
    as (k & c & rest & Ex & Ek & Eg & N1 & N2 & W1 & W2);
    [lia | exact Hstd | lia |].
  rewrite Hk in Ek. subst k. split; [exact Eg|].
  exists c, rest. repeat split; try assumption.
  apply (app_inv_head kept). rewrite <- Hs. exact Ex.
Qed.

Lemma truncate_drops_after_cut_witness :
  0 < 5 /\ 5 < stringWidth ([ESC] ++ lit "[31mhello world" ++ [ESC] ++ lit "[m")
  /\ stringWidth [] < 5
  /\ standardEscapes ([ESC] ++ lit "[31mhello world" ++ [ESC] ++ lit "[m") = true
  /\ exists kept dropped,
       [ESC] ++ lit "[31mhello world" ++ [ESC] ++ lit "[m" = kept ++ dropped /\
       truncate ([ESC] ++ lit "[31mhello world" ++ [ESC] ++ lit "[m") 5 []
       = kept ++ [] /\
       truncLoop (5 - stringWidth []) kept Ground [] [] 0 = kept /\
       endsInGround kept = true /\
       exists c rest,
         dropped = c :: rest /\ c <> 0x1b /\ c <> 0x9b /\
         unitsWidth (stripAnsi kept) <= 5 - stringWidth [] /\
         5 - stringWidth [] < unitsWidth (stripAnsi kept) + codePointWidth c.
Proof.
  repeat (split; [reflexivity|]).
  destruct (truncate_drops_after_cut
              ([ESC] ++ lit "[31mhello world" ++ [ESC] ++ lit "[m") 5 [])
    as (kept & dropped & E1 & E2 & E3 & E4); [reflexivity ..|].
  exists kept, dropped. repeat (split; [assumption|]).
  apply E4. reflexivity.
Defined.

(** Outside standard escapes the two scanners part: [truncate] lets an
    [ESC] and the byte after it through without booking a column, where
    [stripAnsi] reads the pair as visible text. *)
Example truncate_literal_escape :
  truncate ([ESC] ++ lit "1" ++ [ESC] ++ lit "2" ++ [ESC] ++ lit "3abc") 3 []
  = [ESC] ++ lit "1" ++ [ESC] ++ lit "2" ++ [ESC] ++ lit "3abc" /\
  stringWidth ([ESC] ++ lit "1" ++ [ESC] ++ lit "2" ++ [ESC] ++ lit "3abc") = 6.
Proof. split; reflexivity. Qed.

(** The style reset that follows the cut is not kept. *)
Example truncate_drops_reset :
  truncate ([ESC] ++ lit "[31mhello world" ++ [ESC] ++ lit "[m") 5 []
  = [ESC] ++ lit "[31mhello".
Proof. reflexivity. Qed.

(* ===================================================================== *)
(** * Properties of the renderer                                          *)
(* ===================================================================== *)

Module StyleFacts.
Import JS Width Layout Notions JSFacts WidthFacts ScanFacts LayoutFacts.
Import Style.
Import Options.

(** Paddings that are not positive leave the text as it is. *)
Lemma applyPadding_nonpositive this whitespaceSeq str :
  paddingTop this <= 0 -> paddingRight this <= 0 ->
  paddingBottom this <= 0 -> paddingLeft this <= 0 ->
  applyPadding this whitespaceSeq str = Ok str.
Proof.
  intros Ht Hr Hb Hl. unfold applyPadding.
  destruct (Z.gtb_spec (paddingLeft this) 0); [lia|]. cbn [JS.bind].
  destruct (Z.gtb_spec (paddingRight this) 0); [lia|]. cbn [JS.bind].
  destruct (Z.gtb_spec (paddingTop this) 0); [lia|]. cbn [JS.bind].
  destruct (Z.gtb_spec (paddingBottom this) 0); [lia|]. reflexivity.
Qed.

End StyleFacts.

Import StyleFacts.

(** C2.  The mutators of the margins do not clamp: a negative margin is
    stored as it is, where the mutators of the sizes beside them store
    [0]; and the margin stage hands the negative margin to [repeat], so
    [render] raises.  A negative padding or [tabWidth] is stored as it is
    too. *)
Theorem config_boundary :
  forall parseInt16,
    Options.width (Style.width Style.style (-1)) = 0 /\
    Options.marginRight (Style.marginRight Style.style (-1)) = -1 /\
    Options.marginTop (Style.margin Style.style (-1) None None None) = -1 /\
    Options.paddingLeft (Style.paddingLeft Style.style (-2)) = -2 /\
    Options.tabWidth (Style.tabWidth Style.style (-1)) = -1 /\
    Style.render parseInt16
      (Style.marginRight (Style.marginLeft Style.style 2) (-1)) [lit "x"]
    = RangeError.
Proof. intros parseInt16. repeat split. Qed.

(** C4.  The max-width stage of [render] measures one character at a
    time, so the bytes of a control sequence count as columns and the
    cut can fall inside the sequence: a bold [hello] clamped to two
    columns comes out as the first three bytes of its [ESC [ 1 m], which
    leaves the scanner inside a control sequence.  [truncate] keeps the
    sequence whole on the same line. *)
Theorem render_maxWidth_cuts_control_run :
  forall parseInt16,
    Style.render parseInt16 (Style.maxWidth (Style.bold Style.style true) 2)
                 [lit "hello"]
    = Ok [0x1b; 0x5b; 0x31] /\
    scanEnd [0x1b; 0x5b; 0x31] = CsiParam /\
    truncate ([0x1b; 0x5b; 0x31; 0x6d] ++ lit "hello" ++ [0x1b; 0x5b; 0x6d]) 2 []
    = [0x1b; 0x5b; 0x31; 0x6d] ++ lit "he".
Proof. intros parseInt16. repeat split. Qed.

(* ===================================================================== *)
(** * Further properties of the measurements                              *)
(* ===================================================================== *)

Module MeasureFacts.
Import JS Width Notions JSFacts WidthFacts ScanFacts LayoutFacts TruncFacts.

(** Spaces in front of a string are visible text, whatever follows. *)
Lemma stripAnsi_spaces_app n s :
  stripAnsi (repeat 32 n ++ s) = repeat 32 n ++ stripAnsi s.
Proof.
  unfold stripAnsi. rewrite !includes_app.
  rewrite !includes_repeat by (unfold ESC; discriminate). cbn [orb].
  destruct (negb (includes ESC s) && negb (includes 155 s)); [reflexivity|].
  rewrite stripLoop_app.
  - rewrite (stripLoop_plain (repeat 32 n))
      by (apply includes_repeat; unfold ESC; discriminate).
    cbn [snd app]. apply stripLoop_snd_acc.
  - rewrite (stripLoop_plain (repeat 32 n))
      by (apply includes_repeat; unfold ESC; discriminate).
    reflexivity.
Qed.

Lemma last_spaces_not_high n : isHighSurrogate (last (repeat 32 n) 0) = false.
Proof.
  destruct n; [reflexivity|].
  change (repeat 32 (S n)) with ([] ++ repeat 32 (S n)).
  rewrite last_app_repeat. reflexivity.
Qed.

Lemma stringWidth_spaces_app n s :
  stringWidth (repeat 32 n ++ s) = Z.of_nat n + stringWidth s.
Proof.
  rewrite !stringWidth_textWidth, stripAnsi_spaces_app.
  rewrite textWidth_app by apply last_spaces_not_high.
  rewrite textWidth_spaces. reflexivity.
Qed.

End MeasureFacts.

Import JS Width Layout Notions JSFacts WidthFacts ScanFacts LayoutFacts.
Import TruncFacts MeasureFacts.

(** X1.  Padding on the left with spaces gives the larger of the width of
    the string and the requested width, for every string. *)
Theorem padLeft_width :
  forall s width,
    stringWidth (padLeft s width SPACE) = Z.max (stringWidth s) width.
Proof.
  intros s width. unfold padLeft. cbv zeta.
  destruct (Z.geb_spec (stringWidth s) width) as [H|H]; [lia|].
  rewrite copies_SPACE, stringWidth_spaces_app. lia.
Qed.

(** X2.  Padding on the right with spaces gives the larger of the two
    widths when the string is closed: free of [0x9D] and not ending
    inside a control sequence. *)
Theorem padRight_width :
  forall s width,
    closedLine s = true ->
    stringWidth (padRight s width SPACE) = Z.max (stringWidth s) width.
Proof.
  intros s width Hc. unfold padRight. cbv zeta.
  destruct (Z.geb_spec (stringWidth s) width) as [H|H]; [lia|].
  rewrite copies_SPACE, stringWidth_app_spaces by exact Hc. lia.
Qed.

Lemma padRight_width_witness :
  closedLine ([ESC] ++ lit "[1mhi" ++ [ESC] ++ lit "[m") = true /\
  stringWidth (padRight ([ESC] ++ lit "[1mhi" ++ [ESC] ++ lit "[m") 5 SPACE)
  = Z.max (stringWidth ([ESC] ++ lit "[1mhi" ++ [ESC] ++ lit "[m")) 5.
Proof. split; [reflexivity|]. apply padRight_width. reflexivity. Defined.

(** X3.  Centering a closed string in a wider field puts
    [floor(d / 2)] spaces on its left and the rest of the deficit [d] on
    its right, so the odd column goes right, and the result is exactly
    as wide as the field. *)
Theorem center_shape :
  forall s width,
    closedLine s = true -> stringWidth s < width ->
    exists l r : nat,
      center s width SPACE = repeat 32 l ++ s ++ repeat 32 r /\
      Z.of_nat l + Z.of_nat r = width - stringWidth s /\
      (l <= r <= l + 1)%nat /\
      stringWidth (center s width SPACE) = width.
Proof.
  intros s width Hc Hlt. unfold center. cbv zeta.
  destruct (Z.geb_spec (stringWidth s) width) as [H|H]; [lia|].
  set (d := width - stringWidth s).
  assert (Hd : 0 < d) by (unfold d; lia).
  assert (H2 : 0 <= d / 2) by (apply Z.div_pos; lia).
  assert (H3 : d = 2 * (d / 2) + d mod 2) by (apply Z.div_mod; lia).
  assert (H4 : 0 <= d mod 2 < 2) by (apply Z.mod_pos_bound; lia).
  exists (Z.to_nat (d / 2)), (Z.to_nat (d - d / 2)).
  rewrite !copies_SPACE. split; [reflexivity|]. split; [lia|]. split; [lia|].
  rewrite stringWidth_spaces_app, stringWidth_app_spaces by exact Hc. lia.
Qed.

Lemma center_shape_witness :
  closedLine (lit "hi") = true /\ stringWidth (lit "hi") < 7 /\
  exists l r : nat,
    center (lit "hi") 7 SPACE = repeat 32 l ++ lit "hi" ++ repeat 32 r /\
    Z.of_nat l + Z.of_nat r = 7 - stringWidth (lit "hi") /\
    (l <= r <= l + 1)%nat /\
    stringWidth (center (lit "hi") 7 SPACE) = 7.
Proof.
  split; [reflexivity|]. split; [reflexivity|].
  apply center_shape; reflexivity.
Defined.

Module MeasureFacts2.
Import JS Width Notions JSFacts WidthFacts ScanFacts LayoutFacts TruncFacts.

Lemma subseq_refl s : subseq s s.
Proof. induction s; constructor; assumption. Qed.

Lemma subseq_length sub s : subseq sub s -> (length sub <= length s)%nat.
Proof. induction 1; simpl; lia. Qed.

(** What the loop of [stripAnsi] emits is taken from its input, in order;
    in state [Escape] the input includes the [ESC] already read. *)
Lemma stripLoop_subseq_n n :
  forall s st, (length s <= n)%nat ->
  subseq (snd (stripLoop s st []))
         (match st with Escape => ESC :: s | _ => s end).
Proof.
  induction n as [|n IH]; intros s st Hlen.
  - destruct s; [|simpl in Hlen; lia].
    destruct st; cbn [stripLoop snd]; repeat constructor.
  - destruct s as [|c rest].
    { destruct st; cbn [stripLoop snd]; repeat constructor. }
    simpl in Hlen.
    assert (IHr : forall st', st' <> Escape ->
              subseq (snd (stripLoop rest st' [])) rest).
    { intros st' Hst. specialize (IH rest st' ltac:(lia)).
      destruct st'; try exact IH. congruence. }
    destruct st; cbn [stripLoop].
    + destruct (Z.eqb_spec c 27) as [->|E1].
      { apply (IH rest Escape). lia. }
      destruct (c =? 155); [apply subseq_skip; apply IHr; discriminate|].
      destruct (c =? 157); [apply subseq_skip; apply IHr; discriminate|].
      rewrite stripLoop_snd_acc. cbn [app]. apply subseq_keep.
      apply IHr. discriminate.
    + destruct (c =? 91); [do 2 apply subseq_skip; apply IHr; discriminate|].
      destruct (c =? 93); [do 2 apply subseq_skip; apply IHr; discriminate|].
      destruct ((64 <=? c) && (c <=? 95));
        [do 2 apply subseq_skip; apply IHr; discriminate|].
      destruct ((96 <=? c) && (c <=? 126));
        [do 2 apply subseq_skip; apply IHr; discriminate|].
      rewrite stripLoop_snd_acc. cbn [app]. do 2 apply subseq_keep.
      apply IHr. discriminate.
    + destruct (isCsiParam c); [apply subseq_skip; apply IHr; discriminate|].
      destruct (isCsiIntermediate c); [apply subseq_skip; apply IHr; discriminate|].
      destruct (isCsiFinal c); apply subseq_skip; apply IHr; discriminate.
    + destruct (isCsiIntermediate c); [apply subseq_skip; apply IHr; discriminate|].
      destruct (isCsiFinal c); apply subseq_skip; apply IHr; discriminate.
    + destruct (isCsiFinal c); apply subseq_skip; apply IHr; discriminate.
    + destruct ((c =? 7) || (c =? 156));
        [apply subseq_skip; apply IHr; discriminate|].
      destruct (c =? 27); [|apply subseq_skip; apply IHr; discriminate].
      destruct rest as [|c2 rest'].
      * cbn [stripLoop snd]. repeat constructor.
      * destruct (c2 =? 92).
        -- do 2 apply subseq_skip.
           specialize (IH rest' Ground ltac:(simpl in Hlen; lia)). exact IH.
        -- apply subseq_skip. apply IHr. discriminate.
Qed.

Lemma textWidth_le_length_n n :
  forall x, (length x <= n)%nat -> textWidth x <= 2 * Z.of_nat (length x).
Proof.
  induction n as [|n IH]; intros x Hlen.
  - destruct x; [|simpl in Hlen; lia]. change (textWidth []) with 0. simpl. lia.
  - destruct x as [|h [|l t]].
    + change (textWidth []) with 0. simpl. lia.
    + rewrite textWidth_one. pose proof (codePointWidth_range h).
      change (Z.of_nat (length [h])) with 1. lia.
    + rewrite textWidth_cons2. simpl in Hlen.
      change (length (h :: l :: t)) with (S (S (length t))).
      destruct (isHighSurrogate h && isLowSurrogate l).
      * pose proof (codePointWidth_range
                      (0x10000 + (h - 0xD800) * 0x400 + (l - 0xDC00))).
        pose proof (IH t ltac:(lia)). lia.
      * pose proof (codePointWidth_range h).
        pose proof (IH (l :: t) ltac:(simpl; lia)).
        change (length (l :: t)) with (S (length t)) in *. lia.
Qed.

(** Printable ASCII is plain text of one column per code unit. *)
Lemma printableAscii_cons c s :
  printableAscii (c :: s) = true ->
  32 <= c <= 126 /\ printableAscii s = true.
Proof.
  unfold printableAscii. cbn [forallb]. intros H.
  apply andb_prop in H. destruct H as [H1 H2].
  apply andb_prop in H1. destruct H1 as [Ha Hb].
  apply Z.leb_le in Ha, Hb. auto.
Qed.

Lemma printableAscii_includes c s :
  printableAscii s = true -> ~ 32 <= c <= 126 -> includes c s = false.
Proof.
  induction s as [|d s IH]; intros H Hc; [reflexivity|].
  apply printableAscii_cons in H. destruct H as [Hd Hs].
  change (includes c (d :: s)) with ((c =? d) || includes c s).
  rewrite (IH Hs Hc). destruct (Z.eqb_spec c d); [lia | reflexivity].
Qed.

Lemma codePointWidth_ascii c : 32 <= c <= 126 -> codePointWidth c = 1.
Proof.
  intros H. unfold codePointWidth.
  destruct (Z.ltb_spec c 32); [lia|].
  destruct (Z.leb_spec 127 c); [lia|]. cbn [andb orb].
  destruct (Z.leb_spec 32 c); [|lia].
  destruct (Z.leb_spec c 126); [|lia]. reflexivity.
Qed.

Lemma textWidth_ascii s :
  printableAscii s = true -> textWidth s = Z.of_nat (length s).
Proof.
  induction s as [|c s IH]; intros H; [reflexivity|].
  apply printableAscii_cons in H. destruct H as [Hc Hs].
  destruct s as [|d t].
  - rewrite textWidth_one, codePointWidth_ascii by exact Hc. reflexivity.
  - rewrite textWidth_cons2.
    replace (isHighSurrogate c) with false
      by (unfold isHighSurrogate; destruct (Z.leb_spec 55296 c); [lia|reflexivity]).
    cbn [andb]. rewrite codePointWidth_ascii, (IH Hs) by exact Hc.
    change (length (c :: d :: t)) with (S (length (d :: t))). lia.
Qed.

Lemma stripAnsi_ascii s : printableAscii s = true -> stripAnsi s = s.
Proof.
  intros H. unfold stripAnsi.
  rewrite !(printableAscii_includes _ s H) by (unfold ESC; lia). reflexivity.
Qed.

Lemma ascii_width s :
  printableAscii s = true -> stringWidth s = Z.of_nat (length s).
Proof.
  intros H. rewrite stringWidth_textWidth, stripAnsi_ascii by exact H.
  apply textWidth_ascii. exact H.
Qed.

(** The maximum kept by the loop of [maxLineWidth] is its start value or
    the width of one of the lines. *)
Lemma fold_maxStep_attained ls m :
  fold_left maxStep ls m = m \/
  exists l, In l ls /\ stringWidth l = fold_left maxStep ls m.
Proof.
  revert m. induction ls as [|x ls IH]; intros m; [left; reflexivity|].
  cbn [fold_left]. destruct (IH (maxStep m x)) as [E | [l [Hl E]]].
  - rewrite E. rewrite maxStep_max.
    destruct (Z.max_spec m (stringWidth x)) as [[_ ->] | [_ ->]].
    + right. exists x. split; [left; reflexivity | reflexivity].
    + left. reflexivity.
  - right. exists l. split; [right; exact Hl | exact E].
Qed.

Lemma split_length_countLF s :
  Z.of_nat (length (split LF s)) = 1 + countLF s.
Proof.
  unfold countLF. induction s as [|c t IH]; [reflexivity|].
  cbn [split filter].
  rewrite (Z.eqb_sym LF c).
  destruct (c =? LF).
  - cbn [length]. lia.
  - pose proof (split_not_nil LF t) as Hn.
    destruct (split LF t) as [|l ls]; [congruence|].
    cbn [length] in *. lia.
Qed.

End MeasureFacts2.

Import MeasureFacts2.

(** X4.  [stripAnsi] only removes: its result is the input with some
    code units left out, the others in order, so it is never longer. *)
Theorem stripAnsi_subseq :
  forall s,
    subseq (stripAnsi s) s /\ (length (stripAnsi s) <= length s)%nat.
Proof.
  intros s.
  assert (H : subseq (stripAnsi s) s).
  { unfold stripAnsi.
    destruct (negb (includes ESC s) && negb (includes 155 s));
      [apply subseq_refl|].
    apply (stripLoop_subseq_n (length s) s Ground). lia. }
  split; [exact H | apply subseq_length; exact H].
Qed.

(** X5.  A code point is 0, 1 or 2 columns wide, and a string is at
    least 0 and at most two columns per code unit wide. *)
Theorem stringWidth_bounds :
  (forall cp, codePointWidth cp = 0 \/ codePointWidth cp = 1
              \/ codePointWidth cp = 2) /\
  (forall s, 0 <= stringWidth s <= 2 * Z.of_nat (length s)).
Proof.
  split.
  - intros cp. pose proof (codePointWidth_range cp). lia.
  - intros s. split; [apply stringWidth_nonneg|].
    rewrite stringWidth_textWidth.
    pose proof (textWidth_le_length_n _ (stripAnsi s) (le_n _)).
    assert (H' : (length (stripAnsi s) <= length s)%nat).
    { apply subseq_length. unfold stripAnsi.
      destruct (negb (includes ESC s) && negb (includes 155 s));
        [apply subseq_refl|].
      apply (stripLoop_subseq_n (length s) s Ground). lia. }
    lia.
Qed.

(** X6.  On printable ASCII nothing is stripped and every code unit is
    one column: the width is the length. *)
Theorem stringWidth_ascii :
  forall s,
    printableAscii s = true ->
    stripAnsi s = s /\ stringWidth s = Z.of_nat (length s).
Proof.
  intros s H. split; [apply stripAnsi_ascii; exact H|].
  rewrite stringWidth_textWidth, stripAnsi_ascii by exact H.
  apply textWidth_ascii. exact H.
Qed.

Lemma stringWidth_ascii_witness :
  printableAscii (lit "hello world") = true /\
  stripAnsi (lit "hello world") = lit "hello world" /\
  stringWidth (lit "hello world") = Z.of_nat (length (lit "hello world")).
Proof. split; [reflexivity|]. apply stringWidth_ascii. reflexivity. Defined.

(** X7.  [maxLineWidth] is the width of the widest line: no line is
    wider, and some line is that wide. *)
Theorem maxLineWidth_attained :
  forall s,
    (forall line, In line (split LF s) -> stringWidth line <= maxLineWidth s) /\
    (exists line, In line (split LF s) /\ stringWidth line = maxLineWidth s).
Proof.
  intros s. split; [intros line; apply maxLineWidth_bound|].
  rewrite maxLineWidth_fold.
  destruct (fold_maxStep_attained (split LF s) 0) as [E | H]; [|exact H].
  pose proof (split_not_nil LF s) as Hn.
  destruct (split LF s) as [|l ls] eqn:Es; [congruence|].
  exists l. split; [left; reflexivity|].
  pose proof (fold_maxStep_bound (l :: ls) 0 l (or_introl eq_refl)).
  pose proof (stringWidth_nonneg l). lia.
Qed.

(** X8.  The height of a string is one more than its number of line
    feeds; [lineCount] is the same, except on the empty string. *)
Theorem height_counts_line_feeds :
  forall s,
    getHeight s = 1 + countLF s /\
    lineCount s = (if str_eqb s [] then 0 else 1 + countLF s) /\
    snd (getSize s) = 1 + countLF s.
Proof.
  intros s. unfold getHeight, getSize, lineCount. cbn [snd].
  rewrite split_length_countLF.
  destruct s; repeat split; reflexivity.
Qed.

Module TruncFacts2.
Import JS Width Notions JSFacts WidthFacts ScanFacts LayoutFacts TruncFacts.
Import MeasureFacts MeasureFacts2.

(** On printable ASCII the loop of [truncate] takes as many code units as
    there are columns left. *)
Lemma truncLoop_ascii t s :
  forall buf res cw,
    printableAscii s = true -> cw <= t ->
    truncLoop t s Ground buf res cw = res ++ firstn (Z.to_nat (t - cw)) s.
Proof.
  induction s as [|c s IH]; intros buf res cw H Hc.
  - cbn [truncLoop]. rewrite firstn_nil, app_nil_r. reflexivity.
  - apply printableAscii_cons in H. destruct H as [Hr Hs].
    cbn [truncLoop].
    destruct (Z.eqb_spec c 27); [lia|]. destruct (Z.eqb_spec c 155); [lia|].
    cbv zeta. rewrite codePointWidth_ascii by exact Hr.
    destruct (Z.gtb_spec (cw + 1) t) as [Hg|Hg].
    + replace (t - cw) with 0 by lia. cbn [Z.to_nat firstn].
      rewrite app_nil_r. reflexivity.
    + rewrite IH by (assumption || lia).
      replace (Z.to_nat (t - cw)) with (S (Z.to_nat (t - (cw + 1)))) by lia.
      cbn [firstn]. rewrite <- app_assoc. reflexivity.
Qed.

Lemma printableAscii_app x y :
  printableAscii x = true -> printableAscii y = true ->
  printableAscii (x ++ y) = true.
Proof.
  unfold printableAscii. intros Hx Hy. rewrite forallb_app, Hx, Hy. reflexivity.
Qed.

Lemma printableAscii_firstn k x :
  printableAscii x = true -> printableAscii (firstn k x) = true.
Proof.
  revert k. induction x as [|c x IH]; intros k H.
  - rewrite firstn_nil. reflexivity.
  - destruct k as [|k]; [reflexivity|].
    unfold printableAscii in *. cbn [firstn forallb] in *.
    apply andb_prop in H. destruct H as [H1 H2].
    rewrite H1. cbn [andb]. apply IH. exact H2.
Qed.

(** What [truncate] returns, in terms of its loop, for an empty tail. *)
Lemma truncate_cases s maxWidth :
  truncate s maxWidth [] = [] \/
  truncate s maxWidth [] = s /\ stringWidth s <= maxWidth \/
  0 < maxWidth /\ maxWidth < stringWidth s /\
  truncate s maxWidth [] = truncLoop maxWidth s Ground [] [] 0.
Proof.
  unfold truncate. cbv zeta.
  destruct (Z.leb_spec maxWidth 0); [left; reflexivity|].
  destruct (Z.leb_spec (stringWidth s) maxWidth); [right; left; auto|].
  change (stringWidth []) with 0. rewrite Z.sub_0_r.
  destruct (Z.leb_spec maxWidth 0); [lia|].
  right. right. rewrite app_nil_r. auto.
Qed.

Lemma truncate_nil maxWidth : truncate [] maxWidth [] = [].
Proof.
  unfold truncate. destruct (Z.leb_spec maxWidth 0); [reflexivity|].
  change (stringWidth []) with 0.
  destruct (Z.leb_spec 0 maxWidth); [reflexivity | lia].
Qed.

End TruncFacts2.

Import TruncFacts2.

(** X9.  On printable ASCII [truncate] is slicing: a string longer than
    [maxWidth] is cut to its first [maxWidth - length tail] characters,
    the tail is appended, and the result is exactly [maxWidth] wide. *)
Theorem truncate_ascii :
  forall s maxWidth tail,
    printableAscii s = true -> printableAscii tail = true ->
    Z.of_nat (length tail) < maxWidth -> maxWidth < Z.of_nat (length s) ->
    truncate s maxWidth tail
    = firstn (Z.to_nat (maxWidth - Z.of_nat (length tail))) s ++ tail /\
    stringWidth (truncate s maxWidth tail) = maxWidth.
Proof.
  intros s maxWidth tail Hs Ht H1 H2.
  pose proof (ascii_width s Hs) as Ws.
  pose proof (ascii_width tail Ht) as Wt.
  assert (E : truncate s maxWidth tail
              = firstn (Z.to_nat (maxWidth - Z.of_nat (length tail))) s ++ tail).
  { rewrite truncate_walk by lia.
    rewrite truncLoop_ascii by (assumption || lia).
    rewrite Wt, Z.sub_0_r. reflexivity. }
  split; [exact E|]. rewrite E.
  rewrite ascii_width
    by (apply printableAscii_app; [apply printableAscii_firstn|]; assumption).
  rewrite length_app, length_firstn. lia.
Qed.

Lemma truncate_ascii_witness :
  printableAscii (lit "hello world") = true /\
  printableAscii (lit "...") = true /\
  Z.of_nat (length (lit "...")) < 8 /\
  8 < Z.of_nat (length (lit "hello world")) /\
  truncate (lit "hello world") 8 (lit "...")
  = firstn (Z.to_nat (8 - Z.of_nat (length (lit "...")))) (lit "hello world")
    ++ lit "..." /\
  stringWidth (truncate (lit "hello world") 8 (lit "...")) = 8.
Proof.
  repeat (split; [reflexivity|]).
  apply truncate_ascii; reflexivity.
Defined.

(** X10.  Truncating twice to the same width is truncating once, for a
    string of standard escapes and an empty tail. *)
Theorem truncate_idempotent :
  forall s maxWidth,
    standardEscapes s = true ->
    truncate (truncate s maxWidth []) maxWidth [] = truncate s maxWidth [].
Proof.
  intros s maxWidth Hs.
  destruct (truncate_cases s maxWidth) as [E | [[E W] | [H1 [H2 E]]]].
  - rewrite E. apply truncate_nil.
  - rewrite E. exact E.
  - destruct (truncLoop_prefix maxWidth s) as [kept [dropped [Hk [Hl Hfix]]]].
    rewrite E, Hl.
    destruct (truncate_walk_width maxWidth kept []) as [_ W];
      try assumption; try reflexivity; [lia | |].
    { apply (standardEscapes_prefix kept dropped). rewrite <- Hk. exact Hs. }
    rewrite app_nil_r in W. change (stringWidth []) with 0 in W.
    unfold truncate.
    destruct (Z.leb_spec maxWidth 0); [lia|].
    destruct (Z.leb_spec (stringWidth kept) maxWidth); [reflexivity | lia].
Qed.

Lemma truncate_idempotent_witness :
  standardEscapes ([ESC] ++ lit "[31mhello world" ++ [ESC] ++ lit "[m") = true
  /\ truncate
       (truncate ([ESC] ++ lit "[31mhello world" ++ [ESC] ++ lit "[m") 5 [])
       5 []
     = truncate ([ESC] ++ lit "[31mhello world" ++ [ESC] ++ lit "[m") 5 [].
Proof. split; [reflexivity|]. apply truncate_idempotent. reflexivity. Defined.

(** X11.  Truncation keeps a prefix of the visible text: for a string of
    standard escapes, the visible text of the truncated string (empty
    tail) starts the visible text of the string. *)
Theorem truncate_visible_prefix :
  forall s maxWidth,
    standardEscapes s = true ->
    exists rest,
      stripAnsi s = stripAnsi (truncate s maxWidth []) ++ rest.
Proof.
  intros s maxWidth Hs.
  destruct (truncate_cases s maxWidth) as [E | [[E W] | [H1 [H2 E]]]].
  - rewrite E. exists (stripAnsi s). reflexivity.
  - rewrite E. exists []. rewrite app_nil_r. reflexivity.
  - destruct (truncLoop_prefix maxWidth s) as [kept [dropped [Hk [Hl Hfix]]]].
    rewrite E, Hl.
    assert (Sk : standardEscapes kept = true)
      by (apply (standardEscapes_prefix kept dropped); rewrite <- Hk; exact Hs).
    destruct (scanners_agree maxWidth kept) as [G _]; try assumption; [lia|].
    pose proof (standardEscapes_no_9d _ Hs) as Ns.
    pose proof (standardEscapes_no_9d _ Sk) as Nk.
    exists (snd (stripLoop dropped Ground [])).
    rewrite (stripAnsi_loop s Ns), (stripAnsi_loop kept Nk).
    rewrite Hk at 1. rewrite stripLoop_app by exact G.
    apply stripLoop_snd_acc.
Qed.

Lemma truncate_visible_prefix_witness :
  standardEscapes ([ESC] ++ lit "[31mhello world" ++ [ESC] ++ lit "[m") = true
  /\ exists rest,
       stripAnsi ([ESC] ++ lit "[31mhello world" ++ [ESC] ++ lit "[m")
       = stripAnsi
           (truncate ([ESC] ++ lit "[31mhello world" ++ [ESC] ++ lit "[m") 5 [])
         ++ rest.
Proof. split; [reflexivity|]. apply truncate_visible_prefix. reflexivity. Defined.

(* ===================================================================== *)
(** * Further properties of the compositor                                *)
(* ===================================================================== *)

Module LayoutFacts2.
Import JS Width Layout Notions JSFacts WidthFacts ScanFacts LayoutFacts.
Import MeasureFacts MeasureFacts2.

Lemma fold_max_ge xs m : m <= fold_left Z.max xs m.
Proof.
  revert m. induction xs as [|x xs IH]; intros m; simpl; [lia|].
  specialize (IH (Z.max m x)). lia.
Qed.

Lemma fold_max_bound xs m x : In x xs -> x <= fold_left Z.max xs m.
Proof.
  revert m. induction xs as [|y xs IH]; intros m Hin; [destruct Hin|].
  simpl. destruct Hin as [->|Hin]; [|apply IH; exact Hin].
  pose proof (fold_max_ge xs (Z.max m x)). lia.
Qed.

Lemma max_list_bound xs x : In x xs -> x <= max_list xs.
Proof.
  destruct xs as [|y xs]; intros Hin; [destruct Hin|].
  unfold max_list. destruct Hin as [->|Hin].
  - apply fold_max_ge.
  - apply fold_max_bound. exact Hin.
Qed.

Lemma nth_nonneg (ws : list Z) i :
  Forall (fun w => 0 <= w) ws -> 0 <= nth i ws 0.
Proof.
  intros H. revert i. induction H as [|w ws Hw _ IH]; intros i.
  - destruct i; simpl; lia.
  - destruct i; simpl; [exact Hw | apply IH].
Qed.

(** An indexed [map] whose callback succeeds on every element and index
    succeeds. *)
Lemma mapMi_Forall2 {A B} (f : A -> nat -> result B) (R : A -> B -> Prop) l :
  (forall i x, In x l -> exists y, f x i = Ok y /\ R x y) ->
  exists ys, mapMi f l = Ok ys /\ Forall2 R l ys.
Proof.
  unfold mapMi. generalize 0%nat.
  induction l as [|x l IH]; intros k H.
  - exists []. split; [reflexivity | constructor].
  - destruct (H k x (or_introl eq_refl)) as [y [Hy HR]].
    destruct (IH (S k)) as [ys [Hys HRs]].
    { intros i z Hz. apply H. right. exact Hz. }
    exists (y :: ys). cbn [length seq combine mapM fst snd].
    rewrite Hy. cbn [JS.bind]. rewrite Hys. cbn [JS.bind].
    split; [reflexivity | constructor; assumption].
Qed.

Lemma Forall2_Forall_r {A B} (R : A -> B -> Prop) (P : B -> Prop) l l' :
  Forall2 R l l' -> (forall x y, In x l -> R x y -> P y) -> Forall P l'.
Proof.
  induction 1 as [|x y l l' Hxy _ IH]; intros H; constructor.
  - apply (H x y); [left; reflexivity | exact Hxy].
  - apply IH. intros a b Ha. apply H. right. exact Ha.
Qed.

(** [joinHorizontal] returns on every list of blocks, and its rows are
    as many as the tallest block has lines. *)
Lemma joinHorizontal_rows position a b rest :
  let strs := a :: b :: rest in
  let H := max_list (map getHeight strs) in
  exists rows,
    joinHorizontal position strs = Ok (join NL rows) /\
    Z.of_nat (length rows) = H /\ 1 <= H /\
    Forall (fun l => ~ In LF l) rows.
Proof.
  cbv zeta. unfold joinHorizontal.
  set (strs := a :: b :: rest).
  set (allLines := map (split LF) strs).
  set (H := max_list (map (fun lines => Z.of_nat (length lines)) allLines)).
  set (widths := map (fun lines => maxLineWidth (join NL lines)) allLines).
  assert (EH : max_list (map getHeight strs) = H).
  { unfold H, allLines. rewrite map_map. reflexivity. }
  rewrite EH.
  assert (Hw : Forall (fun w => 0 <= w) widths).
  { unfold widths. apply Forall_forall. intros w Hin.
    apply in_map_iff in Hin. destruct Hin as [ls [<- _]].
    apply maxLineWidth_nonneg. }
  destruct (mapMi_Forall2 (alignBlock position H widths)
              (fun _ out => rowsOf H out) allLines) as [A [EA FA]].
  { intros i lines Hin.
    destruct (alignBlock_ok position H widths lines i) as [out [E [L F]]].
    - apply nth_nonneg. exact Hw.
    - unfold H. apply max_list_bound.
      apply (in_map (fun ls : list jsstring => Z.of_nat (length ls))).
      exact Hin.
    - exists out. split; [exact E|]. split; [exact L|].
      unfold allLines in Hin. apply in_map_iff in Hin.
      destruct Hin as [s [<- _]].
      rewrite Forall_forall in *. intros l Hl.
      eapply fromBlock_no_LF. apply F. exact Hl. }
  assert (HA : Forall (rowsOf H) A).
  { eapply Forall2_Forall_r; [exact FA|]. intros x y _ Hy. exact Hy. }
  destruct (mapMi_Forall2 (padBlock widths)
              (fun _ out => rowsOf H out) A) as [P [EP FP]].
  { intros i lines Hin. rewrite Forall_forall in HA.
    destruct (HA lines Hin) as [L F].
    eexists. split; [reflexivity|]. split.
    - rewrite length_map. exact L.
    - rewrite Forall_forall in *. intros l Hl. apply in_map_iff in Hl.
      destruct Hl as [l0 [<- Hl0]]. apply padRight_no_LF. apply F. exact Hl0. }
  assert (HP : Forall (rowsOf H) P).
  { eapply Forall2_Forall_r; [exact FP|]. intros x y _ Hy. exact Hy. }
  change (match strs with
          | [] => Ok []
          | [s] => Ok s
          | s :: _ :: _ =>
              JS.bind (mapMi (alignBlock position H widths) allLines)
                (fun alignedLines =>
                   JS.bind (mapMi (padBlock widths) alignedLines)
                     (fun paddedLines =>
                        Ok (join NL (map (joinRow paddedLines)
                                         (seq 0 (Z.to_nat H))))))
          end)
    with (JS.bind (mapMi (alignBlock position H widths) allLines)
            (fun alignedLines =>
               JS.bind (mapMi (padBlock widths) alignedLines)
                 (fun paddedLines =>
                    Ok (join NL (map (joinRow paddedLines)
                                     (seq 0 (Z.to_nat H))))))).
  rewrite EA. cbn [JS.bind]. rewrite EP. cbn [JS.bind].
  assert (H1 : 1 <= H).
  { pose proof (max_list_bound
                  (map (fun lines => Z.of_nat (length lines)) allLines)
                  (Z.of_nat (length (split LF a)))) as Hb.
    pose proof (split_length_pos LF a).
    unfold H. specialize (Hb (or_introl eq_refl)). lia. }
  eexists. split; [reflexivity|].
  rewrite length_map, length_seq. split; [lia|]. split; [exact H1|].
  apply Forall_forall. intros row Hin. apply in_map_iff in Hin.
  destruct Hin as [i [<- _]]. unfold joinRow. intros Hc.
  apply in_concat in Hc. destruct Hc as [l [Hl Hc]].
  apply in_map_iff in Hl. destruct Hl as [lines [<- Hlines]].
  rewrite Forall_forall in HP. destruct (HP lines Hlines) as [_ F].
  destruct (nth_in_or_default i lines []) as [Hi | Hd].
  - rewrite Forall_forall in F. exact (F _ Hi Hc).
  - rewrite Hd in Hc. destruct Hc.
Qed.

(** ** [joinVertical] on any number of blocks *)

Lemma Forall2_exists_map {A B C} (g : C -> B) (Q : A -> C -> Prop) l ys :
  Forall2 (fun x y => exists z, y = g z /\ Q x z) l ys ->
  exists zs, ys = map g zs /\ Forall2 Q l zs.
Proof.
  induction 1 as [|x y l ys [z [-> Hz]] _ [zs [-> Hzs]]].
  - exists []. split; [reflexivity | constructor].
  - exists (z :: zs). split; [reflexivity | constructor; assumption].
Qed.

Lemma Forall2_concat {A B} (R : A -> B -> Prop) ls ls' :
  Forall2 (Forall2 R) ls ls' -> Forall2 R (concat ls) (concat ls').
Proof.
  induction 1; cbn [concat]; [constructor|]. apply Forall2_app; assumption.
Qed.

Lemma concat_not_nil {A} (l : list A) ls :
  l <> [] -> concat (l :: ls) <> [].
Proof. destruct l; [congruence | discriminate]. Qed.

(** Joining blocks that were joined from lines is joining all the lines. *)
Lemma join_concat sep lss :
  Forall (fun ls => ls <> []) lss ->
  join sep (map (join sep) lss) = join sep (concat lss).
Proof.
  induction 1 as [|ls lss Hls Hall IH]; [reflexivity|].
  destruct lss as [|ls' lss'].
  - cbn [map concat join]. rewrite app_nil_r. reflexivity.
  - change (join sep (map (join sep) (ls :: ls' :: lss')))
      with (join sep ls ++ sep ++ join sep (map (join sep) (ls' :: lss'))).
    rewrite IH. cbn [concat]. symmetry. apply join_app; [exact Hls|].
    inversion Hall; subst. apply concat_not_nil. assumption.
Qed.

(** The shape of a vertical join, for any property [R] the alignment of
    a line establishes on lines that satisfy [P]. *)
Lemma joinVertical_gen position a b rest
      (P : jsstring -> Prop) (R : jsstring -> jsstring -> Prop) :
  let strs := a :: b :: rest in
  let M := max_list (map getWidth strs) in
  (forall line, P line -> stringWidth line <= M ->
     exists out, alignLine position M line = Ok out /\ R line out) ->
  (forall l o, R l o -> ~ In LF l -> ~ In LF o) ->
  Forall (fun s => Forall P (split LF s)) strs ->
  exists r,
    joinVertical position strs = Ok r /\
    Forall2 R (concat (map (split LF) strs)) (split LF r).
Proof.
  cbv zeta. intros HR HLF HP.
  set (strs := a :: b :: rest) in *.
  set (M := max_list (map getWidth strs)) in *.
  destruct (mapM_Forall2 (alignLines position M)
              (fun s y => exists ls, y = join NL ls
                                     /\ Forall2 R (split LF s) ls) strs)
    as [ys [Eys Fys]].
  { intros s Hs. unfold alignLines. cbv zeta.
    destruct (mapM_Forall2 (alignLine position M) R (split LF s))
      as [ls [Els Fls]].
    - intros line Hin. apply HR.
      + rewrite Forall_forall in HP. specialize (HP s Hs).
        rewrite Forall_forall in HP. apply HP. exact Hin.
      + pose proof (maxLineWidth_bound s line Hin).
        pose proof (max_list_bound (map getWidth strs) (getWidth s)
                      (in_map getWidth strs s Hs)).
        unfold getWidth in *. fold M in H0. lia.
    - rewrite Els. cbn [JS.bind]. exists (join NL ls). split; [reflexivity|].
      exists ls. auto. }
  apply Forall2_exists_map in Fys. destruct Fys as [lss [-> Flss]].
  assert (Hne : Forall (fun ls : list jsstring => ls <> []) lss).
  { eapply Forall2_Forall_r; [exact Flss|]. intros s ls _ F ->.
    inversion F as [E|]. symmetry in E. revert E. apply split_not_nil. }
  assert (HnoLF : Forall (fun l => ~ In LF l) (concat lss)).
  { apply Forall_concat. eapply Forall2_Forall_r; [exact Flss|].
    intros s ls _ F. eapply Forall2_Forall_r; [exact F|].
    intros l o Hl Hlo. apply (HLF l o Hlo).
    pose proof (split_no_sep LF s) as Hs. rewrite Forall_forall in Hs.
    apply Hs. exact Hl. }
  assert (Hc : concat lss <> []).
  { destruct lss as [|ls lss']; [inversion Flss|].
    inversion Hne; subst. apply concat_not_nil. assumption. }
  exists (join NL (map (join NL) lss)). split.
  { change (JS.bind (mapM (alignLines position M) strs)
                    (fun aligned => Ok (join NL aligned))
            = Ok (join NL (map (join NL) lss))).
    rewrite Eys. reflexivity. }
  rewrite join_concat by exact Hne.
  rewrite split_join by assumption.
  apply Forall2_concat.
  clear - Flss. induction Flss; cbn [map]; constructor; assumption.
Qed.

(** The alignment of a closed line no wider than the common width gives
    a line of exactly that width. *)
Lemma alignLine_exact position maxWidth line :
  closedLine line = true -> stringWidth line <= maxWidth ->
  exists out,
    alignLine position maxWidth line = Ok out /\
    (paddedFrom line out /\ stringWidth out = maxWidth).
Proof.
  intros Hc Hw.
  destruct (alignLine_ok position maxWidth line Hw) as [out [E Hp]].
  exists out. split; [exact E|]. split; [exact Hp|].
  revert E. unfold alignLine. cbv zeta.
  destruct (Z.eqb_spec (stringWidth line) maxWidth) as [Heq|Hne].
  { intros E. injection E as <-. exact Heq. }
  destruct (num_le position 0%Q).
  { intros E. injection E as <-.
    pose proof (padRight_exact line maxWidth Hc Hw). tauto. }
  assert (Hd : 0 <= maxWidth - stringWidth line) by lia.
  assert (H2 : 0 <= (maxWidth - stringWidth line) / 2)
    by (apply Z.div_pos; lia).
  assert (H3 : (maxWidth - stringWidth line) / 2 <= maxWidth - stringWidth line)
    by (apply Z.div_le_upper_bound; lia).
  destruct (num_le 1%Q position).
  { rewrite str_repeat_ok by lia. cbn [JS.bind]. intros E. injection E as <-.
    rewrite copies_SPACE, stringWidth_spaces_app. lia. }
  rewrite !str_repeat_ok by lia. cbn [JS.bind]. intros E. injection E as <-.
  rewrite !copies_SPACE, stringWidth_spaces_app, stringWidth_app_spaces
    by exact Hc.
  lia.
Qed.

Lemma sum_heights strs (lss : list (list jsstring)) :
  Forall2 (fun s ls => length (split LF s) = length ls) strs lss ->
  Z.of_nat (length (concat lss)) = sumZ (map getHeight strs).
Proof.
  induction 1 as [|s ls strs lss E _ IH]; [reflexivity|].
  cbn [concat map sumZ fold_right]. fold (sumZ (map getHeight strs)).
  rewrite length_app, Nat2Z.inj_add, IH. unfold getHeight. rewrite E. reflexivity.
Qed.

End LayoutFacts2.

Import LayoutFacts2.

(** X12.  [joinHorizontal] returns for every position and every list of
    blocks, and for a non-empty list the height of the result is the
    height of the tallest block. *)
Theorem joinHorizontal_height :
  forall position strs, exists r,
    joinHorizontal position strs = Ok r /\
    (strs <> [] -> getHeight r = max_list (map getHeight strs)).
Proof.
  intros position [|a [|b rest]].
  - exists []. split; [reflexivity | congruence].
  - exists a. split; reflexivity.
  - destruct (joinHorizontal_rows position a b rest)
      as [rows [E [L [H1 F]]]].
    exists (join NL rows). split; [exact E|]. intros _.
    unfold getHeight at 1. rewrite split_join; [exact L | | exact F].
    destruct rows; [cbn [length] in L; lia | discriminate].
Qed.

Lemma joinHorizontal_height_witness :
  exists r,
    joinHorizontal (1 # 2)%Q
      [lit "a"; lit "b1" ++ NL ++ lit "b2" ++ NL ++ lit "b3"; lit "c"] = Ok r /\
    getHeight r = 3.
Proof.
  destruct (joinHorizontal_height (1 # 2)%Q
              [lit "a"; lit "b1" ++ NL ++ lit "b2" ++ NL ++ lit "b3"; lit "c"])
    as [r [E H]].
  exists r. split; [exact E|]. apply H. discriminate.
Defined.

(** X13.  [joinVertical] returns for every position and every list of
    blocks; for a non-empty list the height of the result is the sum of
    the heights, and its lines are the lines of the blocks in order,
    each only extended with spaces. *)
Theorem joinVertical_stack :
  forall position strs, exists r,
    joinVertical position strs = Ok r /\
    (strs <> [] ->
     getHeight r = sumZ (map getHeight strs) /\
     Forall2 paddedFrom (concat (map (split LF) strs)) (split LF r)).
Proof.
  intros position [|a [|b rest]].
  - exists []. split; [reflexivity | congruence].
  - exists a. split; [reflexivity|]. intros _. split.
    + cbn [map sumZ fold_right]. lia.
    + cbn [map concat]. rewrite app_nil_r.
      induction (split LF a); constructor;
        [apply paddedFrom_refl | assumption].
  - pose proof (joinVertical_gen position a b rest (fun _ => True) paddedFrom)
      as G.
    cbv zeta in G. destruct G as [r [E F]].
    + intros line _ Hw. apply alignLine_ok. exact Hw.
    + intros l o. apply paddedFrom_no_LF.
    + apply Forall_forall. intros s _. apply Forall_forall. auto.
    + exists r. split; [exact E|]. intros _. split; [|exact F].
      unfold getHeight at 1. rewrite <- (Forall2_length_eq _ _ _ F).
      apply sum_heights. clear.
      generalize (a :: b :: rest). intros l.
      induction l; cbn [map]; constructor; auto.
Qed.

Lemma joinVertical_stack_witness :
  exists r,
    joinVertical 1%Q [lit "hi"; lit "x" ++ NL ++ lit "hello"; lit "yo"] = Ok r /\
    getHeight r = 4.
Proof.
  destruct (joinVertical_stack 1%Q
              [lit "hi"; lit "x" ++ NL ++ lit "hello"; lit "yo"])
    as [r [E H]].
  exists r. split; [exact E|]. apply H. discriminate.
Defined.

(** X14.  A vertical join of two or more blocks of closed lines is a
    rectangle: every line of the result is as wide as the widest block,
    which is the width of the result. *)
Theorem joinVertical_rectangle :
  forall position a b rest,
    forallb closedBlock (a :: b :: rest) = true ->
    exists r,
      joinVertical position (a :: b :: rest) = Ok r /\
      Forall (fun line =>
                stringWidth line = max_list (map getWidth (a :: b :: rest)))
             (split LF r) /\
      getWidth r = max_list (map getWidth (a :: b :: rest)).
Proof.
  intros position a b rest Hc.
  set (M := max_list (map getWidth (a :: b :: rest))).
  pose proof (joinVertical_gen position a b rest
                (fun l => closedLine l = true)
                (fun l o => paddedFrom l o /\ stringWidth o = M)) as G.
  cbv zeta in G. fold M in G. destruct G as [r [E F]].
  - intros line Hl Hw. apply alignLine_exact; assumption.
  - intros l o [Hp _]. apply paddedFrom_no_LF. exact Hp.
  - rewrite forallb_forall in Hc. apply Forall_forall. intros s Hs.
    specialize (Hc s Hs). unfold closedBlock in Hc.
    rewrite forallb_forall in Hc. apply Forall_forall. exact Hc.
  - exists r. split; [exact E|].
    assert (HF : Forall (fun line => stringWidth line = M) (split LF r)).
    { eapply Forall2_Forall_r; [exact F|]. intros x y _ [_ Hy]. exact Hy. }
    split; [exact HF|].
    unfold getWidth at 1. rewrite maxLineWidth_fold.
    apply fold_maxStep_const; [|apply split_not_nil | exact HF].
    pose proof (max_list_bound (map getWidth (a :: b :: rest)) (getWidth a)
                  (or_introl eq_refl)).
    pose proof (maxLineWidth_nonneg a). unfold getWidth in *. fold M in H. lia.
Qed.

Lemma joinVertical_rectangle_witness :
  forallb closedBlock
    [[ESC] ++ lit "[1mhi" ++ [ESC] ++ lit "[m"; lit "hello" ++ NL ++ lit "x"]
  = true /\
  exists r,
    joinVertical (1 # 2)%Q
      [[ESC] ++ lit "[1mhi" ++ [ESC] ++ lit "[m"; lit "hello" ++ NL ++ lit "x"]
    = Ok r /\
    Forall (fun line =>
              stringWidth line
              = max_list
                  (map getWidth
                     [[ESC] ++ lit "[1mhi" ++ [ESC] ++ lit "[m";
                      lit "hello" ++ NL ++ lit "x"]))
           (split LF r) /\
    getWidth r
    = max_list
        (map getWidth
           [[ESC] ++ lit "[1mhi" ++ [ESC] ++ lit "[m";
            lit "hello" ++ NL ++ lit "x"]).
Proof.
  split; [reflexivity|]. apply joinVertical_rectangle. reflexivity.
Defined.

Module PlaceFacts.
Import JS Width Layout Notions JSFacts WidthFacts ScanFacts LayoutFacts.
Import MeasureFacts LayoutFacts2.






End PlaceFacts.

Import PlaceFacts.



Module PlaceFacts2.
Import JS Width Layout Notions JSFacts WidthFacts ScanFacts LayoutFacts.
Import MeasureFacts LayoutFacts2 PlaceFacts.





End PlaceFacts2.

Import PlaceFacts2.



(* ===================================================================== *)
(** * The escape sequences the renderer writes                            *)
(* ===================================================================== *)

Module SgrFacts.
Import JS Width Layout Notions JSFacts WidthFacts ScanFacts LayoutFacts.
Import MeasureFacts.
Import Style.
Import Options.

Lemma sgrByte_tests c :
  sgrByte c = true ->
  isCsiFinal c = false /\ 0x2d <= c <= 0x3b.
Proof.
  unfold sgrByte, isCsiFinal. intros H.
  apply orb_prop in H. destruct H as [H|H].
  - apply orb_prop in H. destruct H as [H|H]; apply Z.eqb_eq in H; subst;
      split; [reflexivity | lia | reflexivity | lia].
  - apply andb_prop in H. destruct H as [H1 H2].
    apply Z.leb_le in H1. apply Z.leb_le in H2.
    split; [|lia].
    destruct (Z.leb_spec 0x40 c); [lia | reflexivity].
Qed.

(** Inside a CSI sequence the scanner reads a body up to the final [m]
    and emits nothing. *)
Lemma stripLoop_body body :
  forallb sgrByte body = true ->
  forall st rest acc,
    st = CsiEntry \/ st = CsiParam \/ st = CsiIntermediate ->
    stripLoop (body ++ 0x6d :: rest) st acc = stripLoop rest Ground acc.
Proof.
  induction body as [|c body IH]; intros Hb st rest acc Hst.
  - destruct Hst as [->|[->| ->]]; reflexivity.
  - cbn [forallb] in Hb. apply andb_prop in Hb. destruct Hb as [Hc Hb].
    destruct (sgrByte_tests c Hc) as [Hf _].
    cbn [app].
    destruct Hst as [->|[->| ->]]; cbn [stripLoop]; rewrite ?Hf;
      repeat match goal with
             | |- context [if ?b then _ else _] => destruct b
             end;
      apply IH; auto.
Qed.

Lemma stripLoop_CSI s acc :
  stripLoop (CSI ++ s) Ground acc = stripLoop s CsiEntry acc.
Proof. reflexivity. Qed.

(** The scanner reads a run of such sequences and emits nothing. *)
Lemma sgr_loop x :
  sgr x -> forall rest acc,
  stripLoop (x ++ rest) Ground acc = stripLoop rest Ground acc.
Proof.
  induction 1 as [|body tl Hb _ IH]; intros rest acc; [reflexivity|].
  rewrite <- !app_assoc. rewrite stripLoop_CSI.
  cbn [app]. rewrite stripLoop_body by auto. apply IH.
Qed.

Lemma sgr_bytes x : sgr x -> forall c, In c x -> 0x1b <= c <= 0x6d.
Proof.
  induction 1 as [|body tl Hb _ IH]; intros c Hin; [destruct Hin|].
  unfold CSI in Hin. cbn [app] in Hin.
  destruct Hin as [<-|[<-|Hin]]; [lia | lia |].
  apply in_app_or in Hin. destruct Hin as [Hin|[<-|Hin]].
  - rewrite forallb_forall in Hb.
    destruct (sgrByte_tests c (Hb c Hin)) as [_ Hr]. lia.
  - lia.
  - apply IH. exact Hin.
Qed.

Lemma includes_false c x : (forall d, In d x -> d <> c) -> includes c x = false.
Proof.
  intros H. unfold includes. induction x as [|d x IH]; [reflexivity|].
  cbn [existsb]. rewrite IH by (intros e He; apply H; right; exact He).
  destruct (Z.eqb_spec c d) as [E|_]; [|reflexivity].
  exfalso. apply (H d); [left; reflexivity | congruence].
Qed.

Lemma sgr_no_9d x : sgr x -> includes 0x9d x = false.
Proof.
  intros H. apply includes_false. intros d Hd.
  pose proof (sgr_bytes x H d Hd). lia.
Qed.

Lemma sgr_no_LF x : sgr x -> ~ In LF x.
Proof. intros H Hin. pose proof (sgr_bytes x H LF Hin). unfold LF in *. lia. Qed.

Lemma sgr_closed x : sgr x -> closedLine x = true.
Proof.
  intros H. apply closedLine_intro; [apply sgr_no_9d; exact H|].
  rewrite <- (app_nil_r x), sgr_loop by exact H. reflexivity.
Qed.

Lemma sgr_stripAnsi x : sgr x -> stripAnsi x = [].
Proof.
  intros H. rewrite stripAnsi_loop by (apply sgr_no_9d; exact H).
  rewrite <- (app_nil_r x), sgr_loop by exact H. reflexivity.
Qed.

(** Such a run in front of a string, or behind a closed line, changes
    no visible text. *)
Lemma sgr_prefix x line :
  sgr x -> includes 0x9d line = false ->
  stripAnsi (x ++ line) = stripAnsi line.
Proof.
  intros H Hl.
  destruct (stripAnsi_app x line (sgr_closed x H) Hl) as [E _].
  rewrite E, sgr_stripAnsi by exact H. reflexivity.
Qed.

Lemma sgr_suffix x line :
  sgr x -> closedLine line = true ->
  stripAnsi (line ++ x) = stripAnsi line.
Proof.
  intros H Hl.
  destruct (stripAnsi_app line x Hl (sgr_no_9d x H)) as [E _].
  rewrite E, (sgr_stripAnsi x H). apply app_nil_r.
Qed.

Lemma sgr_app x y : sgr x -> sgr y -> sgr (x ++ y).
Proof.
  induction 1 as [|body tl Hb _ IH]; intros Hy; [exact Hy|].
  rewrite <- !app_assoc. cbn [app]. apply sgr_seq; auto.
Qed.

Lemma sgr_one body : forallb sgrByte body = true -> sgr (CSI ++ body ++ lit "m").
Proof. intros H. apply (sgr_seq body [] H sgr_nil). Qed.

Lemma sgr_RESET : sgr RESET.
Proof. apply (sgr_one []). reflexivity. Qed.

(** Printed integers are digits, after a sign when negative. *)
Lemma string_of_uint_digits d :
  forallb sgrByte (lit (DecimalString.NilEmpty.string_of_uint d)) = true.
Proof. induction d; [reflexivity | exact IHd ..]. Qed.

Lemma numToString_body n : forallb sgrByte (numToString n) = true.
Proof.
  unfold numToString, DecimalString.NilZero.string_of_int.
  destruct (Z.to_int n) as [d|d];
    unfold DecimalString.NilZero.string_of_uint;
    destruct d; try reflexivity;
    try apply (string_of_uint_digits (Decimal.D0 d));
    try apply (string_of_uint_digits (Decimal.D1 d)).
Qed.

Section Sequences.
Variable parseInt16 : jsstring -> option Z.

Ltac sgr_body :=
  rewrite ?forallb_app, ?numToString_body; reflexivity.

Lemma colorToSequence_sgr color isForeground :
  sgr (colorToSequence parseInt16 color isForeground).
Proof.
  unfold colorToSequence. cbv zeta.
  destruct color as [hex | code | r g b].
  - match goal with
    | |- sgr (CSI ++ ?a ++ ?b ++ ?c ++ ?d ++ ?e ++ ?f ++ ?g ++ lit "m") =>
        replace (CSI ++ a ++ b ++ c ++ d ++ e ++ f ++ g ++ lit "m")
          with (CSI ++ (a ++ b ++ c ++ d ++ e ++ f ++ g) ++ lit "m")
          by (rewrite <- !app_assoc; reflexivity)
    end.
    apply sgr_one. sgr_body.
  - destruct (code <? 16).
    + apply sgr_one. apply numToString_body.
    + match goal with
      | |- sgr (CSI ++ ?a ++ ?b ++ ?c ++ lit "m") =>
          replace (CSI ++ a ++ b ++ c ++ lit "m")
            with (CSI ++ (a ++ b ++ c) ++ lit "m")
            by (rewrite <- !app_assoc; reflexivity)
      end.
      apply sgr_one. sgr_body.
  - match goal with
    | |- sgr (CSI ++ ?a ++ ?b ++ ?c ++ ?d ++ ?e ++ ?f ++ ?g ++ lit "m") =>
        replace (CSI ++ a ++ b ++ c ++ d ++ e ++ f ++ g ++ lit "m")
          with (CSI ++ (a ++ b ++ c ++ d ++ e ++ f ++ g) ++ lit "m")
          by (rewrite <- !app_assoc; reflexivity)
    end.
    apply sgr_one. sgr_body.
Qed.

Lemma buildStyleSequence_sgr this : sgr (buildStyleSequence parseInt16 this).
Proof.
  unfold buildStyleSequence. cbv zeta.
  assert (A : sgr
    (if 0 <? Z.of_nat (length
          ((if bold this then [lit "1"] else [])
           ++ (if faint this then [lit "2"] else [])
           ++ (if italic this then [lit "3"] else [])
           ++ (if underline this then [lit "4"] else [])
           ++ (if blink this then [lit "5"] else [])
           ++ (if reverse this then [lit "7"] else [])
           ++ (if strikethrough this then [lit "9"] else [])))
     then CSI ++ join (lit ";")
          ((if bold this then [lit "1"] else [])
           ++ (if faint this then [lit "2"] else [])
           ++ (if italic this then [lit "3"] else [])
           ++ (if underline this then [lit "4"] else [])
           ++ (if blink this then [lit "5"] else [])
           ++ (if reverse this then [lit "7"] else [])
           ++ (if strikethrough this then [lit "9"] else []))
          ++ lit "m"
     else [])).
  { destruct (bold this), (faint this), (italic this), (underline this),
      (blink this), (reverse this), (strikethrough this);
      first [ exact sgr_nil | apply sgr_one; reflexivity ]. }
  destruct (foreground this) as [c|], (background this) as [c'|];
    repeat apply sgr_app; try exact A; apply colorToSequence_sgr.
Qed.

Lemma buildWhitespaceSequence_sgr this :
  sgr (buildWhitespaceSequence parseInt16 this).
Proof.
  unfold buildWhitespaceSequence. cbv zeta.
  assert (A : sgr (if reverse this then [] ++ CSI ++ lit "7m" else [])).
  { destruct (reverse this); [|exact sgr_nil].
    apply (sgr_one (lit "7")). reflexivity. }
  destruct (background this) as [c|]; [|exact A].
  destruct (colorWhitespace this); [|exact A].
  apply sgr_app; [exact A | apply colorToSequence_sgr].
Qed.

End Sequences.

End SgrFacts.

Import SgrFacts.

(* ===================================================================== *)
(** * Properties of the renderer                                          *)
(* ===================================================================== *)

Module RenderFacts.
Import JS Width Layout Notions JSFacts WidthFacts ScanFacts LayoutFacts.
Import StyleFacts MeasureFacts SgrFacts.
Import Style.
Import Options.
#[local] Open Scope js_scope.

Lemma closedLine_app x y :
  closedLine x = true -> closedLine y = true -> closedLine (x ++ y) = true.
Proof.
  intros Hx Hy.
  destruct (closedLine_inv _ Hx) as [X1 X2].
  destruct (closedLine_inv _ Hy) as [Y1 Y2].
  apply closedLine_intro.
  - rewrite includes_app, X1, Y1. reflexivity.
  - destruct (stripAnsi_app x y Hx Y1) as [_ E]. rewrite E. exact Y2.
Qed.

Lemma replaceAll_absent c by_ s : includes c s = false -> replaceAll c by_ s = s.
Proof.
  unfold replaceAll, includes. induction s as [|d s IH]; intros H; [reflexivity|].
  cbn [existsb] in H. apply orb_false_elim in H. destruct H as [H1 H2].
  cbn [flat_map]. rewrite Z.eqb_sym, H1. cbn [app]. rewrite IH by exact H2.
  reflexivity.
Qed.

Lemma replaceCRLF_absent s : includes 13 s = false -> replaceCRLF s = s.
Proof.
  unfold includes. induction s as [|c s IH]; intros H; [reflexivity|].
  cbn [existsb] in H. apply orb_false_elim in H. destruct H as [H1 H2].
  cbn [replaceCRLF]. destruct s as [|d t]; [reflexivity|].
  rewrite Z.eqb_sym, H1. cbn [andb]. rewrite IH by exact H2. reflexivity.
Qed.

Section Stages.
Variable parseInt16 : jsstring -> option Z.

(** A line between a style sequence and the reset keeps its visible
    text, and stays closed. *)
Lemma styled_line this line :
  closedLine line = true ->
  stripAnsi (buildStyleSequence parseInt16 this ++ line ++ RESET)
  = stripAnsi line /\
  closedLine (buildStyleSequence parseInt16 this ++ line ++ RESET) = true.
Proof.
  intros Hl.
  pose proof (buildStyleSequence_sgr parseInt16 this) as Hs.
  assert (Hc : closedLine (line ++ RESET) = true)
    by (apply closedLine_app; [exact Hl | apply sgr_closed, sgr_RESET]).
  split.
  - rewrite sgr_prefix;
      [apply sgr_suffix; [exact sgr_RESET | exact Hl] | exact Hs |].
    apply closedLine_inv in Hc. apply Hc.
  - apply closedLine_app; [apply sgr_closed; exact Hs | exact Hc].
Qed.

Lemma applyMargin_nonpositive this str :
  marginTop this <= 0 -> marginRight this <= 0 ->
  marginBottom this <= 0 -> marginLeft this <= 0 ->
  applyMargin parseInt16 this str = Ok str.
Proof.
  intros Ht Hr Hb Hl. unfold applyMargin. cbv zeta.
  destruct (Z.gtb_spec (marginLeft this) 0); [lia|].
  destruct (Z.gtb_spec (marginRight this) 0); [lia|].
  destruct (Z.gtb_spec (marginTop this) 0); [lia|].
  destruct (Z.gtb_spec (marginBottom this) 0); [lia|].
  cbn [orb bind]. rewrite joinNL_split. reflexivity.
Qed.

Lemma applyMax_off this str :
  maxWidth this <= 0 -> maxHeight this <= 0 -> applyMax this str = str.
Proof.
  intros Hw Hh. unfold applyMax. cbv zeta.
  destruct (Z.gtb_spec (maxWidth this) 0); [lia|].
  destruct (Z.gtb_spec (maxHeight this) 0); [lia|]. reflexivity.
Qed.

(** The stages a style of attributes only goes through: tabs, line
    ends, and the style sequence around every line. *)
Lemma render_attributesOnly this strs :
  attributesOnly this = true ->
  render parseInt16 this strs =
  (str <- (if tabWidth this >=? 0 then
             by_ <- (if tabWidth this =? 0 then Ok []
                     else str_repeat SPACE (tabWidth this)) ;;
             Ok (replaceAll 9 by_ (join SPACE strs))
           else Ok (join SPACE strs)) ;;
   Ok (if truthy (buildStyleSequence parseInt16 this)
       then join NL (map (fun line =>
                            buildStyleSequence parseInt16 this ++ line ++ RESET)
                         (split LF (replaceCRLF str)))
       else replaceCRLF str)).
Proof.
  unfold attributesOnly. intros H.
  rewrite !andb_true_iff in H.
  destruct H as [[[[[[[[[[[[[[Hi Ht] Hw] Hh] Hmw] Hmh] Hpt] Hpr] Hpb] Hpl]
                        Hmt] Hmr] Hmb] Hml] Hb].
  apply negb_true_iff in Hi, Hb.
  destruct (transform this) as [fn|] eqn:Tr; [discriminate|].
  apply Z.leb_le in Hw, Hh, Hmw, Hmh, Hpt, Hpr, Hpb, Hpl, Hmt, Hmr, Hmb, Hml.
  unfold render. cbv zeta. rewrite Tr, Hi, Hb. cbn [negb andb].
  destruct (if tabWidth this >=? 0 then _ else _) as [s1|];
    cbn [bind]; [|reflexivity].
  rewrite applyPadding_nonpositive by assumption. cbn [bind].
  destruct (Z.gtb_spec (width this) 0); [lia|]. cbn [bind].
  destruct (Z.gtb_spec (height this) 0); [lia|]. cbn [bind].
  rewrite applyMargin_nonpositive by assumption. cbn [bind].
  rewrite applyMax_off by assumption. reflexivity.
Qed.

End Stages.

End RenderFacts.

Import RenderFacts.
Import Style.
Import Options.

(** X17.  For a colour whose components are safe integers (and
    whatever [parseInt] returns for a hex string), [colorToSequence]
    writes a complete control sequence: it is closed, takes no column,
    and in front of a string it leaves the visible text of that string
    as it is.  A component from [10^21] on prints in exponential form,
    and its sign and exponent would show. *)
Theorem colorToSequence_invisible parseInt16 color isForeground :
  safeColor color = true ->
  closedLine (colorToSequence parseInt16 color isForeground) = true /\
  stringWidth (colorToSequence parseInt16 color isForeground) = 0 /\
  forall line,
    includes 0x9d line = false ->
    stripAnsi (colorToSequence parseInt16 color isForeground ++ line)
    = stripAnsi line.
Proof.
  intros _.
  pose proof (colorToSequence_sgr parseInt16 color isForeground) as H.
  split; [apply sgr_closed; exact H|]. split.
  - rewrite stringWidth_textWidth, sgr_stripAnsi by exact H. reflexivity.
  - intros line Hl. apply sgr_prefix; assumption.
Qed.

Lemma colorToSequence_invisible_witness :
  stripAnsi (colorToSequence parseIntHex (ColorHex (lit "#ff8000")) true
             ++ lit "hi") = lit "hi".
Proof.
  destruct (colorToSequence_invisible parseIntHex (ColorHex (lit "#ff8000"))
              true) as [_ [_ H]]; [reflexivity|].
  rewrite H; reflexivity.
Defined.

(** X18.  The text-styling step of [render] changes no visible text: a
    closed line between the style sequence of a style of safe colours
    and the reset keeps its visible text and its width, and is closed
    again. *)
Theorem styled_line_text parseInt16 this line :
  safeOption (Options.foreground this) = true ->
  safeOption (Options.background this) = true ->
  closedLine line = true ->
  stripAnsi (buildStyleSequence parseInt16 this ++ line ++ RESET)
  = stripAnsi line /\
  stringWidth (buildStyleSequence parseInt16 this ++ line ++ RESET)
  = stringWidth line /\
  closedLine (buildStyleSequence parseInt16 this ++ line ++ RESET) = true.
Proof.
  intros _ _ Hl. destruct (styled_line parseInt16 this line Hl) as [E C].
  split; [exact E|]. split; [|exact C].
  rewrite !stringWidth_textWidth, E. reflexivity.
Qed.

Lemma styled_line_text_witness :
  stripAnsi (buildStyleSequence parseIntHex
               (Style.foreground (Style.bold style true) (ColorCode 196))
             ++ lit "hello" ++ RESET)
  = stripAnsi (lit "hello").
Proof.
  apply (styled_line_text parseIntHex
           (Style.foreground (Style.bold style true) (ColorCode 196))
           (lit "hello")); reflexivity.
Defined.

(** X19.  A style that sets text attributes and safe colours only, and
    whose [tabWidth] is a length the engine accepts, renders a
    block of closed lines (no tab, no carriage return) line by line: the
    visible text of every line of the output is that of the input. *)
Theorem render_attributes_keep_text parseInt16 this s :
  attributesOnly this = true ->
  safeOption (Options.foreground this) = true ->
  safeOption (Options.background this) = true ->
  Options.tabWidth this <= safeLength ->
  fits (render parseInt16 this [s]) ->
  closedBlock s = true ->
  includes 9 s = false -> includes 13 s = false ->
  exists r,
    render parseInt16 this [s] = Ok r /\
    map stripAnsi (split LF r) = map stripAnsi (split LF s).
Proof.
  intros Ha _ _ _ _ Hc Ht Hr. rewrite render_attributesOnly by exact Ha.
  cbn [join].
  assert (E : (if tabWidth this >=? 0
               then JS.bind (if tabWidth this =? 0 then Ok []
                             else str_repeat SPACE (tabWidth this))
                            (fun by_ => Ok (replaceAll 9 by_ s))
               else Ok s) = Ok s).
  { destruct (Z.geb_spec (tabWidth this) 0); [|reflexivity].
    destruct (tabWidth this =? 0); [|rewrite str_repeat_ok by lia];
      cbn [JS.bind]; rewrite replaceAll_absent by exact Ht; reflexivity. }
  rewrite E. cbn [JS.bind]. rewrite replaceCRLF_absent by exact Hr.
  destruct (truthy (buildStyleSequence parseInt16 this));
    [|exists s; split; reflexivity].
  eexists. split; [reflexivity|].
  pose proof (buildStyleSequence_sgr parseInt16 this) as Hs.
  rewrite split_join.
  - rewrite map_map. apply map_ext_in. intros line Hin.
    apply styled_line. unfold closedBlock in Hc.
    rewrite forallb_forall in Hc. apply Hc. exact Hin.
  - pose proof (split_not_nil LF s).
    destruct (split LF s); [congruence | discriminate].
  - apply Forall_forall. intros l Hl. apply in_map_iff in Hl.
    destruct Hl as [line [<- Hin]]. intros C.
    apply in_app_or in C. destruct C as [C|C];
      [revert C; apply sgr_no_LF; exact Hs|].
    apply in_app_or in C. destruct C as [C|C];
      [|revert C; apply sgr_no_LF, sgr_RESET].
    pose proof (split_no_sep LF s) as F. rewrite Forall_forall in F.
    exact (F line Hin C).
Qed.

Lemma render_attributes_keep_text_witness :
  exists r,
    render parseIntHex
      (Style.background (Style.underline style true) (ColorHex (lit "#0af")))
      [lit "one" ++ NL ++ lit "two"] = Ok r /\
    map stripAnsi (split LF r)
    = map stripAnsi (split LF (lit "one" ++ NL ++ lit "two")).
Proof.
  apply render_attributes_keep_text;
    try reflexivity; vm_compute; discriminate.
Defined.

(** X20.  The default style renders its arguments joined by spaces,
    with every tab replaced by four spaces and every CR LF by LF, and
    nothing else changed. *)
Theorem render_default parseInt16 strs :
  render parseInt16 style strs
  = Ok (replaceCRLF (replaceAll 9 (lit "    ") (join SPACE strs))).
Proof.
  rewrite render_attributesOnly by reflexivity. reflexivity.
Qed.

Module RenderFacts2.
Import JS Width Layout Notions JSFacts WidthFacts ScanFacts LayoutFacts.
Import StyleFacts MeasureFacts SgrFacts RenderFacts.
Import Style.
Import Options.
#[local] Open Scope js_scope.

Lemma Forall_firstn {A} (P : A -> Prop) n l :
  Forall P l -> Forall P (firstn n l).
Proof.
  intros H. revert n. induction H as [|x l Hx _ IH]; intros [|n];
    cbn [firstn]; constructor; auto.
Qed.

(** The last stage of [render]: at most [maxHeight] lines are left. *)
Lemma applyMax_height this str :
  0 < maxHeight this -> getHeight (applyMax this str) <= maxHeight this.
Proof.
  intros Hm. unfold applyMax. cbv zeta.
  set (str1 := if maxWidth this >? 0 then _ else str).
  destruct (Z.gtb_spec (maxHeight this) 0); [|lia].
  destruct (Z.gtb_spec (Z.of_nat (length (split LF str1))) (maxHeight this))
    as [Hgt|Hle]; [|exact Hle].
  unfold getHeight. rewrite split_join.
  - rewrite length_firstn. lia.
  - pose proof (split_not_nil LF str1).
    destruct (split LF str1); [congruence|].
    destruct (Z.to_nat (maxHeight this)) eqn:E; [lia | discriminate].
  - apply Forall_firstn, split_no_sep.
Qed.

Section Stages.
Variable parseInt16 : jsstring -> option Z.

Lemma render_applyMax this strs r :
  render parseInt16 this strs = Ok r -> exists x, r = applyMax this x.
Proof.
  unfold render. cbv zeta. intros H.
  repeat match type of H with
         | JS.bind ?m _ = Ok _ =>
             destruct m; cbn [JS.bind] in H; [|discriminate H]
         end.
  injection H as <-. eexists. reflexivity.
Qed.

End Stages.

End RenderFacts2.

Import RenderFacts2.

(** X21.  With a positive [maxHeight], whatever [render] returns has at
    most [maxHeight] lines. *)
Theorem render_maxHeight parseInt16 this strs r :
  0 < Options.maxHeight this ->
  render parseInt16 this strs = Ok r ->
  getHeight r <= Options.maxHeight this.
Proof.
  intros Hm H. destruct (render_applyMax parseInt16 this strs r H) as [x ->].
  apply applyMax_height. exact Hm.
Qed.

Lemma render_maxHeight_witness :
  getHeight (lit "a" ++ NL ++ lit "b") <= 2.
Proof.
  apply (render_maxHeight parseIntHex (Style.maxHeight style 2)
           [lit "a" ++ NL ++ lit "b" ++ NL ++ lit "c"]);
    [reflexivity | reflexivity].
Defined.

(** X22.  Where the result is a string the engine can hold, the margin
    stage raises exactly when a side margin is drawn with a negative
    side margin beside it, or a top or bottom margin is drawn and the
    side margins take more than the width of the block away. *)
Theorem applyMargin_raises_iff parseInt16 this str :
  fits (applyMargin parseInt16 this str) ->
  applyMargin parseInt16 this str = RangeError <->
  ((0 < Options.marginLeft this \/ 0 < Options.marginRight this)
   /\ (Options.marginLeft this < 0 \/ Options.marginRight this < 0))
  \/ ((0 < Options.marginTop this \/ 0 < Options.marginBottom this)
      /\ getWidth str + Options.marginLeft this + Options.marginRight this < 0).
Proof.
  intros _.
  unfold applyMargin, getWidth. cbv zeta.
  pose proof (maxLineWidth_nonneg str) as Hw.
  unfold str_repeat, array_fill.
  destruct (Z.gtb_spec (Options.marginLeft this) 0);
    destruct (Z.gtb_spec (Options.marginRight this) 0);
    destruct (Z.gtb_spec (Options.marginTop this) 0);
    destruct (Z.gtb_spec (Options.marginBottom this) 0);
    destruct (Z.ltb_spec (Options.marginLeft this) 0);
    destruct (Z.ltb_spec (Options.marginRight this) 0);
    destruct (Z.ltb_spec (Options.marginTop this) 0);
    destruct (Z.ltb_spec (Options.marginBottom this) 0);
    destruct (Z.ltb_spec (maxLineWidth str + Options.marginLeft this
                          + Options.marginRight this) 0);
    try lia; cbn [orb JS.bind];
    (split; [try discriminate; intros _; lia
            | try reflexivity; intros; exfalso; lia]).
Qed.

Module BorderFacts.
Import JS Width Layout Notions JSFacts WidthFacts ScanFacts LayoutFacts.
Import StyleFacts MeasureFacts SgrFacts RenderFacts RenderFacts2.
Import Border.

Lemma includes_In c x : includes c x = false -> ~ In c x.
Proof.
  unfold includes. intros H Hin.
  assert (E : existsb (Z.eqb c) x = true)
    by (apply existsb_exists; exists c; split; [exact Hin | apply Z.eqb_refl]).
  congruence.
Qed.

Lemma plainText_inv x :
  plainText x = true ->
  includes ESC x = false /\ includes 0x9b x = false /\ includes 0x9d x = false.
Proof.
  unfold plainText. intros H.
  apply andb_prop in H. destruct H as [H H3].
  apply andb_prop in H. destruct H as [H1 H2].
  apply negb_true_iff in H1, H2, H3. auto.
Qed.

Lemma plainText_stripAnsi x : plainText x = true -> stripAnsi x = x.
Proof.
  intros H. destruct (plainText_inv x H) as [H1 [H2 _]].
  unfold stripAnsi. rewrite H1, H2. reflexivity.
Qed.

Lemma plainText_closed x : plainText x = true -> closedLine x = true.
Proof.
  intros H. destruct (plainText_inv x H) as [H1 [H2 H3]].
  apply closedLine_intro; [exact H3|].
  rewrite stripLoop_plain by assumption. reflexivity.
Qed.

Lemma plainText_app x y :
  plainText x = true -> plainText y = true -> plainText (x ++ y) = true.
Proof.
  intros Hx Hy.
  destruct (plainText_inv x Hx) as [X1 [X2 X3]].
  destruct (plainText_inv y Hy) as [Y1 [Y2 Y3]].
  unfold plainText. unfold ESC in *.
  rewrite !includes_app, X1, X2, X3, Y1, Y2, Y3. reflexivity.
Qed.

Lemma edge_nil : edge 0 [].
Proof. repeat split; try reflexivity. intros []. Qed.

Lemma glyph_edge g : glyph g = true -> edge 1 g.
Proof.
  unfold glyph. rewrite !andb_true_iff.
  intros [[[[H1 H2] H3] H4] H5].
  apply negb_true_iff in H2, H4, H5. apply Z.eqb_eq in H3.
  repeat split; auto. apply includes_In. exact H2.
Qed.

Lemma edge_if (b : bool) g :
  glyph g = true -> edge (if b then 1 else 0) (if b then g else []).
Proof. intros H. destruct b; [apply glyph_edge; exact H | exact edge_nil]. Qed.

Lemma last_app_r (x y : jsstring) d : y <> [] -> last (x ++ y) d = last y d.
Proof.
  intros Hy. induction x as [|c x IH]; [reflexivity|].
  cbn [app]. destruct (x ++ y) eqn:E.
  - apply app_eq_nil in E. destruct E. congruence.
  - rewrite <- E in *. cbn [last]. rewrite E. rewrite <- E. exact IH.
Qed.

(** Edges compose. *)
Lemma edge_app a b x y : edge a x -> edge b y -> edge (a + b) (x ++ y).
Proof.
  intros (X1 & X2 & X3 & X4 & X5) (Y1 & Y2 & Y3 & Y4 & Y5).
  repeat split.
  - apply plainText_app; assumption.
  - intros Hin. apply in_app_or in Hin. tauto.
  - rewrite textWidth_app by exact X4. lia.
  - destruct y as [|c y]; [rewrite app_nil_r; exact X4|].
    rewrite last_app_r by discriminate. exact Y4.
  - destruct x as [|c x]; [exact Y5 | exact X5].
Qed.

Lemma edge_copies g n : glyph g = true -> 0 <= n -> edge n (copies g n).
Proof.
  intros Hg Hn. unfold copies.
  rewrite <- (Z2Nat.id n) at 1 by exact Hn.
  induction (Z.to_nat n) as [|k IH]; [exact edge_nil|].
  cbn [repeat concat]. rewrite Nat2Z.inj_succ.
  replace (Z.succ (Z.of_nat k)) with (1 + Z.of_nat k) by lia.
  apply edge_app; [apply glyph_edge; exact Hg | exact IH].
Qed.

(** An edge between two runs of sequences is a closed line of the same
    visible text. *)
Lemma wrap_edge bs br n e :
  sgr bs -> sgr br -> edge n e ->
  closedLine (bs ++ e ++ br) = true /\ stripAnsi (bs ++ e ++ br) = e
  /\ ~ In LF (bs ++ e ++ br).
Proof.
  intros Hs Hr (E1 & E2 & E3 & E4 & E5).
  pose proof (plainText_closed e E1) as Ce.
  assert (Cr : closedLine (e ++ br) = true)
    by (apply closedLine_app; [exact Ce | apply sgr_closed; exact Hr]).
  split; [apply closedLine_app; [apply sgr_closed; exact Hs | exact Cr]|].
  split.
  - rewrite sgr_prefix; [| exact Hs | apply closedLine_inv in Cr; apply Cr].
    rewrite sgr_suffix by assumption. apply plainText_stripAnsi. exact E1.
  - intros Hin. apply in_app_or in Hin. destruct Hin as [Hin|Hin];
      [revert Hin; apply sgr_no_LF; exact Hs|].
    apply in_app_or in Hin. destruct Hin as [Hin|Hin]; [tauto|].
    revert Hin. apply sgr_no_LF. exact Hr.
Qed.

(** A closed line between two closed pieces whose visible texts are
    edges: the widths add up. *)
Lemma row_width A P B a b :
  closedLine A = true -> closedLine P = true -> closedLine B = true ->
  edge a (stripAnsi A) -> edge b (stripAnsi B) ->
  stringWidth (A ++ P ++ B) = a + stringWidth P + b.
Proof.
  intros CA CP CB (A1 & A2 & A3 & A4 & A5) (B1 & B2 & B3 & B4 & B5).
  destruct (closedLine_inv _ CP) as [P9 _].
  destruct (closedLine_inv _ CB) as [B9 _].
  rewrite !stringWidth_textWidth.
  destruct (stripAnsi_app A (P ++ B) CA) as [E1 _];
    [rewrite includes_app, P9, B9; reflexivity|].
  destruct (stripAnsi_app P B CP B9) as [E2 _].
  rewrite E1, E2, textWidth_app by exact A4.
  rewrite textWidth_app_head by exact B5. lia.
Qed.

Lemma side_piece (b : bool) bs br g :
  sgr bs -> sgr br -> glyph g = true ->
  closedLine (if b then bs ++ g ++ br else []) = true
  /\ edge (if b then 1 else 0) (stripAnsi (if b then bs ++ g ++ br else []))
  /\ ~ In LF (if b then bs ++ g ++ br else []).
Proof.
  intros Hs Hr Hg. destruct b.
  - destruct (wrap_edge bs br 1 g Hs Hr (glyph_edge g Hg)) as (C & E & N).
    rewrite E. auto using glyph_edge.
  - repeat split; try reflexivity; intros [].
Qed.

(** A row of the top or bottom of a border. *)
Lemma horizontal_row bs br (L R : bool) tl g tr w :
  sgr bs -> sgr br ->
  glyph tl = true -> glyph g = true -> glyph tr = true -> 0 <= w ->
  let row := bs ++ ((if L then tl else []) ++ copies g w
                    ++ (if R then tr else [])) ++ br in
  ~ In LF row
  /\ stringWidth row = w + (if L then 1 else 0) + (if R then 1 else 0).
Proof.
  intros Hs Hr Htl Hg Htr Hw row.
  pose proof (edge_app _ _ _ _ (edge_if L tl Htl)
                (edge_app _ _ _ _ (edge_copies g w Hg Hw) (edge_if R tr Htr)))
    as He.
  destruct (wrap_edge bs br _ _ Hs Hr He) as (C & E & N).
  split; [exact N|].
  unfold row. rewrite stringWidth_textWidth.
  etransitivity; [apply f_equal; exact E|].
  destruct He as (_ & _ & T & _). rewrite T. lia.
Qed.

(** A row of the content between the sides of a border. *)
Lemma content_row bs br (L R : bool) gl gr line w :
  sgr bs -> sgr br -> glyph gl = true -> glyph gr = true ->
  closedLine line = true -> ~ In LF line -> stringWidth line <= w ->
  let row := (if L then bs ++ gl ++ br else [])
             ++ padRight line w SPACE
             ++ (if R then bs ++ gr ++ br else []) in
  ~ In LF row
  /\ stringWidth row = w + (if L then 1 else 0) + (if R then 1 else 0).
Proof.
  intros Hs Hr Hgl Hgr Hc Hn Hle row.
  destruct (side_piece L bs br gl Hs Hr Hgl) as (CA & EA & NA).
  destruct (side_piece R bs br gr Hs Hr Hgr) as (CB & EB & NB).
  destruct (padRight_exact line w Hc Hle) as [WP CP].
  split.
  - intros Hin. apply in_app_or in Hin. destruct Hin as [Hin|Hin]; [tauto|].
    apply in_app_or in Hin. destruct Hin as [Hin|Hin]; [|tauto].
    revert Hin. apply padRight_no_LF. exact Hn.
  - unfold row.
    etransitivity; [exact (row_width _ _ _ _ _ CA CP CB EA EB)|].
    rewrite WP. lia.
Qed.

End BorderFacts.

Import BorderFacts.

(** X23.  Around a block of closed lines, a border of one-column glyphs
    and safe colours is a rectangle: [applyBorder] returns, one row is
    added for each of the top and bottom sides that are on, and every
    row is as wide as the block plus one column for each of the left and
    right sides that are on. *)
Theorem applyBorder_rectangle parseInt16 this str :
  regularBorder (Options.border this) = true ->
  safeOption (Options.borderForeground this) = true ->
  safeOption (Options.borderBackground this) = true ->
  closedBlock str = true ->
  exists r,
    applyBorder parseInt16 this str = Ok r /\
    getHeight r = getHeight str
                  + (if Options.borderTop this then 1 else 0)
                  + (if Options.borderBottom this then 1 else 0) /\
    Forall (fun row =>
              stringWidth row
              = getWidth str
                + (if Options.borderLeft this then 1 else 0)
                + (if Options.borderRight this then 1 else 0))
           (split LF r).
Proof.
  intros Hb _ _ Hc. unfold regularBorder in Hb. rewrite !andb_true_iff in Hb.
  destruct Hb as [[[[[[[Gt Gb] Gl] Gr] Gtl] Gtr] Gbl] Gbr].
  pose proof (maxLineWidth_nonneg str) as Hw.
  unfold applyBorder, getWidth. cbv zeta.
  set (bs := (match Options.borderForeground this with
              | Some c => colorToSequence parseInt16 c true
              | None => []
              end)
             ++ (match Options.borderBackground this with
                 | Some c => colorToSequence parseInt16 c false
                 | None => []
                 end)).
  set (br := if truthy bs then RESET else []).
  assert (Hs : sgr bs).
  { unfold bs. apply sgr_app.
    - destruct (Options.borderForeground this);
        [apply colorToSequence_sgr | exact sgr_nil].
    - destruct (Options.borderBackground this);
        [apply colorToSequence_sgr | exact sgr_nil]. }
  assert (Hr : sgr br)
    by (unfold br; destruct (truthy bs); [exact sgr_RESET | exact sgr_nil]).
  rewrite !str_repeat_ok by exact Hw.
  set (W := maxLineWidth str
            + (if Options.borderLeft this then 1 else 0)
            + (if Options.borderRight this then 1 else 0)).
  set (rows := map _ (split LF str)).
  assert (Hrows : Forall (fun row => ~ In LF row /\ stringWidth row = W) rows).
  { apply Forall_forall. intros row Hin. apply in_map_iff in Hin.
    destruct Hin as [line [<- Hin]].
    apply content_row; try assumption.
    - unfold closedBlock in Hc. rewrite forallb_forall in Hc. auto.
    - pose proof (split_no_sep LF str) as F. rewrite Forall_forall in F. auto.
    - apply maxLineWidth_bound. exact Hin. }
  assert (Hlen : length rows = length (split LF str))
    by (unfold rows; apply length_map).
  assert (Hne : rows <> []).
  { pose proof (split_not_nil LF str).
    destruct (split LF str); [congruence | discriminate]. }
  pose proof (horizontal_row bs br (Options.borderLeft this)
                (Options.borderRight this) _ _ _ _ Hs Hr Gtl Gt Gtr Hw)
    as Htop.
  pose proof (horizontal_row bs br (Options.borderLeft this)
                (Options.borderRight this) _ _ _ _ Hs Hr Gbl Gb Gbr Hw)
    as Hbot.
  cbv zeta in Htop, Hbot. fold W in Htop, Hbot.
  assert (Fin : forall all : list jsstring,
             all <> [] ->
             Forall (fun row => ~ In LF row /\ stringWidth row = W) all ->
             split LF (join NL all) = all /\
             Forall (fun row => stringWidth row = W) all).
  { intros all Hn F. split.
    - apply split_join; [exact Hn|].
      eapply Forall_impl; [|exact F]. cbv beta. tauto.
    - eapply Forall_impl; [|exact F]. cbv beta. tauto. }
  unfold getHeight.
  destruct (Options.borderTop this), (Options.borderBottom this);
    cbn [JS.bind]; eexists; (split; [reflexivity|]);
    match goal with
    | |- context [join NL ?all] =>
        destruct (Fin all) as [E F];
          [ destruct rows; [congruence | discriminate]
          | repeat first [ apply Forall_app; split
                         | apply Forall_cons; [assumption|]
                         | apply Forall_nil
                         | exact Hrows ]
          | rewrite E; split; [|exact F] ]
    end;
    rewrite ?length_app; cbn [length app]; rewrite ?length_app;
    cbn [length]; lia.
Qed.

Lemma applyBorder_rectangle_witness :
  exists r,
    applyBorder parseIntHex
      (Style.borderForeground (Style.border style Border.RoundedBorder true)
         (ColorCode 63))
      (lit "hello" ++ NL ++ lit "hi") = Ok r /\
    getHeight r = getHeight (lit "hello" ++ NL ++ lit "hi") + 1 + 1 /\
    Forall (fun row =>
              stringWidth row = getWidth (lit "hello" ++ NL ++ lit "hi") + 1 + 1)
           (split LF r).
Proof.
  apply (applyBorder_rectangle parseIntHex
           (Style.borderForeground (Style.border style Border.RoundedBorder true)
              (ColorCode 63))
           (lit "hello" ++ NL ++ lit "hi")); reflexivity.
Defined.

(** X24.  The glyphs of every preset border but the empty one are one
    column wide.  [customBorder] takes every glyph that is given and the
    normal border's glyph where none is, and so keeps that: a border
    made from one-column glyphs is regular again. *)
Theorem customBorder_regular :
  forallb regularBorder
    [Border.NormalBorder; Border.RoundedBorder; Border.ThickBorder;
     Border.DoubleBorder; Border.HiddenBorder; Border.AsciiBorder;
     Border.StarBorder] = true /\
  forall chars,
    let pick := fun (given : option jsstring) (normal : jsstring) =>
                  match given with Some g => g | None => normal end in
    Border.customBorder chars
    = Border.mkBorder
        (pick (Border.Partial.top chars) (Border.top Border.NormalBorder))
        (pick (Border.Partial.bottom chars)
              (Border.bottom Border.NormalBorder))
        (pick (Border.Partial.left chars) (Border.left Border.NormalBorder))
        (pick (Border.Partial.right chars) (Border.right Border.NormalBorder))
        (pick (Border.Partial.topLeft chars)
              (Border.topLeft Border.NormalBorder))
        (pick (Border.Partial.topRight chars)
              (Border.topRight Border.NormalBorder))
        (pick (Border.Partial.bottomLeft chars)
              (Border.bottomLeft Border.NormalBorder))
        (pick (Border.Partial.bottomRight chars)
              (Border.bottomRight Border.NormalBorder)) /\
    (regularPartial chars = true ->
     regularBorder (Border.customBorder chars) = true).
Proof.
  split; [reflexivity|].
  intros [t b l r tl tr bl br] pick. split; [reflexivity|].
  unfold regularPartial.
  cbn [forallb Border.Partial.top Border.Partial.bottom Border.Partial.left
         Border.Partial.right Border.Partial.topLeft Border.Partial.topRight
         Border.Partial.bottomLeft Border.Partial.bottomRight].
  rewrite !andb_true_iff.
  intros (Ht & Hb & Hl & Hr & Htl & Htr & Hbl & Hbr & _).
  unfold regularBorder, Border.customBorder.
  cbn [Border.top Border.bottom Border.left Border.right Border.topLeft
         Border.topRight Border.bottomLeft Border.bottomRight
         Border.Partial.top Border.Partial.bottom Border.Partial.left
         Border.Partial.right Border.Partial.topLeft Border.Partial.topRight
         Border.Partial.bottomLeft Border.Partial.bottomRight].
  rewrite !andb_true_iff.
  repeat split;
    match goal with
    | |- glyph (Border.orElse ?o _) = true =>
        destruct o; [assumption | reflexivity]
    end.
Qed.

Lemma customBorder_regular_witness :
  regularBorder
    (Border.customBorder
       (Border.Partial.mkBorder (Some (lit "=")) None (Some (lit "!")) None
          None None None None)) = true.
Proof.
  destruct customBorder_regular as [_ H].
  apply (H (Border.Partial.mkBorder (Some (lit "=")) None (Some (lit "!"))
              None None None None None)).
  reflexivity.
Defined.

(** X25.  A colour code below 16 is written as [ESC [ 3 d m] in the
    foreground and [ESC [ 4 d m] in the background, [d] the remainder of
    the code by 8: the codes 8 to 15 give the sequences of the codes 0
    to 7. *)
Theorem colorToSequence_basic parseInt16 code :
  0 <= code < 16 ->
  colorToSequence parseInt16 (ColorCode code) true
  = CSI ++ [0x33; 0x30 + code mod 8; 0x6d] /\
  colorToSequence parseInt16 (ColorCode code) false
  = CSI ++ [0x34; 0x30 + code mod 8; 0x6d].
Proof.
  intros H.
  assert (E : code = 0 \/ code = 1 \/ code = 2 \/ code = 3 \/ code = 4
              \/ code = 5 \/ code = 6 \/ code = 7 \/ code = 8 \/ code = 9
              \/ code = 10 \/ code = 11 \/ code = 12 \/ code = 13
              \/ code = 14 \/ code = 15) by lia.
  repeat (destruct E as [-> | E]; [split; reflexivity|]).
  subst code. split; reflexivity.
Qed.

Lemma colorToSequence_basic_witness :
  colorToSequence parseIntHex (ColorCode 9) true = CSI ++ lit "31m" /\
  colorToSequence parseIntHex (ColorCode 9) false = CSI ++ lit "41m".
Proof. apply (colorToSequence_basic parseIntHex 9). lia. Defined.

(** X26.  A hex colour of six digits is the RGB colour of the three
    bytes of the number [parseInt] reads, and a hex colour of three
    digits is read as the six-digit colour with every digit doubled. *)
Theorem colorToSequence_hex parseInt16 hex n isForeground :
  length hex = 6%nat -> parseInt16 hex = Some n -> 0 <= n < 2 ^ 24 ->
  colorToSequence parseInt16 (ColorHex (0x23 :: hex)) isForeground
  = colorToSequence parseInt16
      (ColorRGB (n / 65536) ((n / 256) mod 256) (n mod 256)) isForeground
  /\ forall a b c,
       colorToSequence parseInt16 (ColorHex [0x23; a; b; c]) isForeground
       = colorToSequence parseInt16 (ColorHex [0x23; a; a; b; b; c; c])
           isForeground.
Proof.
  intros Hl Hp Hn. split; [|reflexivity].
  unfold colorToSequence. cbv zeta. rewrite Hl.
  change (Z.of_nat 6 =? 3) with false. cbv iota. rewrite Hp.
  assert (T : toInt32 n = n).
  { unfold toInt32. cbv zeta. rewrite Z.mod_small by lia.
    destruct (Z.geb_spec n (2 ^ 31)); [lia | reflexivity]. }
  rewrite T.
  change 0xff with (Z.ones 8). rewrite !Z.land_ones by lia.
  rewrite !Z.shiftr_div_pow2 by lia.
  change (2 ^ 16) with 65536. change (2 ^ 8) with 256.
  rewrite (Z.mod_small (n / 65536) 256); [reflexivity|].
  split; [apply Z.div_pos; lia | apply Z.div_lt_upper_bound; lia].
Qed.

Lemma colorToSequence_hex_witness :
  colorToSequence parseIntHex (ColorHex (0x23 :: lit "ff8000")) false
  = colorToSequence parseIntHex
      (ColorRGB (0xff8000 / 65536) ((0xff8000 / 256) mod 256)
         (0xff8000 mod 256)) false.
Proof.
  destruct (colorToSequence_hex parseIntHex (lit "ff8000") 0xff8000 false)
    as [H _]; [reflexivity | vm_compute; reflexivity | | exact H].
  split; [discriminate | reflexivity].
Defined.

Module SizeFacts.
Import JS Width Layout Notions JSFacts WidthFacts ScanFacts LayoutFacts.
Import StyleFacts MeasureFacts SgrFacts RenderFacts RenderFacts2 BorderFacts.
Import Style.

Lemma edge_spaces n : edge (Z.of_nat n) (repeat 32 n).
Proof.
  repeat split.
  - unfold plainText.
    rewrite !includes_repeat by discriminate. reflexivity.
  - intros Hin. apply In_repeat_eq in Hin. discriminate.
  - apply textWidth_spaces.
  - apply last_spaces_not_high.
  - destruct n; reflexivity.
Qed.

(** The filler of the width and height stages: spaces, between the
    whitespace sequence and the reset when there is one. *)
Lemma filler ws n :
  sgr ws ->
  let A := if truthy ws then ws ++ repeat 32 n ++ RESET else repeat 32 n in
  closedLine A = true /\ stripAnsi A = repeat 32 n /\ ~ In LF A.
Proof.
  intros Hs A. unfold A. destruct (truthy ws).
  - apply (wrap_edge ws RESET _ _ Hs sgr_RESET (edge_spaces n)).
  - destruct (edge_spaces n) as (P & N & _).
    split; [apply plainText_closed; exact P|].
    split; [apply plainText_stripAnsi; exact P | exact N].
Qed.

(** A closed line between two closed pieces. *)
Lemma row_text A P B :
  closedLine A = true -> closedLine P = true -> closedLine B = true ->
  stripAnsi (A ++ P ++ B) = stripAnsi A ++ stripAnsi P ++ stripAnsi B
  /\ closedLine (A ++ P ++ B) = true.
Proof.
  intros CA CP CB.
  destruct (closedLine_inv _ CP) as [P9 _].
  destruct (closedLine_inv _ CB) as [B9 _].
  destruct (stripAnsi_app A (P ++ B) CA) as [E1 _];
    [rewrite includes_app, P9, B9; reflexivity|].
  destruct (stripAnsi_app P B CP B9) as [E2 _].
  rewrite E1, E2. split; [reflexivity|].
  apply closedLine_app; [exact CA | apply closedLine_app; assumption].
Qed.

(** A closed line between two fillers. *)
Lemma filled_line ws a b line :
  sgr ws -> closedLine line = true -> ~ In LF line ->
  let A := if truthy ws then ws ++ repeat 32 a ++ RESET else repeat 32 a in
  let B := if truthy ws then ws ++ repeat 32 b ++ RESET else repeat 32 b in
  forall out, out = A ++ line ++ B \/ (out = line ++ B /\ a = 0%nat)
              \/ (out = A ++ line /\ b = 0%nat) ->
  stringWidth out = Z.of_nat a + stringWidth line + Z.of_nat b
  /\ closedLine out = true /\ ~ In LF out
  /\ stripAnsi out = repeat 32 a ++ stripAnsi line ++ repeat 32 b.
Proof.
  intros Hs Hc Hn A B out Hout.
  destruct (filler ws a Hs) as (CA & EA & NA). fold A in CA, EA, NA.
  destruct (filler ws b Hs) as (CB & EB & NB). fold B in CB, EB, NB.
  assert (C0 : closedLine [] = true) by reflexivity.
  assert (G : forall X Y x y,
             closedLine X = true -> closedLine Y = true ->
             stripAnsi X = repeat 32 x -> stripAnsi Y = repeat 32 y ->
             ~ In LF X -> ~ In LF Y ->
             stringWidth (X ++ line ++ Y)
             = Z.of_nat x + stringWidth line + Z.of_nat y
             /\ closedLine (X ++ line ++ Y) = true
             /\ ~ In LF (X ++ line ++ Y)
             /\ stripAnsi (X ++ line ++ Y)
                = repeat 32 x ++ stripAnsi line ++ repeat 32 y).
  { intros X Y x y CX CY EX EY NX NY.
    destruct (row_text X line Y CX Hc CY) as [T C].
    split.
    - apply row_width; try assumption.
      + rewrite EX. apply edge_spaces.
      + rewrite EY. apply edge_spaces.
    - split; [exact C|]. split; [|rewrite T, EX, EY; reflexivity].
      intros Hin. apply in_app_or in Hin. destruct Hin as [Hin|Hin]; [tauto|].
      apply in_app_or in Hin. tauto. }
  destruct Hout as [-> | [[-> ->] | [-> ->]]].
  - apply G; assumption.
  - apply (G [] B 0%nat b); try assumption; try reflexivity. intros [].
  - replace (A ++ line) with (A ++ line ++ [])
      by (rewrite app_nil_r; reflexivity).
    apply (G A [] a 0%nat); try assumption; try reflexivity. intros [].
Qed.

Lemma Forall2_weaken {A B} (R S : A -> B -> Prop) l l' :
  (forall x y, R x y -> S x y) -> Forall2 R l l' -> Forall2 S l l'.
Proof. intros H. induction 1; constructor; auto. Qed.

Lemma Forall2_not_nil {A B} (R : A -> B -> Prop) l l' :
  Forall2 R l l' -> l <> [] -> l' <> [].
Proof. intros H. destruct H; [congruence | discriminate]. Qed.

End SizeFacts.

Import SizeFacts.

(** X27.  The width stage makes a block of closed lines at least
    [width] wide, line by line, where the result is a string the engine
    can hold: [applyWidth] returns, every line keeps its width when it
    is [width] or more and is [width] wide otherwise, and its visible
    text is that of the input line with spaces added on the left and on
    the right. *)
Theorem applyWidth_exact str width align whitespaceSeq :
  fits (applyWidth str width align whitespaceSeq) ->
  closedBlock str = true -> sgr whitespaceSeq ->
  exists r,
    applyWidth str width align whitespaceSeq = Ok r /\
    Forall2 (fun line out =>
               stringWidth out = Z.max width (stringWidth line)
               /\ closedLine out = true
               /\ paddedFrom (stripAnsi line) (stripAnsi out))
            (split LF str) (split LF r).
Proof.
  intros _ Hc Hs. unfold applyWidth. cbv zeta.
  match goal with
  | |- context [mapM ?f ?l] =>
      destruct (mapM_Forall2 f
                  (fun line out =>
                     ~ In LF out
                     /\ stringWidth out = Z.max width (stringWidth line)
                     /\ closedLine out = true
                     /\ paddedFrom (stripAnsi line) (stripAnsi out)) l)
        as [outs [E F]]
  end.
  - intros line Hin. cbv beta.
    assert (Cl : closedLine line = true)
      by (unfold closedBlock in Hc; rewrite forallb_forall in Hc; auto).
    assert (Nl : ~ In LF line)
      by (pose proof (split_no_sep LF str) as G;
          rewrite Forall_forall in G; auto).
    destruct (Z.geb_spec (stringWidth line) width) as [Hge|Hlt].
    + eexists. split; [reflexivity|].
      split; [exact Nl|]. split; [lia|]. split; [exact Cl|].
      apply paddedFrom_refl.
    + assert (Hd : 0 <= (width - stringWidth line) / 2
                   <= width - stringWidth line).
      { split; [apply Z.div_pos; lia|].
        apply Z.div_le_upper_bound; lia. }
      destruct (num_eq align Position.Left);
        [|destruct (num_eq align Position.Right)];
        rewrite !str_repeat_ok by lia; cbn [JS.bind];
        rewrite !copies_SPACE; (eexists; split; [reflexivity|]).
      * destruct (filled_line whitespaceSeq 0
                    (Z.to_nat (width - stringWidth line)) line Hs Cl Nl _
                    (or_intror (or_introl (conj eq_refl eq_refl))))
          as (W & C & N & T).
        split; [exact N|]. split; [rewrite W; lia|]. split; [exact C|].
        eexists _, _. exact T.
      * destruct (filled_line whitespaceSeq
                    (Z.to_nat (width - stringWidth line)) 0 line Hs Cl Nl _
                    (or_intror (or_intror (conj eq_refl eq_refl))))
          as (W & C & N & T).
        split; [exact N|]. split; [rewrite W; lia|]. split; [exact C|].
        eexists _, _. exact T.
      * destruct (filled_line whitespaceSeq
                    (Z.to_nat ((width - stringWidth line) / 2))
                    (Z.to_nat (width - stringWidth line
                               - (width - stringWidth line) / 2))
                    line Hs Cl Nl _ (or_introl eq_refl))
          as (W & C & N & T).
        split; [exact N|]. split; [rewrite W; lia|]. split; [exact C|].
        eexists _, _. exact T.
  - rewrite E. cbn [JS.bind]. eexists. split; [reflexivity|].
    rewrite split_join.
    + eapply Forall2_weaken; [|exact F]. cbv beta. tauto.
    + eapply Forall2_not_nil; [exact F | apply split_not_nil].
    + eapply Forall2_Forall_r; [exact F|]. cbv beta. tauto.
Qed.

Lemma applyWidth_exact_witness :
  exists r,
    applyWidth (lit "hi" ++ NL ++ lit "hello") 4 Position.Center
      (CSI ++ lit "7m") = Ok r /\
    Forall2 (fun line out =>
               stringWidth out = Z.max 4 (stringWidth line)
               /\ closedLine out = true
               /\ paddedFrom (stripAnsi line) (stripAnsi out))
            (split LF (lit "hi" ++ NL ++ lit "hello")) (split LF r).
Proof.
  apply applyWidth_exact; [vm_compute; discriminate | reflexivity |].
  apply (sgr_seq (lit "7") [] eq_refl sgr_nil).
Defined.

Module HeightFacts.
Import JS Width Layout Notions JSFacts WidthFacts ScanFacts LayoutFacts.
Import StyleFacts MeasureFacts SgrFacts RenderFacts RenderFacts2 BorderFacts.
Import SizeFacts.
Import Style.

(** Lines joined in front of a block, with the line feed between them
    that the height stage writes when there are any. *)
Lemma join_before (e : jsstring) n ys :
  ys <> [] ->
  join NL (repeat e (Z.to_nat n)) ++ (if n >? 0 then NL else []) ++ join NL ys
  = join NL (repeat e (Z.to_nat n) ++ ys).
Proof.
  intros Hy. destruct (Z.gtb_spec n 0) as [Hn|Hn].
  - rewrite join_app; [reflexivity | | exact Hy].
    destruct (Z.to_nat n) eqn:E; [lia | discriminate].
  - replace (Z.to_nat n) with 0%nat by lia. reflexivity.
Qed.

Lemma join_after (e : jsstring) n xs :
  xs <> [] ->
  join NL xs ++ (if n >? 0 then NL else []) ++ join NL (repeat e (Z.to_nat n))
  = join NL (xs ++ repeat e (Z.to_nat n)).
Proof.
  intros Hx. destruct (Z.gtb_spec n 0) as [Hn|Hn].
  - rewrite join_app; [reflexivity | exact Hx |].
    destruct (Z.to_nat n) eqn:E; [lia | discriminate].
  - replace (Z.to_nat n) with 0%nat by lia.
    cbn [repeat join app]. rewrite !app_nil_r. reflexivity.
Qed.

(** The height stage puts copies of one line above and below. *)
Lemma applyHeight_rows str height align whitespaceSeq :
  let sp := repeat 32 (Z.to_nat (maxLineWidth str)) in
  let emptyLine :=
    if truthy whitespaceSeq then whitespaceSeq ++ sp ++ RESET else sp in
  exists a b,
    applyHeight str height align whitespaceSeq
    = Ok (join NL (repeat emptyLine a ++ split LF str ++ repeat emptyLine b))
    /\ Z.of_nat (a + length (split LF str) + b)
       = Z.max height (Z.of_nat (length (split LF str))).
Proof.
  cbv zeta. unfold applyHeight. cbv zeta.
  pose proof (split_not_nil LF str) as Hne.
  destruct (Z.geb_spec (Z.of_nat (length (split LF str))) height) as [Hge|Hlt].
  { exists 0%nat, 0%nat. cbn [repeat app]. rewrite app_nil_r, joinNL_split.
    split; [reflexivity | lia]. }
  rewrite str_repeat_ok by apply maxLineWidth_nonneg. cbn [JS.bind].
  rewrite copies_SPACE.
  set (e := if truthy whitespaceSeq then _ else _).
  set (diff := height - Z.of_nat (length (split LF str))).
  assert (Hd : 0 < diff) by (unfold diff; lia).
  assert (H2 : 0 <= diff / 2 <= diff).
  { split; [apply Z.div_pos; lia | apply Z.div_le_upper_bound; lia]. }
  destruct (num_eq align Position.Top);
    [|destruct (num_eq align Position.Bottom)];
    rewrite !array_fill_ok by lia; cbn [JS.bind].
  - exists 0%nat, (Z.to_nat diff). split; [|unfold diff; lia].
    cbn [repeat app]. rewrite join_app; [rewrite joinNL_split; reflexivity
                                        | exact Hne |].
    destruct (Z.to_nat diff) eqn:E; [lia | discriminate].
  - exists (Z.to_nat diff), 0%nat. split; [|unfold diff; lia].
    cbn [repeat]. rewrite app_nil_r.
    rewrite join_app; [rewrite joinNL_split; reflexivity | | exact Hne].
    destruct (Z.to_nat diff) eqn:E; [lia | discriminate].
  - exists (Z.to_nat (diff / 2)), (Z.to_nat (diff - diff / 2)).
    split; [|unfold diff in *; lia].
    rewrite <- (joinNL_split str) at 1.
    rewrite join_after by exact Hne. rewrite join_before; [reflexivity|].
    destruct (split LF str); [congruence | discriminate].
Qed.

End HeightFacts.

Import HeightFacts.

(** X28.  The height stage makes a block at least [height] lines high,
    where the result is a string the engine can hold: [applyHeight]
    returns, the lines of the block are kept in order, and the lines
    added above and below are blank and as wide as the block. *)
Theorem applyHeight_exact str height align whitespaceSeq :
  fits (applyHeight str height align whitespaceSeq) ->
  sgr whitespaceSeq ->
  exists r above below,
    applyHeight str height align whitespaceSeq = Ok r /\
    split LF r = above ++ split LF str ++ below /\
    getHeight r = Z.max height (getHeight str) /\
    Forall (fun line =>
              stringWidth line = getWidth str
              /\ stripAnsi line = repeat 32 (Z.to_nat (getWidth str)))
           (above ++ below).
Proof.
  intros _ Hs.
  destruct (applyHeight_rows str height align whitespaceSeq)
    as (a & b & E & L).
  cbv zeta in E.
  destruct (filler whitespaceSeq (Z.to_nat (maxLineWidth str)) Hs)
    as (C & T & N).
  cbv zeta in C, T, N.
  set (e := if truthy whitespaceSeq
            then whitespaceSeq ++ repeat 32 (Z.to_nat (maxLineWidth str))
                 ++ RESET
            else repeat 32 (Z.to_nat (maxLineWidth str))) in *.
  exists (join NL (repeat e a ++ split LF str ++ repeat e b)),
    (repeat e a), (repeat e b).
  assert (S : split LF (join NL (repeat e a ++ split LF str ++ repeat e b))
              = repeat e a ++ split LF str ++ repeat e b).
  { apply split_join.
    - pose proof (split_not_nil LF str).
      destruct (repeat e a); [|discriminate].
      destruct (split LF str); [congruence | discriminate].
    - repeat (apply Forall_app; split); try apply split_no_sep;
        apply Forall_forall; intros l Hl; apply In_repeat_eq in Hl;
        subst l; exact N. }
  split; [exact E|]. split; [exact S|]. split.
  - unfold getHeight. rewrite S, !length_app, !repeat_length. lia.
  - apply Forall_forall. intros l Hl.
    assert (l = e) as ->
      by (apply in_app_or in Hl; destruct Hl as [Hl|Hl];
          apply In_repeat_eq in Hl; exact Hl).
    unfold getWidth. split; [|exact T].
    rewrite stringWidth_textWidth, T, textWidth_spaces.
    pose proof (maxLineWidth_nonneg str). lia.
Qed.

Lemma applyHeight_exact_witness :
  exists r above below,
    applyHeight (lit "hello" ++ NL ++ lit "hi") 5 Position.Center [] = Ok r /\
    split LF r = above ++ split LF (lit "hello" ++ NL ++ lit "hi") ++ below /\
    getHeight r = Z.max 5 (getHeight (lit "hello" ++ NL ++ lit "hi")) /\
    Forall (fun line =>
              stringWidth line = getWidth (lit "hello" ++ NL ++ lit "hi")
              /\ stripAnsi line
                 = repeat 32
                     (Z.to_nat (getWidth (lit "hello" ++ NL ++ lit "hi"))))
           (above ++ below).
Proof.
  apply applyHeight_exact; [vm_compute; discriminate | exact sgr_nil].
Defined.

Module MarginFacts.
Import JS Width Layout Notions JSFacts WidthFacts ScanFacts LayoutFacts.
Import StyleFacts MeasureFacts MeasureFacts2 SgrFacts RenderFacts RenderFacts2.
Import BorderFacts SizeFacts.
Import Style.
Import Options.

Lemma fold_maxStep_exact rows M :
  0 <= M ->
  (forall row, In row rows -> stringWidth row <= M) ->
  (exists row, In row rows /\ stringWidth row = M) ->
  fold_left maxStep rows 0 = M.
Proof.
  intros H0 Hle [row [Hin E]].
  pose proof (fold_maxStep_bound rows 0 row Hin) as Hge.
  destruct (fold_maxStep_attained rows 0) as [Z0 | [l [Hl El]]]; [lia|].
  pose proof (Hle l Hl). lia.
Qed.

Lemma widest_line s :
  exists line, In line (split LF s) /\ stringWidth line = maxLineWidth s.
Proof.
  rewrite maxLineWidth_fold.
  destruct (fold_maxStep_attained (split LF s) 0) as [E | H]; [|exact H].
  pose proof (split_not_nil LF s) as Hn.
  destruct (split LF s) as [|l ls] eqn:Es; [congruence|].
  exists l. split; [left; reflexivity|].
  pose proof (fold_maxStep_bound (l :: ls) 0 l (or_introl eq_refl)).
  pose proof (stringWidth_nonneg l). lia.
Qed.

(** The filler of the margin stage is the filler of the other stages. *)
Lemma margin_filler bg n :
  bg ++ repeat 32 n ++ (if truthy bg then RESET else [])
  = if truthy bg then bg ++ repeat 32 n ++ RESET else repeat 32 n.
Proof. destruct bg; [apply app_nil_r | reflexivity]. Qed.

Section Margin.
Variable parseInt16 : jsstring -> option Z.

(** The rows the margin stage writes, for margins that are not
    negative. *)
Lemma applyMargin_rows this str :
  0 <= marginTop this -> 0 <= marginRight this ->
  0 <= marginBottom this -> 0 <= marginLeft this ->
  let bg := match marginBackground this with
            | Some c => colorToSequence parseInt16 c false
            | None => []
            end in
  let fill := fun n =>
    if truthy bg then bg ++ repeat 32 (Z.to_nat n) ++ RESET
    else repeat 32 (Z.to_nat n) in
  let e := fill (maxLineWidth str + marginLeft this + marginRight this) in
  applyMargin parseInt16 this str
  = Ok (join NL
          (repeat e (Z.to_nat (marginTop this))
           ++ (if (marginLeft this >? 0) || (marginRight this >? 0)
               then map (fun line => fill (marginLeft this) ++ line
                                     ++ fill (marginRight this))
                        (split LF str)
               else split LF str)
           ++ repeat e (Z.to_nat (marginBottom this)))).
Proof.
  intros Ht Hr Hb Hl. cbv zeta. unfold applyMargin. cbv zeta.
  pose proof (maxLineWidth_nonneg str) as Hw.
  set (bg := match marginBackground this with
             | Some c => colorToSequence parseInt16 c false
             | None => []
             end).
  rewrite <- !margin_filler.
  destruct ((marginLeft this >? 0) || (marginRight this >? 0));
    rewrite ?str_repeat_ok by lia; cbn [JS.bind];
    rewrite ?copies_SPACE;
    destruct (Z.gtb_spec (marginTop this) 0);
    destruct (Z.gtb_spec (marginBottom this) 0);
    rewrite ?str_repeat_ok by lia; cbn [JS.bind];
    rewrite ?array_fill_ok by lia; cbn [JS.bind];
    rewrite ?copies_SPACE;
    try replace (marginTop this) with 0 by lia;
    try replace (marginBottom this) with 0 by lia;
    cbn [Z.to_nat repeat app]; rewrite ?app_nil_r;
    rewrite <- ?(app_assoc (A := jsstring)); reflexivity.
Qed.

End Margin.

Lemma Forall2_In_l {A B} (R : A -> B -> Prop) l l' x :
  Forall2 R l l' -> In x l -> exists y, In y l' /\ R x y.
Proof.
  induction 1 as [|a b l l' Hab _ IH]; intros Hin; [destruct Hin|].
  destruct Hin as [->|Hin].
  - exists b. split; [left; reflexivity | exact Hab].
  - destruct (IH Hin) as [y [Hy HR]]. exists y. split; [right|]; assumption.
Qed.

Lemma Forall2_In_r {A B} (R : A -> B -> Prop) l l' y :
  Forall2 R l l' -> In y l' -> exists x, In x l /\ R x y.
Proof.
  induction 1 as [|a b l l' Hab _ IH]; intros Hin; [destruct Hin|].
  destruct Hin as [->|Hin].
  - exists a. split; [left; reflexivity | exact Hab].
  - destruct (IH Hin) as [x [Hx HR]]. exists x. split; [right|]; assumption.
Qed.

Lemma Forall2_map_r {A B} (R : A -> B -> Prop) (f : A -> B) l :
  (forall x, In x l -> R x (f x)) -> Forall2 R l (map f l).
Proof.
  induction l as [|a l IH]; intros H; cbn [map]; constructor.
  - apply H. left. reflexivity.
  - apply IH. intros x Hx. apply H. right. exact Hx.
Qed.

Lemma Forall2_same {A} (R : A -> A -> Prop) l :
  (forall x, In x l -> R x x) -> Forall2 R l l.
Proof.
  intros H. rewrite <- (map_id l) at 2. apply Forall2_map_r. exact H.
Qed.

End MarginFacts.

Import MarginFacts.

(** X29.  With margins that are not negative, a margin background of
    safe components if any, and a result the engine can hold, the
    margin stage adds the margins to the size of a block of closed
    lines: [applyMargin] returns a block higher by the top and bottom
    margins and wider by the left and right ones. *)
Theorem applyMargin_size parseInt16 this str :
  0 <= Options.marginTop this -> 0 <= Options.marginRight this ->
  0 <= Options.marginBottom this -> 0 <= Options.marginLeft this ->
  fits (applyMargin parseInt16 this str) ->
  safeOption (Options.marginBackground this) = true ->
  closedBlock str = true ->
  exists r,
    applyMargin parseInt16 this str = Ok r /\
    getHeight r
    = getHeight str + Options.marginTop this + Options.marginBottom this /\
    getWidth r
    = getWidth str + Options.marginLeft this + Options.marginRight this.
Proof.
  intros Ht Hr Hb Hl _ _ Hc.
  rewrite (applyMargin_rows parseInt16 this str Ht Hr Hb Hl). cbv beta zeta.
  pose proof (maxLineWidth_nonneg str) as Hw.
  set (bg := match Options.marginBackground this with
             | Some c => colorToSequence parseInt16 c false
             | None => []
             end).
  assert (Hs : sgr bg)
    by (unfold bg; destruct (Options.marginBackground this);
        [apply colorToSequence_sgr | exact sgr_nil]).
  set (M := maxLineWidth str + Options.marginLeft this
            + Options.marginRight this).
  set (e := if truthy bg then bg ++ repeat 32 (Z.to_nat M) ++ RESET
            else repeat 32 (Z.to_nat M)).
  match goal with
  | |- context [repeat e _ ++ ?R ++ repeat e _] => set (rows := R)
  end.
  assert (He : ~ In LF e /\ stringWidth e = M).
  { destruct (filler bg (Z.to_nat M) Hs) as (C & T & N). fold e in C, T, N.
    split; [exact N|].
    rewrite stringWidth_textWidth, T, textWidth_spaces. unfold M. lia. }
  assert (F : Forall2 (fun line row =>
                         ~ In LF row
                         /\ stringWidth row
                            = stringWidth line + Options.marginLeft this
                              + Options.marginRight this)
                      (split LF str) rows).
  { unfold rows.
    destruct ((Options.marginLeft this >? 0)
              || (Options.marginRight this >? 0)) eqn:B.
    - apply Forall2_map_r. intros line Hin.
      assert (Cl : closedLine line = true)
        by (unfold closedBlock in Hc; rewrite forallb_forall in Hc; auto).
      assert (Nl : ~ In LF line)
        by (pose proof (split_no_sep LF str) as G;
            rewrite Forall_forall in G; auto).
      destruct (filled_line bg (Z.to_nat (Options.marginLeft this))
                  (Z.to_nat (Options.marginRight this)) line Hs Cl Nl _
                  (or_introl eq_refl)) as (W & _ & N & _).
      split; [exact N|]. rewrite W. lia.
    - apply orb_false_elim in B. destruct B as [B1 B2].
      rewrite Z.gtb_ltb in B1, B2. apply Z.ltb_ge in B1, B2.
      apply Forall2_same. intros line Hin. split; [|lia].
      pose proof (split_no_sep LF str) as G.
      rewrite Forall_forall in G. auto. }
  assert (Hne : rows <> [])
    by (eapply Forall2_not_nil; [exact F | apply split_not_nil]).
  eexists. split; [reflexivity|].
  assert (S : split LF (join NL (repeat e (Z.to_nat (Options.marginTop this))
                                 ++ rows
                                 ++ repeat e
                                      (Z.to_nat (Options.marginBottom this))))
              = repeat e (Z.to_nat (Options.marginTop this)) ++ rows
                ++ repeat e (Z.to_nat (Options.marginBottom this))).
  { apply split_join.
    - destruct (repeat e (Z.to_nat (Options.marginTop this)));
        [|discriminate].
      destruct rows; [congruence | discriminate].
    - repeat (apply Forall_app; split).
      + apply Forall_forall. intros l Hin. apply In_repeat_eq in Hin.
        subst l. apply He.
      + eapply Forall2_Forall_r; [exact F|]. cbv beta. tauto.
      + apply Forall_forall. intros l Hin. apply In_repeat_eq in Hin.
        subst l. apply He. }
  split.
  - unfold getHeight. rewrite S, !length_app, !repeat_length.
    rewrite <- (Forall2_length_eq _ _ _ F). lia.
  - unfold getWidth. rewrite (maxLineWidth_fold (join NL _)), S.
    apply fold_maxStep_exact.
    + unfold M. lia.
    + intros row Hin.
      apply in_app_or in Hin. destruct Hin as [Hin|Hin];
        [apply In_repeat_eq in Hin; subst row; destruct He; lia|].
      apply in_app_or in Hin. destruct Hin as [Hin|Hin];
        [|apply In_repeat_eq in Hin; subst row; destruct He; lia].
      destruct (Forall2_In_r _ _ _ _ F Hin) as [line [Hl' [_ W]]].
      pose proof (maxLineWidth_bound str line Hl'). unfold M. lia.
    + destruct (widest_line str) as [line [Hin W]].
      destruct (Forall2_In_l _ _ _ _ F Hin) as [row [Hrow [_ Wr]]].
      exists row. split; [|unfold M; lia].
      apply in_or_app. right. apply in_or_app. left. exact Hrow.
Qed.

Lemma applyMargin_size_witness :
  exists r,
    applyMargin parseIntHex
      (Style.marginBackground (Style.margin style 1 (Some 2) None None)
         (ColorCode 4))
      (lit "ab" ++ NL ++ lit "c") = Ok r /\
    getHeight r = getHeight (lit "ab" ++ NL ++ lit "c") + 1 + 1 /\
    getWidth r = getWidth (lit "ab" ++ NL ++ lit "c") + 2 + 2.
Proof.
  apply (applyMargin_size parseIntHex
           (Style.marginBackground (Style.margin style 1 (Some 2) None None)
              (ColorCode 4))
           (lit "ab" ++ NL ++ lit "c"));
    try reflexivity; vm_compute; discriminate.
Defined.

Lemma applyMargin_raises_iff_witness :
  applyMargin parseIntHex
    (Style.marginRight (Style.marginLeft style 2) (-1)) (lit "x")
  = RangeError.
Proof.
  apply (applyMargin_raises_iff parseIntHex
           (Style.marginRight (Style.marginLeft style 2) (-1)) (lit "x"));
    [exact I|].
  left. split; [left | right]; reflexivity.
Defined.

Module PaddingFacts.
Import JS Width Layout Notions JSFacts WidthFacts ScanFacts LayoutFacts.
Import StyleFacts MeasureFacts MeasureFacts2 SgrFacts RenderFacts RenderFacts2.
Import BorderFacts SizeFacts MarginFacts.
Import Style.
Import Options.

Lemma copies_NL n : copies NL n = repeat LF (Z.to_nat n).
Proof.
  unfold copies, NL. induction (Z.to_nat n) as [|k IH]; [reflexivity|].
  cbn [repeat concat app]. rewrite IH. reflexivity.
Qed.

(** Line feeds in front of a string, or behind it, are empty lines. *)
Lemma split_LFs_app n s :
  split LF (repeat LF n ++ s) = repeat [] n ++ split LF s.
Proof.
  induction n as [|n IH]; [reflexivity|].
  cbn [repeat app split]. rewrite Z.eqb_refl, IH. reflexivity.
Qed.

Lemma split_app_LFs s n :
  split LF (s ++ repeat LF n) = split LF s ++ repeat [] n.
Proof.
  induction s as [|c s IH].
  - cbn [app]. rewrite <- (app_nil_r (repeat LF n)), split_LFs_app.
    cbn [split app]. symmetry. apply (repeat_cons n ([] : jsstring)).
  - cbn [app split]. rewrite IH. destruct (c =? LF); [reflexivity|].
    pose proof (split_not_nil LF s).
    destruct (split LF s); [congruence | reflexivity].
Qed.

Lemma applyPadding_stages this whitespaceSeq str :
  let fill := fun n =>
    if truthy whitespaceSeq
    then whitespaceSeq ++ repeat 32 (Z.to_nat n) ++ RESET
    else repeat 32 (Z.to_nat n) in
  let s1 :=
    if paddingLeft this >? 0
    then join NL (map (fun line => fill (paddingLeft this) ++ line)
                      (split LF str))
    else str in
  let s2 :=
    if paddingRight this >? 0
    then join NL (map (fun line => line ++ fill (paddingRight this))
                      (split LF s1))
    else s1 in
  let s3 :=
    if paddingTop this >? 0
    then repeat LF (Z.to_nat (paddingTop this)) ++ s2 else s2 in
  applyPadding this whitespaceSeq str
  = Ok (if paddingBottom this >? 0
        then s3 ++ repeat LF (Z.to_nat (paddingBottom this)) else s3).
Proof.
  cbv zeta. unfold applyPadding. cbv zeta.
  destruct (Z.gtb_spec (paddingLeft this) 0);
    destruct (Z.gtb_spec (paddingRight this) 0);
    destruct (Z.gtb_spec (paddingTop this) 0);
    destruct (Z.gtb_spec (paddingBottom this) 0);
    rewrite ?str_repeat_ok by lia; cbn [JS.bind];
    rewrite ?str_repeat_ok by lia; cbn [JS.bind];
    rewrite ?copies_SPACE, ?copies_NL; reflexivity.
Qed.

Lemma Forall2_compose {A B C} (R : A -> B -> Prop) (S : B -> C -> Prop)
    (T : A -> C -> Prop) l1 l2 l3 :
  (forall x y z, R x y -> S y z -> T x z) ->
  Forall2 R l1 l2 -> Forall2 S l2 l3 -> Forall2 T l1 l3.
Proof.
  intros H F. revert l3. induction F as [|x y l1 l2 Hxy _ IH]; intros l3 G.
  - inversion G. constructor.
  - inversion G as [|? z ? l3' Hyz G']; subst. constructor; eauto.
Qed.

(** One side of the padding: every line of a block of closed lines is
    widened by the padding when it is positive, and stays closed. *)
Lemma side_padding ws n (f : jsstring -> jsstring) str :
  sgr ws -> closedBlock str = true ->
  (forall line,
     let A := if truthy ws then ws ++ repeat 32 (Z.to_nat n) ++ RESET
              else repeat 32 (Z.to_nat n) in
     f line = A ++ line \/ f line = line ++ A) ->
  let out := if n >? 0 then join NL (map f (split LF str)) else str in
  closedBlock out = true /\
  Forall2 (fun line row => stringWidth row = stringWidth line + Z.max 0 n)
          (split LF str) (split LF out).
Proof.
  intros Hs Hc Hf out. cbv zeta in Hf.
  assert (Hall : forall line, In line (split LF str) ->
                   closedLine line = true /\ ~ In LF line).
  { intros line Hin. split.
    - unfold closedBlock in Hc. rewrite forallb_forall in Hc. auto.
    - pose proof (split_no_sep LF str) as G.
      rewrite Forall_forall in G. auto. }
  unfold out. destruct (Z.gtb_spec n 0) as [Hn|Hn].
  - assert (F : Forall2 (fun line row =>
                           ~ In LF row /\ closedLine row = true
                           /\ stringWidth row = stringWidth line + Z.max 0 n)
                        (split LF str) (map f (split LF str))).
    { apply Forall2_map_r. intros line Hin.
      destruct (Hall line Hin) as [Cl Nl].
      destruct (Hf line) as [E|E]; rewrite E.
      - destruct (filled_line ws (Z.to_nat n) 0 line Hs Cl Nl _
                    (or_intror (or_intror (conj eq_refl eq_refl))))
          as (W & C & N & _).
        split; [exact N|]. split; [exact C|]. rewrite W. lia.
      - destruct (filled_line ws 0 (Z.to_nat n) line Hs Cl Nl _
                    (or_intror (or_introl (conj eq_refl eq_refl))))
          as (W & C & N & _).
        split; [exact N|]. split; [exact C|]. rewrite W. lia. }
    assert (S : split LF (join NL (map f (split LF str)))
                = map f (split LF str)).
    { apply split_join.
      - eapply Forall2_not_nil; [exact F | apply split_not_nil].
      - eapply Forall2_Forall_r; [exact F|]. cbv beta. tauto. }
    split.
    + unfold closedBlock. rewrite S. apply forallb_forall.
      intros row Hin. destruct (Forall2_In_r _ _ _ _ F Hin) as [l [_ H]].
      apply H.
    + rewrite S. eapply Forall2_weaken; [|exact F]. cbv beta. tauto.
  - split; [exact Hc|]. apply Forall2_same. intros. lia.
Qed.

End PaddingFacts.

Import PaddingFacts.

(** X30.  The padding stage adds the paddings that are positive to the
    size of a block of closed lines, and ignores the others, where the
    result is a string the engine can hold: [applyPadding] returns a
    block higher by the top and bottom paddings and wider by the left
    and right ones. *)
Theorem applyPadding_size this whitespaceSeq str :
  fits (applyPadding this whitespaceSeq str) ->
  sgr whitespaceSeq -> closedBlock str = true ->
  exists r,
    applyPadding this whitespaceSeq str = Ok r /\
    getHeight r = getHeight str + Z.max 0 (Options.paddingTop this)
                  + Z.max 0 (Options.paddingBottom this) /\
    getWidth r = getWidth str + Z.max 0 (Options.paddingLeft this)
                 + Z.max 0 (Options.paddingRight this).
Proof.
  intros _ Hs Hc. rewrite applyPadding_stages. cbv beta zeta.
  match goal with
  | |- context [if Options.paddingLeft this >? 0 then ?a else str] =>
      set (s1 := if Options.paddingLeft this >? 0 then a else str)
  end.
  match goal with
  | |- context [if Options.paddingRight this >? 0 then ?a else s1] =>
      set (s2 := if Options.paddingRight this >? 0 then a else s1)
  end.
  destruct (side_padding whitespaceSeq (Options.paddingLeft this)
              (fun line =>
                 (if truthy whitespaceSeq
                  then whitespaceSeq
                       ++ repeat 32 (Z.to_nat (Options.paddingLeft this))
                       ++ RESET
                  else repeat 32 (Z.to_nat (Options.paddingLeft this)))
                 ++ line) str Hs Hc) as [C1 F1];
    [intros line; left; reflexivity|].
  cbv zeta in C1, F1. fold s1 in C1, F1.
  destruct (side_padding whitespaceSeq (Options.paddingRight this)
              (fun line =>
                 line
                 ++ (if truthy whitespaceSeq
                     then whitespaceSeq
                          ++ repeat 32 (Z.to_nat (Options.paddingRight this))
                          ++ RESET
                     else repeat 32 (Z.to_nat (Options.paddingRight this))))
              s1 Hs C1) as [C2 F2];
    [intros line; right; reflexivity|].
  cbv zeta in C2, F2. fold s2 in C2, F2.
  set (M := maxLineWidth str + Z.max 0 (Options.paddingLeft this)
            + Z.max 0 (Options.paddingRight this)).
  assert (F : Forall2 (fun line row =>
                         stringWidth row
                         = stringWidth line
                           + Z.max 0 (Options.paddingLeft this)
                           + Z.max 0 (Options.paddingRight this))
                      (split LF str) (split LF s2)).
  { eapply Forall2_compose; [|exact F1|exact F2]. cbv beta. intros. lia. }
  pose proof (maxLineWidth_nonneg str) as Hw.
  match goal with
  | |- exists r, Ok ?x = Ok r /\ _ => set (res := x)
  end.
  exists res. split; [reflexivity|].
  assert (S : split LF res
              = repeat [] (Z.to_nat (Options.paddingTop this))
                ++ split LF s2
                ++ repeat [] (Z.to_nat (Options.paddingBottom this))).
  { unfold res.
    destruct (Z.gtb_spec (Options.paddingBottom this) 0);
      destruct (Z.gtb_spec (Options.paddingTop this) 0);
      rewrite ?split_app_LFs, ?split_LFs_app;
      try replace (Z.to_nat (Options.paddingTop this)) with 0%nat by lia;
      try replace (Z.to_nat (Options.paddingBottom this)) with 0%nat by lia;
      cbn [repeat app]; rewrite <- ?app_assoc, ?app_nil_r; reflexivity. }
  split.
  - unfold getHeight. rewrite S, !length_app, !repeat_length.
    rewrite <- (Forall2_length_eq _ _ _ F). lia.
  - unfold getWidth. rewrite (maxLineWidth_fold res), S.
    apply fold_maxStep_exact.
    + lia.
    + intros row Hin.
      apply in_app_or in Hin. destruct Hin as [Hin|Hin];
        [apply In_repeat_eq in Hin; subst row;
         change (stringWidth []) with 0; lia|].
      apply in_app_or in Hin. destruct Hin as [Hin|Hin];
        [|apply In_repeat_eq in Hin; subst row;
          change (stringWidth []) with 0; lia].
      destruct (Forall2_In_r _ _ _ _ F Hin) as [line [Hl' W]].
      pose proof (maxLineWidth_bound str line Hl'). lia.
    + destruct (widest_line str) as [line [Hin W]].
      destruct (Forall2_In_l _ _ _ _ F Hin) as [row [Hrow Wr]].
      exists row. split; [|lia].
      apply in_or_app. right. apply in_or_app. left. exact Hrow.
Qed.

Lemma applyPadding_size_witness :
  exists r,
    applyPadding (Style.padding style 1 (Some 2) None None) (CSI ++ lit "44m")
      (lit "ab" ++ NL ++ lit "c") = Ok r /\
    getHeight r = getHeight (lit "ab" ++ NL ++ lit "c") + Z.max 0 1 + Z.max 0 1 /\
    getWidth r = getWidth (lit "ab" ++ NL ++ lit "c") + Z.max 0 2 + Z.max 0 2.
Proof.
  apply (applyPadding_size (Style.padding style 1 (Some 2) None None)
           (CSI ++ lit "44m") (lit "ab" ++ NL ++ lit "c"));
    try (vm_compute; discriminate);
    [apply (sgr_seq (lit "44") [] eq_refl sgr_nil) | reflexivity].
Defined.
